(** * photodate-fix: pairing, catalog, transactional correction, grouping

    A shallow embedding of the Python sources [src/app.py],
    [src/database.py] and [src/similarity_analyzer.py].

    Python [str] values are Rocq [string]s over ASCII; the string
    algorithms work on the list of characters.  External libraries
    (the clock, [secrets], EXIF rewriting, image decoding, DBSCAN,
    SQLite errors) are oracles: every theorem quantifies over them. *)

From Stdlib Require Import ZArith Ascii String List.
From stdpp Require Import base decidable option list sorting gmap fin_maps strings pretty.

Set Warnings "-clear-no-such-hyp".

(** ** Python string primitives *)

Module Py.

Definition chars (s : string) : list ascii := list_ascii_of_string s.
Definition str (l : list ascii) : string := string_of_list_ascii l.

(** [s.endswith(suf)] and [s.startswith(pre)]; both are case-sensitive. *)
Definition endswith (s suf : string) : bool :=
  bool_decide (chars suf `suffix_of` chars s).
Definition startswith (s pre : string) : bool :=
  bool_decide (chars pre `prefix_of` chars s).

Definition is_upper (c : ascii) : bool :=
  let n := nat_of_ascii c in (65 <=? n)%nat && (n <=? 90)%nat.
Definition lower_char (c : ascii) : ascii :=
  if is_upper c then ascii_of_nat (nat_of_ascii c + 32) else c.
(** [s.lower()] on ASCII text. *)
Definition lower (s : string) : string := str (lower_char <$> chars s).

(** Truthiness of an optional string: [None] and [''] are falsy. *)
Definition truthy (o : option string) : bool :=
  match o with
  | Some s => negb (String.eqb s "")
  | None => false
  end.

(** [s.rfind(c)], with [-1] when [c] does not occur. *)
Fixpoint rfind_from (c : ascii) (l : list ascii) (i : Z) (last : Z) : Z :=
  match l with
  | [] => last
  | x :: r => rfind_from c r (i + 1) (if decide (x = c) then i else last)
  end.
Definition rfind (c : ascii) (l : list ascii) : Z := rfind_from c l 0 (-1).

(** [os.path.splitext] (posixpath: [sep = '/'], [extsep = '.']):
    the extension starts at the last dot, provided that dot comes after
    the last separator and is preceded by a character that is not a dot. *)
Definition splitext (p : string) : string * string :=
  let l := chars p in
  let sepIndex := rfind "/"%char l in
  let dotIndex := rfind "."%char l in
  if bool_decide (sepIndex < dotIndex)%Z then
    let lead := take (Z.to_nat (dotIndex - (sepIndex + 1)))
                     (drop (Z.to_nat (sepIndex + 1)) l) in
    if forallb (fun x => bool_decide (x = "."%char)) lead
    then (p, "")
    else (str (take (Z.to_nat dotIndex) l), str (drop (Z.to_nat dotIndex) l))
  else (p, "").

(** [pattern in s]: [pattern] occurs as a contiguous part of [s]. *)
Fixpoint contains_chars (pattern l : list ascii) : bool :=
  bool_decide (pattern `prefix_of` l) ||
  match l with
  | [] => false
  | _ :: r => contains_chars pattern r
  end.
Definition contains (s pattern : string) : bool :=
  contains_chars (chars pattern) (chars s).

(** [os.path.join(a, b)] (posixpath). *)
Definition join (a b : string) : string :=
  if startswith b "/" then b
  else if bool_decide (a = "") || endswith a "/" then a +:+ b
  else a +:+ "/" +:+ b.

(** [os.path.basename] (posixpath). *)
Definition basename (p : string) : string :=
  let l := chars p in str (drop (Z.to_nat (rfind "/"%char l + 1)) l).

End Py.

(** ** Pairing resolver *)

(** [_determine_file_type] (identical in [app.py] and [database.py]). *)
Definition determine_file_type (filename : string) : string :=
  if Py.endswith filename "_a.jpg" || Py.endswith filename "_a.jpeg" then "front"
  else if Py.endswith filename "_b.jpg" || Py.endswith filename "_b.jpeg" then "back"
  else "variant".

(** *** The two regular expressions of [extract_base_name]

    [re.match(pattern, filename, re.IGNORECASE)] is a backtracking
    search; the functions below follow its order of alternatives, so
    that the groups returned are the ones of the first match found. *)

Module Re.

Definition is_digit (c : ascii) : bool :=
  let n := nat_of_ascii c in (48 <=? n)%nat && (n <=? 57)%nat.

(** A literal letter of the pattern under [re.IGNORECASE]. *)
Definition ieq (c x : ascii) : bool := bool_decide (Py.lower_char c = x).

Definition newline : ascii := "010"%char.

(** [$]: the end of the string, or just before a final newline. *)
Definition at_end (l : list ascii) : bool :=
  match l with
  | [] => true
  | [c] => bool_decide (c = newline)
  | _ => false
  end.

(** [\.jpe?g$] *)
Definition ext_tail (l : list ascii) : bool :=
  match l with
  | d :: j :: p :: r =>
      bool_decide (d = "."%char) && ieq j "j" && ieq p "p" &&
      match r with
      | e :: g :: r' =>
          (ieq e "e" && ieq g "g" && at_end r') || (ieq e "g" && at_end (g :: r'))
      | [g] => ieq g "g"
      | [] => false
      end
  | _ => false
  end.

(** [(_[ab])?\.jpe?g$]: the optional group is greedy, so the suffix is
    tried first.  Returns the text of the suffix group when it took part. *)
Definition tail_groups (l : list ascii) : option (option string) :=
  match l with
  | u :: c :: r =>
      if bool_decide (u = "_"%char) && (ieq c "a" || ieq c "b") && ext_tail r
      then Some (Some (Py.str [u; c]))
      else if ext_tail l then Some None else None
  | _ => if ext_tail l then Some None else None
  end.

(** [(.+?)] followed by the tail: the lazy group grows one character at
    a time ([.] does not match a newline) until the tail matches. *)
Fixpoint lazy_plus (acc : list ascii) (l : list ascii)
  : option (string * option string) :=
  match l with
  | [] => None
  | c :: r =>
      if bool_decide (c = newline) then None
      else match tail_groups r with
           | Some g => Some (Py.str (acc ++ [c]), g)
           | None => lazy_plus (acc ++ [c]) r
           end
  end.

(** [\d{4}-\d{2}-\d{2}_] as a test on exactly eleven characters. *)
Definition is_date_prefix (p : list ascii) : bool :=
  match p with
  | [y1; y2; y3; y4; h1; m1; m2; h2; d1; d2; u] =>
      forallb is_digit [y1; y2; y3; y4; m1; m2; d1; d2]
      && bool_decide (h1 = "-"%char) && bool_decide (h2 = "-"%char)
      && bool_decide (u = "_"%char)
  | _ => false
  end.

(** The optional first group at the start of the subject: the matched
    prefix and the rest of the subject. *)
Definition date_prefix (l : list ascii) : option (string * list ascii) :=
  if is_date_prefix (take 11 l) then Some (Py.str (take 11 l), drop 11 l) else None.

(** [^(\d{4}-\d{2}-\d{2}_)?(.+?)(_[ab])?\.jpe?g$]: groups 1, 2, 3. *)
Definition match1 (filename : string)
  : option (option string * string * option string) :=
  let l := Py.chars filename in
  let without := '(g2, g3) ← lazy_plus [] l; Some (None, g2, g3) in
  match date_prefix l with
  | Some (d, rest) =>
      match lazy_plus [] rest with
      | Some (g2, g3) => Some (Some d, g2, g3)
      | None => without
      end
  | None => without
  end.

(** [^(.+?)(_[ab])?\.jpe?g$]: groups 1, 2. *)
Definition match2 (filename : string) : option (string * option string) :=
  lazy_plus [] (Py.chars filename).

End Re.

(** [extract_base_name] (identical in [app.py] and [database.py]).
    The result is a Python value: [None] stands for Python's [None]. *)
Definition extract_base_name (filename : string) : option string :=
  match Re.match1 filename with
  | Some (g1, g2, _) =>
      if Py.truthy g1 && from_option (fun s => Py.endswith s "_") false g1
      then Some g2
      else if Py.truthy g1 then g1 else Some g2
  | None =>
      match Re.match2 filename with
      | Some (g1, g2) =>
          if Py.truthy (Some g1) && Py.endswith g1 "_" then g2
          else if Py.truthy (Some g1) then Some g1 else g2
      | None => Some (fst (Py.splitext filename))
      end
  end.

(** ** Catalog store ([database.py])

    A table is a finite map from its [INTEGER PRIMARY KEY] to the row.
    [AUTOINCREMENT] keeps, per table, the largest rowid ever handed out.
    SQLite leaves the order of an unordered [SELECT] unspecified; the
    model enumerates a table in the order of [map_to_list].  The schema
    declares [ON DELETE CASCADE] foreign keys, but no connection issues
    [PRAGMA foreign_keys=ON], so SQLite does not enforce them: deletions
    touch exactly the rows their statement names. *)

(** The outcome of a call that may raise; the message is [str(e)]. *)
Inductive outcome (A : Type) : Type :=
  | Ok (a : A)
  | Raise (msg : string).
Arguments Ok {A} a.
Arguments Raise {A} msg.

Record photo := Photo {
  filepath : string;
  base_name : string;
  file_type : string;
  default_date : option string;
  processed_date : option Z;
  ignored_date : option Z;
  created_at : Z;
  updated_at : Z }.

Record photo_embedding := PhotoEmbedding {
  pe_photo_id : Z;
  embedding_type : string;
  embedding_data : string;
  pe_created_at : Z }.

(** One entry of the [photo_pairs] dictionaries. *)
Record pair := Pair {
  front : option string;
  back : option string;
  variants : list string;
  pair_default_date : option string }.

Definition empty_pair : pair := Pair None None [] None.

Definition max_rowid {A} (m : gmap Z A) : Z := foldr Z.max 0%Z (map_to_list m).*1.

(** The rowid of an [AUTOINCREMENT] insert. *)
Definition next_rowid {A} (seq : Z) (m : gmap Z A) : Z :=
  (1 + Z.max seq (max_rowid m))%Z.

Section Catalog.

(** SQLite [REAL] values (similarity scores) are opaque. *)
Context {real : Type}.

Record photo_group := PhotoGroup {
  name : option string;
  description : option string;
  similarity_score : option real;
  pg_created_at : Z;
  pg_updated_at : Z }.

Record group_member := GroupMember {
  gm_photo_id : Z;
  gm_group_id : Z;
  gm_similarity_score : option real;
  gm_created_at : Z }.

Record db := Db {
  photos : gmap Z photo;
  photos_seq : Z;
  photo_groups : gmap Z photo_group;
  photo_groups_seq : Z;
  photo_group_members : gmap Z group_member;
  photo_group_members_seq : Z;
  photo_embeddings : gmap Z photo_embedding;
  photo_embeddings_seq : Z }.

Definition set_photos (d : db) (m : gmap Z photo) (seq : Z) : db :=
  Db m seq (photo_groups d) (photo_groups_seq d)
     (photo_group_members d) (photo_group_members_seq d)
     (photo_embeddings d) (photo_embeddings_seq d).

Definition set_photo_groups (d : db) (m : gmap Z photo_group) (seq : Z) : db :=
  Db (photos d) (photos_seq d) m seq
     (photo_group_members d) (photo_group_members_seq d)
     (photo_embeddings d) (photo_embeddings_seq d).

Definition set_photo_group_members (d : db) (m : gmap Z group_member) (seq : Z) : db :=
  Db (photos d) (photos_seq d) (photo_groups d) (photo_groups_seq d)
     m seq (photo_embeddings d) (photo_embeddings_seq d).

(** [SELECT ... FROM photos WHERE filepath = ?] *)
Definition photos_with_path (fp : string) (d : db) : list (Z * photo) :=
  filter (λ kv, filepath kv.2 = fp) (map_to_list (photos d)).

(** [get_all_photo_paths] *)
Definition get_all_photo_paths (d : db) : list string :=
  (λ kv, filepath kv.2) <$> map_to_list (photos d).

(** [get_processed_photos] *)
Definition get_processed_photos (d : db) : list string :=
  (λ kv, filepath kv.2)
    <$> filter (λ kv, processed_date kv.2 ≠ None) (map_to_list (photos d)).

(** [get_ignored_photos] *)
Definition get_ignored_photos (d : db) : list string :=
  (λ kv, filepath kv.2)
    <$> filter (λ kv, ignored_date kv.2 ≠ None) (map_to_list (photos d)).

(** One [INSERT OR IGNORE INTO photos (filepath, base_name, file_type,
    default_date)]: the row is skipped when [filepath] is already
    present ([UNIQUE]) or when a [NOT NULL] column would receive
    [None]. *)
Definition insert_or_ignore_photo (now : Z)
    (row : string * option string * string * option string) (d : db) : db :=
  let '(fp, bn, ft, dd) := row in
  match bn with
  | None => d
  | Some bn =>
      if bool_decide (fp ∈ get_all_photo_paths d) then d
      else
        let id := next_rowid (photos_seq d) (photos d) in
        set_photos d (<[id := Photo fp bn ft dd None None now now]> (photos d)) id
  end.

(** [batch_add_photos]: [executemany] runs the statement once per row. *)
Definition batch_add_photos (now : Z)
    (rows : list (string * option string * string * option string)) (d : db) : db :=
  foldl (λ d row, insert_or_ignore_photo now row d) d rows.

(** [add_photo]: [INSERT OR REPLACE] deletes the row that holds the
    same [filepath] and inserts a new one, whose columns not named by
    the statement take their defaults.  Returns [cursor.lastrowid]. *)
Definition add_photo (now : Z) (fp bn ft : string) (dd : option string) (d : db)
  : db * Z :=
  let id := next_rowid (photos_seq d) (photos d) in
  let kept := filter (λ kv, filepath kv.2 ≠ fp) (photos d) in
  (set_photos d (<[id := Photo fp bn ft dd None None now now]> kept) id, id).

(** [mark_photo_ignored] *)
Definition mark_photo_ignored (now : Z) (fp : string) (d : db) : db :=
  set_photos d
    ((λ r, if bool_decide (filepath r = fp)
           then Photo (filepath r) (base_name r) (file_type r) (default_date r)
                      (processed_date r) (Some now) (created_at r) now
           else r) <$> photos d)
    (photos_seq d).

(** [mark_photo_processed]: the [UPDATE] raises when it would give the
    [UNIQUE] column [filepath] of a row a value another row holds. *)
Definition mark_photo_processed (now : Z) (old_filepath : string)
    (new_filepath : option string) (d : db) : outcome (db * bool) :=
  let targets := photos_with_path old_filepath d in
  let fp' := if Py.truthy new_filepath then default old_filepath new_filepath
             else old_filepath in
  let clash :=
    bool_decide (targets ≠ [] ∧ fp' ≠ old_filepath ∧
                 (photos_with_path fp' d ≠ [] ∨ 1 < length targets)) in
  if clash then Raise "UNIQUE constraint failed: photos.filepath"
  else
    Ok (set_photos d
          ((λ r, if bool_decide (filepath r = old_filepath)
                 then Photo fp' (base_name r) (file_type r) (default_date r)
                            (Some now) (ignored_date r) (created_at r) now
                 else r) <$> photos d)
          (photos_seq d),
        bool_decide (targets ≠ [])).

(** [cleanup_missing_photos]; [exists_on_disk] is [os.path.exists].
    Each [DELETE ... WHERE ... IN (?,...,?)] binds one parameter per
    missing id; SQLite accepts at most [max_variables] of them in a
    statement (its [SQLITE_MAX_VARIABLE_NUMBER]: 999 before release
    3.32, 32766 since) and otherwise refuses the first [DELETE], so
    that the call raises before anything is removed. *)
Definition cleanup_missing_photos (max_variables : nat)
    (exists_on_disk : string → bool) (d : db) : outcome (db * nat) :=
  let missing_photo_ids :=
    (filter (λ kv, exists_on_disk (filepath kv.2) = false)
            (map_to_list (photos d))).*1 in
  match missing_photo_ids with
  | [] => Ok (d, length missing_photo_ids)
  | _ =>
      if bool_decide (length missing_photo_ids ≤ max_variables) then
        Ok (Db (filter (λ kv, kv.1 ∉ missing_photo_ids) (photos d)) (photos_seq d)
               (photo_groups d) (photo_groups_seq d)
               (filter (λ kv, gm_photo_id kv.2 ∉ missing_photo_ids)
                       (photo_group_members d))
               (photo_group_members_seq d)
               (filter (λ kv, pe_photo_id kv.2 ∉ missing_photo_ids)
                       (photo_embeddings d))
               (photo_embeddings_seq d),
            length missing_photo_ids)
      else Raise "too many SQL variables"
  end.

(** [ORDER BY base_name, file_type] ([BINARY] collation). *)
Definition row_leb (r1 r2 : photo) : bool :=
  match String.compare (base_name r1) (base_name r2) with
  | Lt => true
  | Eq => String.leb (file_type r1) (file_type r2)
  | Gt => false
  end.
Definition row_le (r1 r2 : photo) : Prop := row_leb r1 r2.

#[local] Instance row_le_dec : RelDecision row_le.
Proof. intros r1 r2. unfold row_le. apply _. Defined.

(** [SELECT ... WHERE processed_date IS NULL AND ignored_date IS NULL
    ORDER BY base_name, file_type] *)
Definition select_unprocessed (d : db) : list photo :=
  merge_sort row_le
    (filter (λ r, processed_date r = None ∧ ignored_date r = None)
            (map_to_list (photos d)).*2).

(** The body of the grouping loop of [get_unprocessed_photos]. *)
Definition group_row (photo_pairs : gmap string pair) (row : photo)
  : gmap string pair :=
  let e := default empty_pair (photo_pairs !! base_name row) in
  let e' :=
    if bool_decide (file_type row = "front") then
      Pair (Some (filepath row)) (back e) (variants e)
           (if Py.truthy (default_date row) then default_date row
            else pair_default_date e)
    else if bool_decide (file_type row = "back") then
      Pair (front e) (Some (filepath row)) (variants e)
           (if negb (Py.truthy (pair_default_date e)) && Py.truthy (default_date row)
            then default_date row else pair_default_date e)
    else
      Pair (front e) (back e) (variants e ++ [filepath row]) (pair_default_date e) in
  <[base_name row := e']> photo_pairs.

(** An [sqlite3.OperationalError] raised by a statement. *)
Inductive operational_error : Type :=
  | DatabaseIsLocked
  | OtherOperationalError (msg : string).

Definition error_message (e : operational_error) : string :=
  match e with
  | DatabaseIsLocked => "database is locked"
  | OtherOperationalError msg => msg
  end.

(** [execute_with_retry] with its default [max_retries=3]: [fault
    attempt] is the error the attempt meets, if any.  A locked database
    is retried, except on the last attempt. *)
Definition execute_with_retry {A} (fault : nat → option operational_error)
    (operation_func : A) : outcome A :=
  let attempt_from :=
    fix go (attempts : list nat) : outcome A :=
      match attempts with
      | [] => Raise "unreachable"
      | attempt :: rest =>
          match fault attempt with
          | None => Ok operation_func
          | Some DatabaseIsLocked =>
              if bool_decide (attempt < 3 - 1) then go rest
              else Raise (error_message DatabaseIsLocked)
          | Some e => Raise (error_message e)
          end
      end in
  attempt_from (seq 0 3).

(** [get_unprocessed_photos] *)
Definition get_unprocessed_photos (fault : nat → option operational_error) (d : db)
  : outcome (gmap string pair) :=
  match execute_with_retry fault (select_unprocessed d) with
  | Ok results => Ok (foldl group_row ∅ results)
  | Raise msg => Raise msg
  end.

(** [create_photo_group]: returns the new group's id. *)
Definition create_photo_group (now : Z) (name description : option string)
    (similarity_score : option real) (d : db) : db * Z :=
  let id := next_rowid (photo_groups_seq d) (photo_groups d) in
  (set_photo_groups d
     (<[id := PhotoGroup name description similarity_score now now]> (photo_groups d))
     id, id).

(** [add_photo_to_group]: [False] when no photo has that path;
    otherwise [INSERT OR REPLACE] on the [UNIQUE (photo_id, group_id)]
    pair. *)
Definition add_photo_to_group (now : Z) (photo_filepath : string) (group_id : Z)
    (similarity_score : option real) (d : db) : db * bool :=
  match photos_with_path photo_filepath d with
  | [] => (d, false)
  | (photo_id, _) :: _ =>
      let id := next_rowid (photo_group_members_seq d) (photo_group_members d) in
      let kept :=
        filter (λ kv, ¬ (gm_photo_id kv.2 = photo_id ∧ gm_group_id kv.2 = group_id))
               (photo_group_members d) in
      (set_photo_group_members d
         (<[id := GroupMember photo_id group_id similarity_score now]> kept) id,
       true)
  end.

(** [get_photo_embeddings]: the join of photos and embeddings. *)
Definition get_photo_embeddings (embedding_type' : option string) (d : db)
  : list (string * string) :=
  '(photo_id, p) ← map_to_list (photos d);
  '(_, pe) ← map_to_list (photo_embeddings d);
  if bool_decide (pe_photo_id pe = photo_id) &&
     (negb (Py.truthy embedding_type')
      || bool_decide (Some (embedding_type pe) = embedding_type'))
  then [(filepath p, embedding_data pe)] else [].

(** Whether a photo id names a catalog row whose file is not on disk. *)
Definition is_missing (exists_on_disk : string → bool) (d : db) (photo_id : Z) : bool :=
  match photos d !! photo_id with
  | Some r => negb (exists_on_disk (filepath r))
  | None => false
  end.

End Catalog.

Arguments photo_group : clear implicits.
Arguments group_member : clear implicits.
Arguments db : clear implicits.

(** ** Similarity clusterer ([similarity_analyzer.py]) *)

Section Analyzer.

Context {real : Type}.

(** The numeric libraries are oracles: [pickle.loads] ([None] when it
    raises), the pipeline [StandardScaler] / [cosine_similarity] /
    [np.clip] / [DBSCAN.fit_predict] from the embeddings to the cluster
    labels, the score of a group, and the [:.3f] formatting. *)
Context {embedding eps_t : Type}.
Context (pickle_loads : string → option embedding).
Context (fit_predict : eps_t → Z → list embedding → outcome (list Z)).
Context (calculate_group_similarity : db real → list string → real).
Context (format_3f : real → string).

(** [clusters[label].append(filepath)] on an insertion-ordered dict. *)
Fixpoint cluster_append (label : Z) (fp : string)
    (clusters : list (Z * list string)) : list (Z * list string) :=
  match clusters with
  | [] => [(label, [fp])]
  | (l, g) :: rest =>
      if decide (l = label) then (l, g ++ [fp]) :: rest
      else (l, g) :: cluster_append label fp rest
  end.

(** The loop over [enumerate(cluster_labels)]; [filepaths[i]] raises
    [IndexError] out of range. *)
Fixpoint group_by_label (labels : list Z) (i : nat) (filepaths : list string)
    (clusters : list (Z * list string)) : outcome (list (Z * list string)) :=
  match labels with
  | [] => Ok clusters
  | label :: rest =>
      if decide (label ≠ (-1)%Z) then
        match filepaths !! i with
        | Some fp => group_by_label rest (S i) filepaths (cluster_append label fp clusters)
        | None => Raise "list index out of range"
        end
      else group_by_label rest (S i) filepaths clusters
  end.

(** [find_similar_groups] *)
Definition find_similar_groups (eps : eps_t) (min_samples : Z) (d : db real)
  : outcome (list (list string)) :=
  let embeddings_data := get_photo_embeddings (Some "combined") d in
  if bool_decide (length embeddings_data < 2) then Ok []
  else
    let loaded :=
      omap (λ '(fp, blob), e ← pickle_loads blob; Some (fp, e)) embeddings_data in
    let filepaths := loaded.*1 in
    let embeddings := loaded.*2 in
    if bool_decide (length embeddings < 2) then Ok []
    else
      match fit_predict eps min_samples embeddings with
      | Raise msg => Raise msg
      | Ok cluster_labels =>
          match group_by_label cluster_labels 0 filepaths [] with
          | Raise msg => Raise msg
          | Ok clusters =>
              let groups := clusters.*2 in
              Ok (filter (λ group, 1 < length group) groups)
          end
      end.

(** One iteration of the loop of [create_photo_groups_in_database]. *)
Definition store_group (now : Z) (d : db real) (i : nat) (group : list string)
  : db real :=
  let avg_similarity := calculate_group_similarity d group in
  let group_name := "Similar Photos Group " +:+ pretty (i + 1) in
  let group_description :=
    "Group of " +:+ pretty (length group) +:+ " similar photos (avg similarity: "
    +:+ format_3f avg_similarity +:+ ")" in
  let '(d1, group_id) :=
    create_photo_group now (Some group_name) (Some group_description)
                       (Some avg_similarity) d in
  foldl (λ d fp, (add_photo_to_group now fp group_id (Some avg_similarity) d).1)
        d1 group.

(** [create_photo_groups_in_database]: the loop over
    [enumerate(groups)]. *)
Fixpoint store_groups_from (now : Z) (i : nat) (groups : list (list string))
    (d : db real) : db real :=
  match groups with
  | [] => d
  | group :: rest => store_groups_from now (S i) rest (store_group now d i group)
  end.

Definition create_photo_groups_in_database (now : Z) (groups : list (list string))
    (d : db real) : db real :=
  store_groups_from now 0 groups d.

End Analyzer.

(** ** Photo manager ([app.py]): cache, scan, listing, ignore *)

(** The two entries of [PhotoManager._cache] that hold photo sets, each
    with the time it was stored.  The keys of the scan result are
    Python values ([extract_base_name] results). *)
Record cache := Cache {
  cached_scan_photos : option (Z * gmap (option string) pair);
  cached_unprocessed_pairs : option (Z * gmap string pair) }.

Definition empty_cache : cache := Cache None None.

(** [self._cache_timeout] *)
Definition cache_timeout : Z := 60.

(** [_get_cached] on one entry: the value, while it is fresh. *)
Definition get_cached {V} (entry : option (Z * V)) (time : Z) : option V :=
  match entry with
  | Some (cached_time, value) =>
      if bool_decide (time - cached_time < cache_timeout)%Z then Some value else None
  | None => None
  end.

(** [v['front'] or v['back']] *)
Definition has_front_or_back (v : pair) : bool :=
  Py.truthy (front v) || Py.truthy (back v).

(** The state of the loop of [scan_photos]. *)
Record scan_state := ScanState {
  photo_pairs : gmap (option string) pair;
  new_photos_to_add : list (string * option string * string * option string) }.

Section PhotoManager.

Context {real : Type}.

(** Configuration and the metadata reader: [IGNORE_FILE_PATTERNS] and
    [extract_original_date] (EXIF or file time, [None] when neither
    gives a date). *)
Context (IGNORE_FILE_PATTERNS : list string).
Context (extract_original_date : string → option string).

(** [should_ignore_file] *)
Definition should_ignore_file (filename : string) : bool :=
  let filename := Py.basename filename in
  existsb (λ pattern, Py.contains filename pattern) IGNORE_FILE_PATTERNS.

(** [file.lower().endswith(('.jpg', '.jpeg', '.png', '.tiff', '.bmp'))] *)
Definition has_image_extension (file : string) : bool :=
  existsb (Py.endswith (Py.lower file)) [".jpg"; ".jpeg"; ".png"; ".tiff"; ".bmp"].

(** The slot rule of [scan_photos] for one file. *)
Definition place_file (file filepath : string) (e : pair) : pair :=
  let demote (slot : option string) :=
    match slot with
    | Some old => if Py.truthy slot then variants e ++ [old] else variants e
    | None => variants e
    end in
  if Py.endswith file "_a.jpg" || Py.endswith file "_a.jpeg" then
    Pair (Some filepath) (back e) (demote (front e)) (pair_default_date e)
  else if Py.endswith file "_b.jpg" || Py.endswith file "_b.jpeg" then
    Pair (front e) (Some filepath) (demote (back e)) (pair_default_date e)
  else if negb (Py.truthy (front e)) then
    Pair (Some filepath) (back e) (variants e) (pair_default_date e)
  else if negb (Py.truthy (back e)) then
    Pair (front e) (Some filepath) (variants e) (pair_default_date e)
  else
    Pair (front e) (back e) (variants e ++ [filepath]) (pair_default_date e).

(** The body of the inner loop of [scan_photos]. *)
Definition scan_file (processed_photos ignored_photos existing_photos : list string)
    (root file : string) (st : scan_state) : scan_state :=
  if negb (has_image_extension file) then st
  else if should_ignore_file file then st
  else
    let filepath := Py.join root file in
    if bool_decide (filepath ∈ processed_photos)
       || bool_decide (filepath ∈ ignored_photos) then st
    else
      let base_name := extract_base_name file in
      let e := default empty_pair (photo_pairs st !! base_name) in
      let staged :=
        if bool_decide (filepath ∉ existing_photos)
        then new_photos_to_add st
             ++ [(filepath, base_name, determine_file_type file,
                  extract_original_date filepath)]
        else new_photos_to_add st in
      ScanState (<[base_name := place_file file filepath e]> (photo_pairs st)) staged.

(** The walk over [os.walk(UNPROCESSED_DIR)], given as the list of its
    [(root, files)] items. *)
Definition scan_walk (processed_photos ignored_photos existing_photos : list string)
    (walk : list (string * list string)) : scan_state :=
  foldl (λ st '(root, files),
           foldl (λ st file,
                    scan_file processed_photos ignored_photos existing_photos
                              root file st) st files)
        (ScanState ∅ []) walk.

(** [scan_photos].  Thumbnail generation for the staged paths writes
    only below [THUMBS_DIR] and swallows its errors; it is left out. *)
Definition scan_photos (c : cache) (time now : Z)
    (walk : list (string * list string)) (d : db real)
  : cache * db real * gmap (option string) pair :=
  match get_cached (cached_scan_photos c) time with
  | Some cached => (c, d, cached)
  | None =>
      let st := scan_walk (get_processed_photos d) (get_ignored_photos d)
                          (get_all_photo_paths d) walk in
      let d' :=
        match new_photos_to_add st with
        | [] => d
        | rows => batch_add_photos now rows d
        end in
      let result := filter (λ kv, has_front_or_back kv.2 = true) (photo_pairs st) in
      (Cache (Some (time, result)) (cached_unprocessed_pairs c), d', result)
  end.

(** [get_unprocessed_photo_pairs] *)
Definition get_unprocessed_photo_pairs (c : cache) (time : Z)
    (fault : nat → option operational_error) (d : db real)
  : outcome (cache * gmap string pair) :=
  match get_cached (cached_unprocessed_pairs c) time with
  | Some cached => Ok (c, cached)
  | None =>
      match get_unprocessed_photos fault d with
      | Raise msg => Raise msg
      | Ok photo_pairs =>
          let result := filter (λ kv, has_front_or_back kv.2 = true) photo_pairs in
          Ok (Cache (cached_scan_photos c) (Some (time, result)), result)
      end
  end.

(** [ignore_photo_set]: [add_photo], then [mark_photo_ignored], for
    every truthy path of the set. *)
Definition ignore_file (now : Z) (base_name : string) (d : db real)
    (filepath : option string) : db real :=
  match filepath with
  | Some fp =>
      if Py.truthy filepath then
        let default_date := extract_original_date fp in
        let d1 := (add_photo now fp base_name
                             (determine_file_type (Py.basename fp)) default_date d).1 in
        mark_photo_ignored now fp d1
      else d
  | None => d
  end.

Definition ignore_photo_set (now : Z) (base_name : string)
    (photo_pairs : gmap string pair) (d : db real) : db real * bool :=
  match photo_pairs !! base_name with
  | Some pair =>
      (foldl (ignore_file now base_name) d
             ([front pair; back pair] ++ (Some <$> variants pair)), true)
  | None => (d, false)
  end.

End PhotoManager.

(** ** Transactional corrector ([app.py])

    The file system is a finite map from the path of a regular file to
    its bytes and modification time.  The operations on it are as on a
    file system without faults ([copy2] and [move] fail exactly when
    their source is missing); the steps the corrector guards against
    get their failures from the environment below. *)

Record file := File {
  content : string;
  mtime : Z }.

(** The [strftime] outputs ['%Y'], ['%m'] and ['%Y-%m-%d'] of a parsed
    date. *)
Record date := Date {
  year : string;
  month : string;
  date_prefix : string }.

Record env := Env {
  PROCESSED_DIR : string;
  (** [hashlib.sha256(...).hexdigest()] *)
  sha256_hexdigest : string → string;
  (** [datetime.strptime(date, '%Y-%m-%d')] *)
  strptime : string → outcome date;
  (** [datetime.strptime(new_date, '%Y-%m-%d').timestamp()] *)
  parse_timestamp : string → outcome Z;
  (** the error [os.utime(filepath, ...)] raises, if any *)
  utime_error : string → option string;
  (** what [update_exif_date] (which swallows its errors) leaves of the
      file *)
  exif_rewrite : string → file → file;
  (** the error [Image.open(filepath).verify()] raises, if any *)
  image_verify_error : string → option string;
  (** [secrets.token_hex(3)] at each attempt *)
  token_hex : nat → string;
  (** [int(time.time() * 1000)] *)
  time_ms : Z;
  (** the error [os.makedirs] raises, if any *)
  makedirs_error : option string;
  (** an [sqlite3.OperationalError] met by [mark_photo_processed] *)
  commit_error : option operational_error }.

Section Corrector.

Context {real : Type}.
Context (e : env).

Definition backup_path (filepath : string) : string := filepath +:+ ".backup".

(** [calculate_file_hash]: [None] on [IOError]. *)
Definition calculate_file_hash (fs : gmap string file) (filepath : string)
  : option string :=
  f ← fs !! filepath; Some (sha256_hexdigest e (content f)).

(** [create_backup]: [shutil.copy2] keeps bytes and times. *)
Definition create_backup (fs : gmap string file) (filepath : string)
  : outcome (gmap string file * string) :=
  match fs !! filepath with
  | Some f => Ok (<[backup_path filepath := f]> fs, backup_path filepath)
  | None => Raise "No such file or directory"
  end.

(** [verify_file_integrity] *)
Definition verify_file_integrity (fs : gmap string file) (filepath original_hash : string)
  : bool :=
  bool_decide (calculate_file_hash fs filepath = Some original_hash).

(** [restore_from_backup] *)
Definition restore_from_backup (fs : gmap string file) (filepath : string)
  : gmap string file * bool :=
  match fs !! backup_path filepath with
  | Some f => (delete (backup_path filepath) (<[filepath := f]> fs), true)
  | None => (fs, false)
  end.

(** The name under which a file is filed: the date prefix is kept,
    replaced or added. *)
Definition base_filename (date_prefix original_filename : string) : string :=
  let l := Py.chars original_filename in
  if Py.startswith original_filename (date_prefix +:+ "_") then original_filename
  else if bool_decide (10 < length l) && bool_decide (l !! 10 = Some "_"%char)
          && bool_decide (length (filter (λ c, c = "-"%char) (take 10 l)) = 2)
  then date_prefix +:+ "_" +:+ Py.str (drop 11 l)
  else date_prefix +:+ "_" +:+ original_filename.

(** The loop [for attempt in range(100)]: the first random name that
    does not exist, if one of the attempts finds one. *)
Fixpoint random_name (fs : gmap string file) (processed_dir stem ext : string)
    (attempts : list nat) : option string :=
  match attempts with
  | [] => None
  | attempt :: rest =>
      let new_filepath :=
        Py.join processed_dir (stem +:+ "_" +:+ token_hex e attempt +:+ ext) in
      match fs !! new_filepath with
      | None => Some new_filepath
      | Some _ => random_name fs processed_dir stem ext rest
      end
  end.

(** The destination [move_photo_to_processed] settles on. *)
Definition destination (fs : gmap string file) (d : date) (filepath : string) : string :=
  let processed_dir := Py.join (Py.join (PROCESSED_DIR e) (year d)) (month d) in
  let base := base_filename (date_prefix d) (Py.basename filepath) in
  let new_filepath := Py.join processed_dir base in
  match fs !! new_filepath with
  | None => new_filepath
  | Some _ =>
      let '(filename_without_ext, file_ext) := Py.splitext base in
      match random_name fs processed_dir filename_without_ext file_ext (seq 0 100) with
      | Some unique => unique
      | None =>
          Py.join processed_dir
            (filename_without_ext +:+ "_" +:+ pretty (time_ms e) +:+ file_ext)
      end
  end.

(** [move_photo_to_processed]: every error is swallowed and answered
    with the original path.  [shutil.move] replaces a file that is
    already at the destination. *)
Definition move_photo_to_processed (fs : gmap string file) (filepath date : string)
  : gmap string file * string :=
  match strptime e date with
  | Raise _ => (fs, filepath)
  | Ok d =>
      match makedirs_error e with
      | Some _ => (fs, filepath)
      | None =>
          let new_filepath := destination fs d filepath in
          match fs !! filepath with
          | Some f => (<[new_filepath := f]> (delete filepath fs), new_filepath)
          | None => (fs, filepath)
          end
      end
  end.

(** [update_photo_date]; the catalog is threaded along with the file
    system. *)
Definition update_photo_date (now : Z) (fs : gmap string file) (d : db real)
    (filepath new_date : string)
  : gmap string file * db real * (bool * string) :=
  match calculate_file_hash fs filepath with
  | None => (fs, d, (false, "Could not calculate file hash"))
  | Some original_hash =>
      if negb (Py.truthy (Some original_hash))
      then (fs, d, (false, "Could not calculate file hash"))
      else
        match create_backup fs filepath with
        | Raise msg => (fs, d, (false, "Error processing photo: " +:+ msg))
        | Ok (fs1, backup) =>
            let failed fs' d' msg :=
              ((restore_from_backup fs' filepath).1, d',
               (false, "Error updating photo: " +:+ msg)) in
            match parse_timestamp e new_date with
            | Raise msg => failed fs1 d msg
            | Ok timestamp =>
                match utime_error e filepath with
                | Some msg => failed fs1 d msg
                | None =>
                    let fs2 := alter (λ f, File (content f) timestamp) filepath fs1 in
                    let fs3 := alter (exif_rewrite e new_date) filepath fs2 in
                    let verified :=
                      if verify_file_integrity fs3 filepath original_hash then None
                      else match fs3 !! filepath with
                           | Some f => image_verify_error e (content f)
                           | None => Some "No such file or directory"
                           end in
                    match verified with
                    | Some msg => failed fs3 d msg
                    | None =>
                        let '(fs4, new_filepath) :=
                          move_photo_to_processed fs3 filepath new_date in
                        let committed :=
                          match commit_error e with
                          | Some err => Raise (error_message err)
                          | None => mark_photo_processed now filepath
                                                         (Some new_filepath) d
                          end in
                        match committed with
                        | Raise msg => failed fs4 d msg
                        | Ok (d', _) =>
                            (delete backup fs4, d',
                             (true, "Photo date updated successfully"))
                        end
                    end
                end
            end
        end
  end.

End Corrector.

(** ** The pairing rules in the words of the specification

    These definitions follow the specification text, not the code; the
    properties below compare them with the functions above. *)

Module Spec.



Definition drop_last (n : nat) (s : string) : string :=
  let l := Py.chars s in Py.str (take (length l - n) l).

(** The expected image extensions, in any letter case. *)
Definition strip_extension (filename : string) : option string :=
  let f := Py.lower filename in
  if Py.endswith f ".jpeg" then Some (drop_last 5 filename)
  else if Py.endswith f ".jpg" then Some (drop_last 4 filename)
  else None.

(** "strips a leading [YYYY-MM-DD_] prefix if present" *)
Definition strip_date (s : string) : string :=
  let l := Py.chars s in
  if Re.is_date_prefix (take 11 l) then Py.str (drop 11 l) else s.

(** "strips a trailing [_a]/[_b] suffix (case-insensitive) if present" *)
Definition strip_ab (s : string) : string :=
  let f := Py.lower s in
  if Py.endswith f "_a" || Py.endswith f "_b" then drop_last 2 s else s.

(** "strips the extension; the remaining text is the base identifier.
    If the filename does not match the expected image extensions
    pattern, fall back to the extension-stripped filename". *)
Definition base_name (filename : string) : string :=
  match strip_extension filename with
  | Some stem => strip_ab (strip_date stem)
  | None => fst (Py.splitext filename)
  end.

End Spec.

(** ** A small catalog for the concrete examples *)

Module Sample.

Definition unprocessed (fp bn ft : string) : photo :=
  Photo fp bn ft None None None 0 0.

(** Two scanned originals, grouped by an earlier clustering run. *)
Definition catalog : db Z :=
  Db {[ 1%Z := unprocessed "/u/x.jpg" "x" "variant";
        2%Z := unprocessed "/u/y.jpg" "y" "variant" ]} 2
     {[ 1%Z := PhotoGroup (Some "Similar Photos Group 1") None (Some 900%Z) 0 0 ]} 1
     {[ 1%Z := GroupMember 1 1 (Some 900%Z) 0;
        2%Z := GroupMember 2 1 (Some 900%Z) 0 ]} 2
     {[ 1%Z := PhotoEmbedding 1 "combined" "e1" 0;
        2%Z := PhotoEmbedding 2 "combined" "e2" 0 ]} 2.

(** A catalog whose only photo was processed earlier and still has an
    embedding and a group membership. *)
Definition processed_catalog : db Z :=
  Db {[ 4%Z := Photo "/u/x_a.jpg" "x" "front" (Some "2001-01-01") (Some 7%Z) None 0 7 ]} 4
     {[ 1%Z := PhotoGroup (Some "Similar Photos Group 1") None (Some 900%Z) 0 0 ]} 1
     {[ 1%Z := GroupMember 4 1 (Some 900%Z) 0 ]} 1
     {[ 1%Z := PhotoEmbedding 4 "combined" "e4" 0 ]} 1.

Definition x_pairs : gmap string pair :=
  {[ "x" := Pair (Some "/u/x_a.jpg") None [] (Some "2001-01-01") ]}.

(** A front scan of set [p] and a lone scanner original of set [q]. *)
Definition mixed_catalog : db Z :=
  Db {[ 1%Z := unprocessed "/u/p_a.jpg" "p" "front";
        2%Z := unprocessed "/u/q.jpg" "q" "variant" ]} 2 ∅ 0 ∅ 0 ∅ 0.

Definition p_listing : gmap string pair :=
  {[ "p" := Pair (Some "/u/p_a.jpg") None [] None ]}.

(** An environment in which the date ["2024-01-05"] parses, the EXIF
    rewrite changes the bytes, the image check rejects what it is shown
    and every random draw is ["000000"]. *)
Definition parse_date (s : string) : outcome date :=
  if String.eqb s "2024-01-05" then Ok (Date "2024" "01" "2024-01-05")
  else Raise ("time data '" +:+ s +:+ "' does not match format '%Y-%m-%d'").

Definition world : env :=
  Env "/p" (λ bytes, "sha256:" +:+ bytes) parse_date
      (λ s, match parse_date s with
            | Ok _ => Ok 1704412800%Z
            | Raise msg => Raise msg
            end)
      (λ _, None)
      (λ new_date f, File ("exif " +:+ new_date +:+ ";" +:+ content f) (mtime f))
      (λ _, Some "cannot identify image file")
      (λ _, "000000") 1700000000000%Z None None.

(** The same with an image check that accepts. *)
Definition lenient_world : env :=
  Env "/p" (sha256_hexdigest world) (strptime world) (parse_timestamp world)
      (utime_error world) (exif_rewrite world) (λ _, None)
      (token_hex world) (time_ms world) None None.

(** A disk on which the plain destination of ["/u/x_a.jpg"], its random
    alternative and its time-stamped alternative are all taken. *)
Definition disk : gmap string file :=
  {[ "/u/x_a.jpg" := File "scan of the front" 0;
     "/p/2024/01/2024-01-05_x_a.jpg" := File "first" 1;
     "/p/2024/01/2024-01-05_x_a_000000.jpg" := File "second" 2;
     "/p/2024/01/2024-01-05_x_a_1700000000000.jpg" := File "third" 3 ]}.


(** A front scan and the scanner original of set [p]; and the same
    catalog once the front scan has been processed at time 120. *)
Definition front_and_original : db Z :=
  Db {[ 1%Z := unprocessed "/u/p_a.jpg" "p" "front";
        2%Z := unprocessed "/u/p.jpg" "p" "variant" ]} 2 ∅ 0 ∅ 0 ∅ 0.

Definition front_processed : db Z :=
  Db {[ 1%Z := Photo "/p/2024/01/2024-01-05_p_a.jpg" "p" "front" None
                     (Some 120%Z) None 0 120;
        2%Z := unprocessed "/u/p.jpg" "p" "variant" ]} 2 ∅ 0 ∅ 0 ∅ 0.

Definition p_with_original : gmap string pair :=
  {[ "p" := Pair (Some "/u/p_a.jpg") None ["/u/p.jpg"] None ]}.

End Sample.

(** ** Predicates of the statements *)

(** A name without a line break. *)
Definition no_newline (l : list ascii) : Prop := Forall (λ c, c ≠ Re.newline) l.

(** The image extensions, as character lists in any letter case. *)
Definition is_ext (e : list ascii) : Prop :=
  Py.lower_char <$> e = Py.chars ".jpg" ∨ Py.lower_char <$> e = Py.chars ".jpeg".

(** The front/back marker of the pattern, [_[ab]] in any letter case. *)
Definition is_ab (c : ascii) : Prop :=
  Py.lower_char c = "a"%char ∨ Py.lower_char c = "b"%char.

Section Predicates.

Context {real : Type}.
Context (IGNORE_FILE_PATTERNS : list string).
Context (extract_original_date : string → option string).
Implicit Types d : db real.

(** The row [add_photo] and [mark_photo_ignored] leave for a path. *)
Definition ignored_row (now : Z) (base_name fp : string) : photo :=
  Photo fp base_name (determine_file_type (Py.basename fp))
        (extract_original_date fp) None (Some now) now now.

(** What the loop of [ignore_photo_set] maintains, after the truthy
    paths [S] have been handled. *)
Definition ignore_inv (now : Z) (base_name : string) d (S : list string) d' : Prop :=
  photo_group_members d' = photo_group_members d ∧
  photo_embeddings d' = photo_embeddings d ∧
  (∀ id r, photos d' !! id = Some r →
     if bool_decide (filepath r ∈ S)
     then r = ignored_row now base_name (filepath r) ∧ photos d !! id = None ∧
          ∀ id0, is_Some (photos d !! id0) → (id0 < id)%Z
     else photos d !! id = Some r) ∧
  (∀ id0, is_Some (photos d !! id0) →
          (id0 < next_rowid (photos_seq d') (photos d'))%Z) ∧
  (∀ fp, fp ∈ S → ∃ id r, photos d' !! id = Some r ∧ filepath r = fp).

(** Where the named slots of a listing entry come from: a row of the
    given role, with the entry's base name and the slot's path. *)
Definition slot_from (rows : list photo) (bn role : string) (slot : option string)
  : Prop :=
  ∀ fp, slot = Some fp →
    ∃ r, r ∈ rows ∧ base_name r = bn ∧ file_type r = role ∧ filepath r = fp.

Definition slots_from (rows : list photo) (acc : gmap string pair) : Prop :=
  ∀ bn v, acc !! bn = Some v →
    slot_from rows bn "front" (front v) ∧ slot_from rows bn "back" (back v).

(** When the scan stages a row for a file of the walk. *)
Definition stages (P I E : list string) (root file : string) row : Prop :=
  has_image_extension file = true ∧
  should_ignore_file IGNORE_FILE_PATTERNS file = false ∧
  (Py.join root file ∉ P) ∧ (Py.join root file ∉ I) ∧ (Py.join root file ∉ E) ∧
  row = (Py.join root file, extract_base_name file, determine_file_type file,
         extract_original_date (Py.join root file)).

End Predicates.

Section CatalogPredicates.
Context {real : Type}.
Implicit Types d : db real.

(** The [UNIQUE] constraint on [photos.filepath]. *)
Definition unique_paths d : Prop := NoDup (get_all_photo_paths d).

End CatalogPredicates.

(** The paths a photo set holds: the truthy named slots and the
    variants. *)
Definition slot_paths (slot : option string) : list string :=
  if Py.truthy slot then option_list slot else [].

Definition pair_paths (v : pair) : list string :=
  slot_paths (front v) ++ slot_paths (back v) ++ variants v.

(** ** Embeddings and the reset script ([database.py],
    [reset_similarity_analysis.py]) *)

Section Embeddings.

Context {real : Type}.
Implicit Types d : db real.

(** [store_photo_embedding]: [False] when no photo has that path;
    otherwise [INSERT OR REPLACE] on the [UNIQUE (photo_id,
    embedding_type)] pair. *)
Definition store_photo_embedding (now : Z)
    (photo_filepath embedding_type' embedding_data' : string) d : db real * bool :=
  match photos_with_path photo_filepath d with
  | [] => (d, false)
  | (photo_id, _) :: _ =>
      let id := next_rowid (photo_embeddings_seq d) (photo_embeddings d) in
      let kept :=
        filter (λ kv, ¬ (pe_photo_id kv.2 = photo_id
                         ∧ embedding_type kv.2 = embedding_type'))
               (photo_embeddings d) in
      (Db (photos d) (photos_seq d) (photo_groups d) (photo_groups_seq d)
          (photo_group_members d) (photo_group_members_seq d)
          (<[id := PhotoEmbedding photo_id embedding_type' embedding_data' now]> kept)
          id,
       true)
  end.

(** [reset_similarity_analysis]: the three [DELETE] statements.  The
    [AUTOINCREMENT] counters keep the largest rowid handed out. *)
Definition reset_similarity_analysis d : db real :=
  Db (photos d) (photos_seq d)
     ∅ (Z.max (photo_groups_seq d) (max_rowid (photo_groups d)))
     ∅ (Z.max (photo_group_members_seq d) (max_rowid (photo_group_members d)))
     (filter (λ kv, embedding_type kv.2 ≠ "combined") (photo_embeddings d))
     (Z.max (photo_embeddings_seq d) (max_rowid (photo_embeddings d))).

(** Every member row names a group of the group table. *)
Definition members_in_groups d : Prop :=
  ∀ k m, photo_group_members d !! k = Some m →
         is_Some (photo_groups d !! gm_group_id m).

End Embeddings.

(** ** Routes ([app.py]) *)

(** [l[start:stop]] on a list: a negative index counts from the end,
    and both ends are clamped to the list. *)
Definition slice {A} (l : list A) (start stop : Z) : list A :=
  let n := Z.of_nat (length l) in
  let clamp (i : Z) := if (i <? 0)%Z then Z.max 0 (i + n) else Z.min i n in
  take (Z.to_nat (clamp stop - clamp start)) (drop (Z.to_nat (clamp start)) l).

(** The pagination of [index]: the number of pages and the items of
    one page.  [//] is floor division, as [Z.div]. *)
Definition total_pages (total_items per_page : Z) : Z :=
  ((total_items + per_page - 1) `div` per_page)%Z.

Definition page_items {A} (all_items : list A) (page per_page : Z) : list A :=
  let start_idx := ((page - 1) * per_page)%Z in
  let end_idx := (start_idx + per_page)%Z in
  slice all_items start_idx end_idx.

(** The JSON answer of [update_date]. *)
Record file_result := FileResult {
  result_file : string;
  result_success : bool;
  result_message : string }.

Record update_response := UpdateResponse {
  response_success : bool;
  response_message : string;
  response_results : list file_result }.

Section UpdateDate.

Context {real : Type} (e : env).

(** One turn of the loop of [update_date] over the paths of the set. *)
Definition update_file (now : Z) (new_date : string)
    (st : gmap string file * db real * list file_result) (filepath : option string)
  : gmap string file * db real * list file_result :=
  let '(fs, d, results) := st in
  match filepath with
  | Some fp =>
      if Py.truthy filepath && bool_decide (is_Some (fs !! fp)) then
        let '(fs', d', (success, message)) := update_photo_date e now fs d fp new_date in
        (fs', d', results ++ [FileResult (Py.basename fp) success message])
      else st
  | None => st
  end.

(** [update_date] for a request whose [base_name] and [date] are JSON
    strings or absent; an error of the listing query is not caught. *)
Definition update_date (c : cache) (time now : Z)
    (fault : nat → option operational_error) (fs : gmap string file) (d : db real)
    (base_name new_date : option string)
  : outcome (cache * gmap string file * db real * update_response) :=
  match base_name, new_date with
  | Some bn, Some date =>
      if negb (Py.truthy base_name) || negb (Py.truthy new_date)
      then Ok (c, fs, d, UpdateResponse false "Missing base_name or date" [])
      else
        match strptime e date with
        | Raise _ =>
            Ok (c, fs, d, UpdateResponse false "Invalid date format. Use YYYY-MM-DD" [])
        | Ok _ =>
            match get_unprocessed_photo_pairs c time fault d with
            | Raise msg => Raise msg
            | Ok (c', photo_pairs) =>
                match photo_pairs !! bn with
                | None => Ok (c', fs, d, UpdateResponse false "Photo pair not found" [])
                | Some pair =>
                    let '(fs', d', results) :=
                      foldl (update_file now date) (fs, d, [])
                            ([front pair; back pair] ++ (Some <$> variants pair)) in
                    let all_success := forallb result_success results in
                    Ok (c', fs', d',
                        UpdateResponse all_success
                          (if all_success then "All photos updated successfully"
                           else "Some photos failed to update")
                          results)
                end
            end
        end
  | _, _ => Ok (c, fs, d, UpdateResponse false "Missing base_name or date" [])
  end.

End UpdateDate.

(** *** The [photo_filename] template filter *)

Definition backslash : ascii := "092"%char.

(** [s.replace(a, b)] for single characters. *)
Definition replace_char (a b : ascii) (s : string) : string :=
  Py.str ((λ c, if decide (c = a) then b else c) <$> Py.chars s).

(** The loop [for prefix in prefixes: if s.startswith(prefix): return
    s[len(prefix):]]; [None] when it falls through. *)
Fixpoint strip_first_prefix (prefixes : list string) (s : string) : option string :=
  match prefixes with
  | [] => None
  | prefix :: rest =>
      if Py.startswith s prefix
      then Some (Py.str (drop (length (Py.chars prefix)) (Py.chars s)))
      else strip_first_prefix rest s
  end.

Definition normalized_prefixes : list string :=
  ["./data/photos/unprocessed/"; "./photos/unprocessed/"; "./photos/";
   "data/photos/unprocessed/"; "photos/unprocessed/"; "photos/"].

(** The prefixes with a backslash as their last separator. *)
Definition original_prefixes : list string :=
  let sep := String backslash "" in
  ["./data/photos/unprocessed" +:+ sep; "./photos/unprocessed" +:+ sep;
   "./photos" +:+ sep;
   "data/photos/unprocessed" +:+ sep; "photos/unprocessed" +:+ sep; "photos" +:+ sep].

(** [photo_filename_filter] *)
Definition photo_filename_filter (filepath : option string) : string :=
  match filepath with
  | None => ""
  | Some fp =>
      if negb (Py.truthy filepath) then ""
      else
        match strip_first_prefix original_prefixes fp with
        | Some rest => rest
        | None =>
            let normalized_path := replace_char backslash "/" fp in
            match strip_first_prefix normalized_prefixes normalized_path with
            | Some rest => rest
            | None => Py.basename normalized_path
            end
        end
  end.

(** ** Computing the embeddings ([similarity_analyzer.py]) *)

Section ComputeEmbeddings.

Context {real : Type}.
Implicit Types d : db real.

(** [os.path.exists], and [extract_features] followed by
    [pickle.dumps] ([None] when no features come out). *)
Context (exists_on_disk : string → bool).
Context (extract_features : string → option string).

(** The [SELECT] of [compute_embeddings_for_all_photos]: the scanner
    originals that are neither processed nor ignored and have no
    [combined] embedding. *)
Definition photos_to_process d : list (Z * string) :=
  (λ kv : Z * photo, (kv.1, filepath kv.2)) <$>
  filter (λ kv : Z * photo,
            Forall (λ pe, ¬ (pe_photo_id pe = kv.1 ∧ embedding_type pe = "combined"))
                   (map_to_list (photo_embeddings d)).*2
            ∧ processed_date kv.2 = None ∧ ignored_date kv.2 = None
            ∧ file_type kv.2 = "variant")
         (map_to_list (photos d)).

(** [INSERT OR REPLACE INTO photo_embeddings (photo_id, embedding_type,
    embedding_data)] *)
Definition insert_embedding (now : Z) (photo_id : Z)
    (embedding_type' embedding_data' : string) d : db real :=
  let id := next_rowid (photo_embeddings_seq d) (photo_embeddings d) in
  let kept :=
    filter (λ kv, ¬ (pe_photo_id kv.2 = photo_id
                     ∧ embedding_type kv.2 = embedding_type'))
           (photo_embeddings d) in
  Db (photos d) (photos_seq d) (photo_groups d) (photo_groups_seq d)
     (photo_group_members d) (photo_group_members_seq d)
     (<[id := PhotoEmbedding photo_id embedding_type' embedding_data' now]> kept) id.

(** The body of the loop over the selected photos. *)
Definition compute_embedding (now : Z) d (photo : Z * string) : db real :=
  let '(photo_id, filepath) := photo in
  if negb (exists_on_disk filepath) then d
  else match extract_features filepath with
       | Some embedding_data' => insert_embedding now photo_id "combined" embedding_data' d
       | None => d
       end.

(** [compute_embeddings_for_all_photos] *)
Definition compute_embeddings_for_all_photos (now : Z) d : db real :=
  foldl (compute_embedding now) d (photos_to_process d).

End ComputeEmbeddings.

(** * Properties *)

Example ex_base1 : extract_base_name "2024-01-05_vacation_a.jpg" = Some "vacation".
Proof. vm_compute. reflexivity. Qed.
Example ex_base2 : extract_base_name "vacation.jpg" = Some "vacation".
Proof. vm_compute. reflexivity. Qed.
Example ex_base3 : extract_base_name "_a.jpg" = Some "_a".
Proof. vm_compute. reflexivity. Qed.
Example ex_base4 : extract_base_name "2024-01-05_.jpg" = Some "2024-01-05_".
Proof. vm_compute. reflexivity. Qed.
Example ex_base5 : extract_base_name "notes.txt" = Some "notes".
Proof. vm_compute. reflexivity. Qed.
Example ex_base6 : extract_base_name ".jpg" = Some ".jpg".
Proof. vm_compute. reflexivity. Qed.
Example ex_type1 : determine_file_type "x_A.JPG" = "variant".
Proof. vm_compute. reflexivity. Qed.
Example ex_type2 : determine_file_type "x_a.jpg" = "front".
Proof. vm_compute. reflexivity. Qed.

(** ** Strings and character lists *)

Lemma chars_app (a b : string) : Py.chars (a +:+ b) = Py.chars a ++ Py.chars b.
Proof. induction a as [|c a IH]; simpl; [done|]. unfold Py.chars in *. simpl. by rewrite IH. Qed.

Lemma str_chars (s : string) : Py.str (Py.chars s) = s.
Proof. apply string_of_list_ascii_of_string. Qed.

Lemma chars_str (l : list ascii) : Py.chars (Py.str l) = l.
Proof. apply list_ascii_of_string_of_list_ascii. Qed.

Lemma chars_inj (a b : string) : Py.chars a = Py.chars b → a = b.
Proof. intros H. by rewrite <- (str_chars a), <- (str_chars b), H. Qed.

Lemma str_app (k l : list ascii) : Py.str (k ++ l) = Py.str k +:+ Py.str l.
Proof. apply chars_inj. by rewrite chars_app, !chars_str. Qed.




(** ** Role determination *)



(** ** The regular expressions of [extract_base_name] *)

Lemma lower_char_dot (c : ascii) : Py.lower_char c = "."%char ↔ c = "."%char.
Proof. destruct c as [[] [] [] [] [] [] [] []]; vm_compute; split; congruence. Qed.

Lemma lower_char_underscore (c : ascii) : Py.lower_char c = "_"%char ↔ c = "_"%char.
Proof. destruct c as [[] [] [] [] [] [] [] []]; vm_compute; split; congruence. Qed.

Lemma ext_tail_is_ext (l : list ascii) :
  no_newline l → Re.ext_tail l = true ↔ is_ext l.
Proof.
  unfold no_newline, is_ext. intros Hnl.
  destruct l as [|d [|j [|p [|e [|g [|x r]]]]]]; simpl;
    try (split; [discriminate | intros [?|?]; discriminate]).
  all: repeat match goal with H : Forall _ (_ :: _) |- _ => inversion_clear H end.
  all: unfold Re.ieq; rewrite ?andb_true_iff, ?orb_true_iff, ?andb_true_iff,
         ?bool_decide_eq_true, <- ?(lower_char_dot d).
  all: try (destruct r; rewrite ?bool_decide_eq_true).
  all: split;
    [ intros Hx; destruct_and?; destruct_or?; destruct_and?; simplify_eq/=;
      try done; repeat match goal with H : Py.lower_char _ = _ |- _ => rewrite H end;
      auto
    | intros [Hx|Hx]; simplify_eq/=; try done; split_and!; auto ].
Qed.

Lemma is_ext_no_newline (e : list ascii) : is_ext e → no_newline e.
Proof.
  unfold no_newline. intros He. apply Forall_forall. intros c Hc ->.
  assert (Re.newline ∈ Py.lower_char <$> e) as Hin.
  { apply list_elem_of_fmap. by exists Re.newline. }
  destruct He as [He|He]; rewrite He in Hin; vm_compute in Hin;
    repeat (apply elem_of_cons in Hin as [Hin|Hin]; [discriminate|]);
    by apply elem_of_nil in Hin.
Qed.

Lemma ext_tail_of_ext (e : list ascii) : is_ext e → Re.ext_tail e = true.
Proof. intros He. apply ext_tail_is_ext; [by apply is_ext_no_newline | done]. Qed.

(** An extension starts with the dot, which no letter of the pattern is. *)
Lemma is_ext_shape (e : list ascii) :
  is_ext e → ∃ e', e = "."%char :: e' ∧ (length e' = 3 ∨ length e' = 4).
Proof.
  intros [He|He]; destruct e as [|d e']; try discriminate;
    injection He as Hd He; apply lower_char_dot in Hd as ->;
    exists e'; (split; [done|]); apply (f_equal length) in He;
    rewrite length_fmap in He; simpl in He; auto.
Qed.

(** No extension is a proper suffix of another one. *)
Lemma is_ext_suffix_unique (k e : list ascii) : is_ext e → is_ext (k ++ e) → k = [].
Proof.
  intros He Hke. destruct k as [|x k]; [done|]. exfalso.
  destruct (is_ext_shape _ He) as (e' & -> & Hlen).
  destruct (is_ext_shape _ Hke) as (e'' & Heq & Hlen').
  injection Heq as -> <-. rewrite length_app in Hlen'. simpl in Hlen'.
  destruct k as [|y k]; [|simpl in Hlen'; lia].
  destruct He as [He|He]; destruct Hke as [Hke|Hke]; simpl in *;
    simplify_eq/=.
Qed.

Lemma tail_groups_inv (t : list ascii) (g : option string) :
  no_newline t → Re.tail_groups t = Some g →
  (is_ext t ∧ g = None) ∨
  (∃ c e, t = "_"%char :: c :: e ∧ is_ab c ∧ is_ext e
          ∧ g = Some (Py.str ["_"%char; c])).
Proof.
  intros Hnl. unfold Re.tail_groups.
  assert (∀ g', (if Re.ext_tail t then Some None else None) = Some g' →
                is_ext t ∧ g' = @None string) as Hplain.
  { intros g'. destruct (Re.ext_tail t) eqn:E; [|done].
    intros [= <-]. split; [|done]. by apply ext_tail_is_ext. }
  destruct t as [|u [|c r]]; [by left; apply Hplain..|].
  destruct (bool_decide (u = "_"%char) && (Re.ieq c "a" || Re.ieq c "b")
            && Re.ext_tail r) eqn:E; [|by left; apply Hplain].
  intros [= <-]. right.
  apply andb_true_iff in E as [E Er]. apply andb_true_iff in E as [Eu Ec].
  apply bool_decide_eq_true in Eu as ->.
  exists c, r. split_and!; try done.
  - unfold is_ab. apply orb_true_iff in Ec. unfold Re.ieq in Ec.
    by rewrite !bool_decide_eq_true in Ec.
  - apply ext_tail_is_ext; [|done]. unfold no_newline in *.
    by repeat (apply Forall_cons in Hnl as [_ Hnl]).
Qed.

Lemma tail_groups_ext (e : list ascii) : is_ext e → Re.tail_groups e = Some None.
Proof.
  intros He. destruct (is_ext_shape _ He) as (e' & -> & Hlen).
  unfold Re.tail_groups. destruct e' as [|c r]; [simpl in Hlen; lia|].
  replace (bool_decide ("."%char = "_"%char)) with false by done.
  simpl andb. cbv iota. by rewrite (ext_tail_of_ext _ He).
Qed.

Lemma tail_groups_ab (c : ascii) (e : list ascii) :
  is_ab c → is_ext e →
  Re.tail_groups ("_"%char :: c :: e) = Some (Some (Py.str ["_"%char; c])).
Proof.
  intros Hc He. unfold Re.tail_groups.
  rewrite (ext_tail_of_ext _ He), bool_decide_true by done.
  assert (Re.ieq c "a" || Re.ieq c "b" = true) as ->; [|done].
  unfold Re.ieq. apply orb_true_iff. rewrite !bool_decide_eq_true. exact Hc.
Qed.

(** The lazy group stops at the first split whose tail matches. *)
Lemma lazy_plus_first (b t acc : list ascii) (g : option string) :
  no_newline b → b ≠ [] → Re.tail_groups t = Some g →
  (∀ b1 b2, b = b1 ++ b2 → b1 ≠ [] → b2 ≠ [] → Re.tail_groups (b2 ++ t) = None) →
  Re.lazy_plus acc (b ++ t) = Some (Py.str (acc ++ b), g).
Proof.
  revert acc. induction b as [|c b IH]; intros acc Hnl Hne Ht Hmin; [done|].
  apply Forall_cons in Hnl as [Hc Hnl]. simpl.
  rewrite bool_decide_false by done.
  destruct b as [|c' b].
  - simpl. by rewrite Ht.
  - rewrite (Hmin [c] (c' :: b)) by done.
    rewrite IH; try done.
    + by rewrite <- app_assoc.
    + intros b1 b2 Hb ??. apply (Hmin (c :: b1) b2); try done. by rewrite Hb.
Qed.

(** A match of the lazy group leaves a matching tail behind it. *)
Lemma lazy_plus_Some_inv (l acc : list ascii) r :
  Re.lazy_plus acc l = Some r →
  ∃ b t, l = b ++ t ∧ b ≠ [] ∧ is_Some (Re.tail_groups t).
Proof.
  revert acc. induction l as [|c l IH]; intros acc; [done|]. simpl.
  case_bool_decide; [done|].
  destruct (Re.tail_groups l) as [g|] eqn:E.
  - intros _. exists [c], l. by rewrite E.
  - intros (b & t & -> & ? & ?)%IH. exists (c :: b), t. done.
Qed.

(** ** The wording of the specification, on character lists *)

Lemma chars_lower (s : string) : Py.chars (Py.lower s) = Py.lower_char <$> Py.chars s.
Proof. apply chars_str. Qed.

Lemma endswith_lower_split (s suf : string) :
  Py.endswith (Py.lower s) suf = true →
  ∃ k e, Py.chars s = k ++ e ∧ Py.lower_char <$> e = Py.chars suf
         ∧ Spec.drop_last (length (Py.chars suf)) s = Py.str k.
Proof.
  unfold Py.endswith, Spec.drop_last. rewrite bool_decide_eq_true, chars_lower.
  intros [k' Hk']. set (l := Py.chars s) in *. set (n := length (Py.chars suf)).
  assert (length l = length k' + n) as Hlen.
  { rewrite <- (length_fmap Py.lower_char l), Hk', length_app. done. }
  exists (take (length l - n) l), (drop (length l - n) l). split_and!; try done.
  - by rewrite take_drop.
  - rewrite fmap_drop, Hk', drop_app_length'; [done|lia].
Qed.

Lemma endswith_lower_intro (s suf : string) (k e : list ascii) :
  Py.chars s = k ++ e → Py.lower_char <$> e = Py.chars suf →
  Py.endswith (Py.lower s) suf = true.
Proof.
  intros Hs He. unfold Py.endswith. rewrite bool_decide_eq_true, chars_lower, Hs.
  exists (Py.lower_char <$> k). by rewrite fmap_app, He.
Qed.

Lemma strip_extension_Some (f stem : string) :
  Spec.strip_extension f = Some stem →
  ∃ s e, Py.chars f = s ++ e ∧ is_ext e ∧ stem = Py.str s.
Proof.
  unfold Spec.strip_extension.
  destruct (Py.endswith (Py.lower f) ".jpeg") eqn:E5.
  - apply endswith_lower_split in E5 as (k & e & ? & ? & Hd).
    intros [= <-]. exists k, e. split_and!; [done|by right|exact Hd].
  - destruct (Py.endswith (Py.lower f) ".jpg") eqn:E4; [|done].
    apply endswith_lower_split in E4 as (k & e & ? & ? & Hd).
    intros [= <-]. exists k, e. split_and!; [done|by left|exact Hd].
Qed.

Lemma strip_extension_None (f : string) (k e : list ascii) :
  Spec.strip_extension f = None → Py.chars f = k ++ e → ¬ is_ext e.
Proof.
  unfold Spec.strip_extension. intros Hnone Hf [He|He].
  - rewrite (endswith_lower_intro f ".jpg" k e Hf He) in Hnone.
    by destruct (Py.endswith (Py.lower f) ".jpeg").
  - by rewrite (endswith_lower_intro f ".jpeg" k e Hf He) in Hnone.
Qed.

Lemma strip_ab_cases (s : string) :
  (∃ b c, Py.chars s = b ++ ["_"%char; c] ∧ is_ab c ∧ Spec.strip_ab s = Py.str b) ∨
  ((∀ b c, Py.chars s = b ++ ["_"%char; c] → ¬ is_ab c) ∧ Spec.strip_ab s = s).
Proof.
  unfold Spec.strip_ab.
  destruct (Py.endswith (Py.lower s) "_a") eqn:Ea;
    [|destruct (Py.endswith (Py.lower s) "_b") eqn:Eb]; simpl.
  1,2: left;
    match goal with H : _ = true |- _ =>
      apply endswith_lower_split in H as (k & e & Hs & He & Hd) end;
    destruct e as [|u [|c [|? ?]]]; try discriminate;
    injection He as Hu Hc; apply lower_char_underscore in Hu as ->;
    exists k, c; unfold is_ab; split_and!; auto.
  right. split; [|done]. intros b c Hs [Hc|Hc].
  - rewrite (endswith_lower_intro s "_a" b ["_"%char; c] Hs) in Ea; [done|].
    simpl. by rewrite Hc.
  - rewrite (endswith_lower_intro s "_b" b ["_"%char; c] Hs) in Eb; [done|].
    simpl. by rewrite Hc.
Qed.

Lemma is_ab_not_special (c : ascii) : is_ab c → c ≠ "_"%char ∧ c ≠ "."%char.
Proof. intros [H|H]; split; intros ->; vm_compute in H; discriminate. Qed.

(** Before a marker and an extension no shorter tail can match. *)
Lemma tail_groups_before_ab (b2 : list ascii) (c : ascii) (e : list ascii) :
  b2 ≠ [] → is_ext e → no_newline (b2 ++ "_"%char :: c :: e) →
  Re.tail_groups (b2 ++ "_"%char :: c :: e) = None.
Proof.
  intros Hne He Hnl. destruct (Re.tail_groups _) as [g|] eqn:E; [exfalso|done].
  apply tail_groups_inv in E; [|done].
  destruct E as [[Hx _] | (c' & e' & Heq & Hc' & He' & _)].
  - apply (is_ext_suffix_unique (b2 ++ ["_"%char; c]) e) in He.
    + by destruct b2.
    + by rewrite <- app_assoc.
  - destruct b2 as [|x [|y b2]]; [done|..]; simplify_eq/=.
    + by destruct (is_ab_not_special _ Hc').
    + apply (is_ext_suffix_unique (b2 ++ ["_"%char; c]) e) in He.
      * by destruct b2.
      * by rewrite <- app_assoc.
Qed.

(** Before a bare extension a shorter tail matches only when the stem
    ends with a marker. *)
Lemma tail_groups_before_ext (b2 e : list ascii) :
  b2 ≠ [] → is_ext e → no_newline (b2 ++ e) →
  (∀ c, b2 = ["_"%char; c] → ¬ is_ab c) →
  Re.tail_groups (b2 ++ e) = None.
Proof.
  intros Hne He Hnl Hab. destruct (Re.tail_groups _) as [g|] eqn:E; [exfalso|done].
  apply tail_groups_inv in E; [|done].
  destruct E as [[Hx _] | (c' & e' & Heq & Hc' & He' & _)].
  - by apply (is_ext_suffix_unique b2 e) in He.
  - destruct b2 as [|x [|y b2]]; [done|..]; simplify_eq/=.
    + destruct (is_ext_shape _ He) as (? & [= ->] & _).
      by destruct (is_ab_not_special _ Hc').
    + apply (is_ext_suffix_unique b2 e) in He; [|done]. subst b2.
      by apply (Hab c').
Qed.

Lemma is_digit_not_dot (c : ascii) : Re.is_digit c = true → c ≠ "."%char.
Proof. intros H ->. vm_compute in H. discriminate. Qed.

Lemma is_date_prefix_inv (p : list ascii) :
  Re.is_date_prefix p = true →
  length p = 11 ∧ ("."%char ∉ p) ∧ ∃ p', p = p' ++ ["_"%char].
Proof.
  unfold Re.is_date_prefix.
  destruct p as [|y1 [|y2 [|y3 [|y4 [|h1 [|m1 [|m2 [|h2 [|d1 [|d2 [|u [|? ?]]]]]]]]]]]];
    try discriminate.
  simpl forallb. rewrite !andb_true_iff, !bool_decide_eq_true.
  intros ((((Hy1 & Hy2 & Hy3 & Hy4 & Hm1 & Hm2 & Hd1 & Hd2 & _) & ->) & ->) & ->).
  split_and!; [done| |by exists [y1; y2; y3; y4; "-"; m1; m2; "-"; d1; d2]%char].
  intros Hin.
  repeat (apply elem_of_cons in Hin as [Heq|Hin];
          [first [discriminate Heq | subst; by eapply is_digit_not_dot]|]).
  by apply elem_of_nil in Hin.
Qed.

Lemma date_prefix_app (s e : list ascii) :
  is_ext e →
  Re.date_prefix (s ++ e) = (λ '(d, rest), (d, rest ++ e)) <$> Re.date_prefix s.
Proof.
  intros He. unfold Re.date_prefix.
  destruct (Re.is_date_prefix (take 11 s)) eqn:Es.
  - pose proof (is_date_prefix_inv _ Es) as (Hlen & _).
    rewrite length_take in Hlen.
    rewrite take_app_le, drop_app_le, Es by lia. done.
  - destruct (Re.is_date_prefix (take 11 (s ++ e))) eqn:Ese; [exfalso|done].
    destruct (decide (11 ≤ length s)).
    + rewrite take_app_le in Ese by lia. congruence.
    + pose proof (is_date_prefix_inv _ Ese) as (_ & Hdot & _).
      destruct (is_ext_shape _ He) as (e' & -> & _).
      apply Hdot. rewrite take_app. apply elem_of_app. right.
      destruct (11 - length s) as [|m] eqn:E; [lia|]. simpl. apply elem_of_cons. by left.
Qed.

(** On a stem that keeps some text, the lazy group returns exactly what
    the specification's suffix rule leaves. *)
Lemma lazy_plus_stem (s e : list ascii) :
  is_ext e → no_newline s → Spec.strip_ab (Py.str s) ≠ "" →
  ∃ g, Re.lazy_plus [] (s ++ e) = Some (Spec.strip_ab (Py.str s), g).
Proof.
  intros He Hnl Hne. pose proof (is_ext_no_newline _ He) as Hnle.
  destruct (strip_ab_cases (Py.str s)) as [(b & c & Hs & Hc & Hb) | [Hno Hb]];
    rewrite Hb in *; rewrite chars_str in *.
  - subst s. rewrite <- app_assoc. simpl.
    apply Forall_app in Hnl as [Hnb Hnc].
    eexists. apply (lazy_plus_first b _ []); [done| |by apply tail_groups_ab|].
    + by intros ->.
    + intros b1 b2 -> ??. apply tail_groups_before_ab; [done..|].
      change (no_newline (b2 ++ ["_"%char; c] ++ e)).
      unfold no_newline in *. rewrite !Forall_app in *. tauto.
  - eexists. apply (lazy_plus_first s e []); [done| |by apply tail_groups_ext|].
    + by intros ->.
    + intros b1 b2 -> ??. apply Forall_app in Hnl as [_ ?].
      apply tail_groups_before_ext; [done..| |].
      * by apply Forall_app.
      * intros c ->. by apply (Hno b1 c).
Qed.

Lemma lazy_plus_needs_ext (l acc : list ascii) r :
  no_newline l → Re.lazy_plus acc l = Some r → ∃ k e, l = k ++ e ∧ is_ext e.
Proof.
  intros Hnl (b & t & -> & _ & [g Hg])%lazy_plus_Some_inv.
  apply Forall_app in Hnl as [_ Hnt].
  apply tail_groups_inv in Hg; [|done].
  destruct Hg as [[He _] | (c & e & -> & _ & He & _)].
  - by exists b, t.
  - exists (b ++ ["_"%char; c]), e. by rewrite <- app_assoc.
Qed.

Lemma date_group_truthy (p : list ascii) :
  Re.is_date_prefix p = true →
  Py.truthy (Some (Py.str p)) && Py.endswith (Py.str p) "_" = true.
Proof.
  intros (Hlen & _ & p' & ->)%is_date_prefix_inv. apply andb_true_iff. split.
  - destruct p'; [done|]. done.
  - unfold Py.endswith. rewrite bool_decide_eq_true, chars_str. by exists p'.
Qed.

Lemma extract_base_name_total (f : string) : is_Some (extract_base_name f).
Proof.
  unfold extract_base_name, Re.match2.
  destruct (Re.match1 f) as [[[g1 g2] g3]|] eqn:E.
  - destruct g1 as [d|]; simpl; [|done]. by repeat case_match.
  - assert (Re.lazy_plus [] (Py.chars f) = None) as ->; [|done].
    unfold Re.match1 in E. destruct (Re.lazy_plus [] (Py.chars f)) as [[??]|]; [|done].
    simpl in E. by repeat case_match.
Qed.

Lemma extract_base_name_strips (f : string) :
  no_newline (Py.chars f) → Spec.base_name f ≠ "" →
  extract_base_name f = Some (Spec.base_name f).
Proof.
  intros Hnl. unfold Spec.base_name.
  destruct (Spec.strip_extension f) as [stem|] eqn:Ex.
  - apply strip_extension_Some in Ex as (s & e & Hf & He & ->).
    rewrite Hf in Hnl. apply Forall_app in Hnl as [Hns _].
    unfold extract_base_name, Re.match1. rewrite Hf, date_prefix_app by done.
    unfold Spec.strip_date, Re.date_prefix. rewrite chars_str.
    destruct (Re.is_date_prefix (take 11 s)) eqn:Ed; simpl; intros Hne.
    + destruct (lazy_plus_stem (drop 11 s) e) as [g ->]; [done| |done|].
      { rewrite <- (take_drop 11 s) in Hns. by apply Forall_app in Hns as [_ ?]. }
      pose proof (date_group_truthy _ Ed) as Ht. simpl from_option. by rewrite Ht.
    + destruct (lazy_plus_stem s e) as [g ->]; done.
  - intros _.
    assert (∀ l acc, l `suffix_of` Py.chars f → Re.lazy_plus acc l = None) as Hfail.
    { intros l acc [k Hk]. destruct (Re.lazy_plus acc l) eqn:E; [exfalso|done].
      apply lazy_plus_needs_ext in E as (k' & e & -> & He).
      - apply (strip_extension_None f (k ++ k') e Ex); [|done]. by rewrite <- app_assoc.
      - rewrite Hk in Hnl. by apply Forall_app in Hnl as [_ ?]. }
    unfold extract_base_name, Re.match1, Re.match2, Re.date_prefix.
    rewrite (Hfail (Py.chars f)) by done. simpl.
    destruct (Re.is_date_prefix _); [|done].
    rewrite (Hfail (drop 11 (Py.chars f))); [done|]. apply suffix_drop.
Qed.

(** Without an image extension both patterns fail. *)
Lemma extract_base_name_fallback (f : string) :
  no_newline (Py.chars f) → Spec.strip_extension f = None →
  extract_base_name f = Some (Py.splitext f).1.
Proof.
  intros Hnl Hnone.
  assert (∀ l acc, l `suffix_of` Py.chars f → Re.lazy_plus acc l = None) as Hfail.
  { intros l acc [k Hk]. destruct (Re.lazy_plus acc l) eqn:E; [exfalso|done].
    apply lazy_plus_needs_ext in E as (k' & e & -> & He).
    - apply (strip_extension_None f (k ++ k') e Hnone); [|done].
      by rewrite <- app_assoc.
    - rewrite Hk in Hnl. by apply Forall_app in Hnl as [_ ?]. }
  unfold extract_base_name, Re.match1, Re.match2, Re.date_prefix.
  rewrite (Hfail (Py.chars f)) by done. simpl.
  destruct (Re.is_date_prefix _); [|done].
  rewrite (Hfail (drop 11 (Py.chars f))); [done|]. apply suffix_drop.
Qed.

(** C5 (as stated) fails: for a name made of a marker and an extension
    only, the specification's rule strips the trailing [_a] and leaves
    nothing, while the lazy group of the pattern, which needs at least
    one character, keeps the marker as the base name. *)
Lemma extract_base_name_marker_only_counterexample :
  Spec.base_name "_a.jpg" = "" ∧ extract_base_name "_a.jpg" = Some "_a".
Proof. split; vm_compute; reflexivity. Qed.

(** C5 (amended): [extract_base_name] never fails.  On every filename
    without a line break: when stripping the extension, a leading
    [YYYY-MM-DD_] prefix and a trailing [_a]/[_b] marker (in any letter
    case) leaves some text, the result is exactly that text; and a name
    without a [.jpg]/[.jpeg] extension falls back to the
    extension-stripped name.  The two examples of the specification
    hold. *)
Theorem extract_base_name_amended (filename : string) :
  is_Some (extract_base_name filename) ∧
  (no_newline (Py.chars filename) → Spec.base_name filename ≠ "" →
   extract_base_name filename = Some (Spec.base_name filename)) ∧
  (no_newline (Py.chars filename) → Spec.strip_extension filename = None →
   extract_base_name filename = Some (Py.splitext filename).1) ∧
  extract_base_name "2024-01-05_vacation_a.jpg" = Some "vacation" ∧
  extract_base_name "vacation.jpg" = Some "vacation".
Proof.
  split_and!.
  - apply extract_base_name_total.
  - apply extract_base_name_strips.
  - apply extract_base_name_fallback.
  - vm_compute. reflexivity.
  - vm_compute. reflexivity.
Qed.

Lemma extract_base_name_amended_witness :
  no_newline (Py.chars "2024-01-05_Beach_B.JPEG") ∧
  Spec.base_name "2024-01-05_Beach_B.JPEG" ≠ "" ∧
  extract_base_name "2024-01-05_Beach_B.JPEG" = Some "Beach".
Proof.
  assert (no_newline (Py.chars "2024-01-05_Beach_B.JPEG")) as Hnl.
  { apply Forall_forall. intros c Hc ->. vm_compute in Hc.
    repeat (apply elem_of_cons in Hc as [Hc|Hc]; [discriminate|]).
    by apply elem_of_nil in Hc. }
  assert (Spec.base_name "2024-01-05_Beach_B.JPEG" ≠ "") as Hne.
  { vm_compute. discriminate. }
  split_and!; [exact Hnl | exact Hne |].
  destruct (extract_base_name_amended "2024-01-05_Beach_B.JPEG") as (_ & H & _).
  rewrite (H Hnl Hne). vm_compute. reflexivity.
Defined.

(** ** Tables as finite maps *)

Lemma map_to_list_filter_perm {A} (P : Z * A → Prop) `{!∀ x, Decision (P x)}
    (m : gmap Z A) :
  map_to_list (filter P m) ≡ₚ filter P (map_to_list m).
Proof.
  apply NoDup_Permutation.
  - apply NoDup_map_to_list.
  - apply NoDup_filter, NoDup_map_to_list.
  - intros [k v]. rewrite elem_of_map_to_list, map_lookup_filter_Some,
      list_elem_of_filter, elem_of_map_to_list. tauto.
Qed.

Lemma size_filter_list {A} (P : Z * A → Prop) `{!∀ x, Decision (P x)}
    (m : gmap Z A) :
  size (filter P m) = length (filter P (map_to_list m)).
Proof. by rewrite <- length_map_to_list, map_to_list_filter_perm. Qed.


Lemma max_rowid_bound {A} (m : gmap Z A) (k : Z) (v : A) :
  m !! k = Some v → (k ≤ max_rowid m)%Z.
Proof.
  intros Hk. unfold max_rowid.
  assert (k ∈ (map_to_list m).*1) as Hin.
  { apply list_elem_of_fmap. exists (k, v). split; [done|].
    by apply elem_of_map_to_list. }
  induction ((map_to_list m).*1) as [|x l IH]; [by apply elem_of_nil in Hin|].
  apply elem_of_cons in Hin as [->|Hin]; simpl; [lia|].
  specialize (IH Hin). lia.
Qed.

(** An [AUTOINCREMENT] rowid is fresh, and beyond every rowid in use. *)
Lemma next_rowid_fresh {A} (seq : Z) (m : gmap Z A) :
  m !! next_rowid seq m = None.
Proof.
  destruct (m !! next_rowid seq m) as [v|] eqn:E; [|done].
  apply max_rowid_bound in E. unfold next_rowid in E. lia.
Qed.

Lemma next_rowid_gt {A} (seq : Z) (m : gmap Z A) (k : Z) (v : A) :
  m !! k = Some v → (k < next_rowid seq m)%Z.
Proof. intros E%max_rowid_bound. unfold next_rowid. lia. Qed.

(** ** Reconciliation pass *)

Section Reconcile.

Context {real : Type}.
Implicit Types d : db real.

Lemma missing_ids_spec (exists_on_disk : string → bool) d (id : Z) :
  id ∈ (filter (λ kv : Z * photo, exists_on_disk (filepath kv.2) = false)
               (map_to_list (photos d))).*1
  ↔ is_missing exists_on_disk d id = true.
Proof.
  unfold is_missing. rewrite list_elem_of_fmap. split.
  - intros ([k r] & -> & [Hm Hin%elem_of_map_to_list]%list_elem_of_filter).
    simpl in *. by rewrite Hin, Hm.
  - destruct (photos d !! id) as [r|] eqn:E; [|done].
    intros Hm%negb_true_iff. exists (id, r). split; [done|].
    apply list_elem_of_filter. split; [done|]. by apply elem_of_map_to_list.
Qed.

(** Within the parameter limit the pass runs its three [DELETE]
    statements. *)
Lemma cleanup_missing_photos_within (max_variables : nat)
    (exists_on_disk : string → bool) d :
  let missing := (filter (λ kv : Z * photo, exists_on_disk (filepath kv.2) = false)
                         (map_to_list (photos d))).*1 in
  length missing ≤ max_variables →
  cleanup_missing_photos max_variables exists_on_disk d
  = Ok (Db (filter (λ kv, kv.1 ∉ missing) (photos d)) (photos_seq d)
           (photo_groups d) (photo_groups_seq d)
           (filter (λ kv, gm_photo_id kv.2 ∉ missing) (photo_group_members d))
           (photo_group_members_seq d)
           (filter (λ kv, pe_photo_id kv.2 ∉ missing) (photo_embeddings d))
           (photo_embeddings_seq d),
        length missing).
Proof.
  intros missing Hlen. unfold cleanup_missing_photos. fold missing.
  destruct missing as [|k ks] eqn:E.
  - rewrite !map_filter_id; [by destruct d|intros ?? _ ?%elem_of_nil; done..].
  - by rewrite bool_decide_eq_true_2.
Qed.

(** Beyond the limit the pass raises, and nothing has been removed. *)
Lemma cleanup_missing_photos_too_many (max_variables : nat)
    (exists_on_disk : string → bool) d :
  max_variables < size (filter (λ kv, exists_on_disk (filepath kv.2) = false) (photos d)) →
  cleanup_missing_photos max_variables exists_on_disk d = Raise "too many SQL variables".
Proof.
  rewrite size_filter_list. intros Hlen. unfold cleanup_missing_photos.
  set (missing := (filter _ (map_to_list (photos d))).*1).
  assert (max_variables < length missing) as Hmany
    by (subst missing; by rewrite length_fmap).
  destruct missing as [|k ks]; [simpl in Hmany; lia|].
  rewrite bool_decide_eq_false_2; [done|lia].
Qed.



End Reconcile.


(** ** Storing a clustering result *)

Section StoreGroups.

Context {real : Type}.
Context (calculate_group_similarity : db real → list string → real).
Context (format_3f : real → string).
Implicit Types d : db real.

Lemma add_photo_to_group_frame (now : Z) (fp : string) (gid : Z)
    (score : option real) d :
  let d' := (add_photo_to_group now fp gid score d).1 in
  photos d' = photos d ∧ photo_groups d' = photo_groups d ∧
  ∀ id m, photo_group_members d !! id = Some m → gm_group_id m ≠ gid →
          photo_group_members d' !! id = Some m.
Proof.
  unfold add_photo_to_group.
  destruct (photos_with_path fp d) as [|[photo_id ?] ?]; simpl; [done|].
  split_and!; [done..|]. intros id m Hm Hne.
  rewrite lookup_insert_ne.
  - apply map_lookup_filter_Some. split; [done|]. simpl. tauto.
  - intros <-. by rewrite next_rowid_fresh in Hm.
Qed.

Lemma add_photos_to_group_frame (now : Z) (group : list string) (gid : Z)
    (score : option real) d :
  let d' := foldl (λ d fp, (add_photo_to_group now fp gid score d).1) d group in
  photos d' = photos d ∧ photo_groups d' = photo_groups d ∧
  ∀ id m, photo_group_members d !! id = Some m → gm_group_id m ≠ gid →
          photo_group_members d' !! id = Some m.
Proof.
  revert d. induction group as [|fp group IH]; intros d; simpl; [done|].
  destruct (add_photo_to_group_frame now fp gid score d) as (Hp & Hg & Hm).
  destruct (IH (add_photo_to_group now fp gid score d).1) as (Hp' & Hg' & Hm').
  split_and!; [congruence..|]. intros id m ??. apply Hm'; [by apply Hm|done].
Qed.

Lemma store_group_frame (now : Z) d (i : nat) (group : list string) :
  let d' := store_group calculate_group_similarity format_3f now d i group in
  photos d' = photos d ∧
  (∃ gid g, photo_groups d !! gid = None ∧ photo_groups d' = <[gid := g]> (photo_groups d)) ∧
  ∀ id m, photo_group_members d !! id = Some m →
          is_Some (photo_groups d !! gm_group_id m) →
          photo_group_members d' !! id = Some m.
Proof.
  unfold store_group, create_photo_group. simpl.
  set (gid := next_rowid (photo_groups_seq d) (photo_groups d)).
  set (d1 := set_photo_groups d _ gid).
  destruct (add_photos_to_group_frame now group gid
              (Some (calculate_group_similarity d group)) d1) as (Hp & Hg & Hm).
  split_and!.
  - by rewrite Hp.
  - eexists gid, _. split; [apply next_rowid_fresh|]. by rewrite Hg.
  - intros id m Hid [g Hg']. apply Hm; [done|].
    intros Heq. rewrite Heq in Hg'. subst gid. by rewrite next_rowid_fresh in Hg'.
Qed.

Lemma store_groups_from_frame (now : Z) (groups : list (list string)) (i : nat) d :
  let d' := store_groups_from calculate_group_similarity format_3f now i groups d in
  photos d' = photos d ∧
  (∀ gid g, photo_groups d !! gid = Some g → photo_groups d' !! gid = Some g) ∧
  size (photo_groups d') = size (photo_groups d) + length groups ∧
  ∀ id m, photo_group_members d !! id = Some m →
          is_Some (photo_groups d !! gm_group_id m) →
          photo_group_members d' !! id = Some m.
Proof.
  revert i d. induction groups as [|group groups IH]; intros i d; simpl.
  { split_and!; [done..|lia|done]. }
  destruct (store_group_frame now d i group) as (Hp & (gid & g & Hfresh & Hg) & Hm).
  set (d1 := store_group _ _ now d i group) in *.
  destruct (IH (S i) d1) as (Hp' & Hg' & Hsize & Hm').
  split_and!.
  - congruence.
  - intros k v Hk. apply Hg'. rewrite Hg, lookup_insert_ne; [done|congruence].
  - rewrite Hsize, Hg, map_size_insert_None by done. lia.
  - intros id m Hid [v Hv]. apply Hm'; [by apply Hm|].
    rewrite Hg. rewrite lookup_insert_ne; [by eexists|congruence].
Qed.


End StoreGroups.


(** ** Ignoring a photo set *)

Section Ignore.

Context {real : Type}.
Context (extract_original_date : string → option string).
Implicit Types d : db real.

Lemma truthy_Some (fp : string) : Py.truthy (Some fp) = true ↔ fp ≠ "".
Proof.
  simpl. rewrite negb_true_iff. split.
  - intros H ->. by rewrite String.eqb_refl in H.
  - intros H. by apply String.eqb_neq.
Qed.

Lemma ignore_file_step (now : Z) (base_name fp : string) d :
  fp ≠ "" →
  let d' := ignore_file extract_original_date now base_name d (Some fp) in
  let n := next_rowid (photos_seq d) (photos d) in
  photos d' = <[n := ignored_row extract_original_date now base_name fp]>
                (filter (λ kv, filepath kv.2 ≠ fp) (photos d)) ∧
  photos_seq d' = n ∧
  photo_group_members d' = photo_group_members d ∧
  photo_embeddings d' = photo_embeddings d.
Proof.
  intros Hne. unfold ignore_file. rewrite (proj2 (truthy_Some fp) Hne).
  unfold add_photo, mark_photo_ignored. simpl. split_and!; try done.
  apply map_eq. intros id. rewrite lookup_fmap.
  destruct (decide (next_rowid (photos_seq d) (photos d) = id)) as [<-|Hid].
  - rewrite !lookup_insert_eq. simpl. by rewrite bool_decide_true.
  - rewrite !lookup_insert_ne by done.
    destruct (filter _ (photos d) !! id) as [r|] eqn:E; [|done]. simpl.
    apply map_lookup_filter_Some in E as [_ Hr]. simpl in Hr.
    by rewrite bool_decide_false.
Qed.

Lemma ignore_file_skip (now : Z) (base_name : string) d (o : option string) :
  Py.truthy o = false → ignore_file extract_original_date now base_name d o = d.
Proof. intros H. unfold ignore_file. destruct o; [by rewrite H|done]. Qed.

Lemma ignore_inv_init (now : Z) (base_name : string) d :
  ignore_inv extract_original_date now base_name d [] d.
Proof.
  unfold ignore_inv. split_and!; [done|done|..].
  - intros id r Hr. rewrite bool_decide_false; [done|]. apply not_elem_of_nil.
  - intros id0 [r Hr]. by eapply next_rowid_gt.
  - intros fp ?%elem_of_nil. done.
Qed.

Lemma ignore_inv_step (now : Z) (base_name fp : string) d (S : list string) d' :
  fp ≠ "" → ignore_inv extract_original_date now base_name d S d' →
  ignore_inv extract_original_date now base_name d (fp :: S)
             (ignore_file extract_original_date now base_name d' (Some fp)).
Proof.
  intros Hne (Hm & He & Hrows & Hnext & Hcov).
  destruct (ignore_file_step now base_name fp d' Hne) as (Hp & Hseq & Hm' & He').
  set (n := next_rowid (photos_seq d') (photos d')) in *.
  set (d'' := ignore_file _ now base_name d' (Some fp)) in *.
  split_and!.
  - congruence.
  - congruence.
  - intros id r. rewrite Hp. destruct (decide (n = id)) as [<-|Hid].
    + rewrite lookup_insert_eq. intros [= <-]. simpl.
      rewrite bool_decide_true by (apply elem_of_cons; by left).
      split_and!; [done| |exact Hnext].
      destruct (photos d !! n) as [r0|] eqn:E; [|done].
      specialize (Hnext n (ltac:(by eexists))). lia.
    + rewrite lookup_insert_ne by done.
      intros [Hr Hfp]%map_lookup_filter_Some. simpl in Hfp.
      specialize (Hrows id r Hr).
      destruct (bool_decide (filepath r ∈ S)) eqn:Hin.
      * apply bool_decide_eq_true in Hin.
        rewrite bool_decide_true by (apply elem_of_cons; by right). done.
      * apply bool_decide_eq_false in Hin.
        rewrite bool_decide_false; [done|].
        intros [?|?]%elem_of_cons; done.
  - intros id0 Hid0. specialize (Hnext id0 Hid0).
    rewrite Hseq. unfold next_rowid at 1. fold n in Hnext. lia.
  - intros fp' [->|Hin]%elem_of_cons.
    + exists n, (ignored_row extract_original_date now base_name fp). rewrite Hp, lookup_insert_eq. done.
    + destruct (decide (fp' = fp)) as [->|Hdiff].
      * exists n, (ignored_row extract_original_date now base_name fp). rewrite Hp, lookup_insert_eq. done.
      * destruct (Hcov fp' Hin) as (id & r & Hr & Hfp).
        exists id, r. split; [|done]. rewrite Hp, lookup_insert_ne.
        -- apply map_lookup_filter_Some. split; [done|]. simpl. congruence.
        -- intros <-. subst n. by rewrite next_rowid_fresh in Hr.
Qed.

Lemma ignore_inv_fold (now : Z) (base_name : string) d
    (l : list (option string)) (S : list string) d' :
  ignore_inv extract_original_date now base_name d S d' →
  ∃ S', (∀ fp, fp ∈ S' ↔ fp ∈ S ∨ (Some fp ∈ l ∧ fp ≠ "")) ∧
        ignore_inv extract_original_date now base_name d S'
          (foldl (ignore_file extract_original_date now base_name) d' l).
Proof.
  revert S d'. induction l as [|o l IH]; intros S d' Hinv; simpl.
  { exists S. split; [|done]. intros fp. rewrite elem_of_nil. tauto. }
  destruct (Py.truthy o) eqn:Ht.
  - destruct o as [fp|]; [|done]. apply truthy_Some in Ht.
    destruct (IH (fp :: S) _ (ignore_inv_step now base_name fp d S d' Ht Hinv))
      as (S' & HS' & Hinv').
    exists S'. split; [|done]. intros fp'. rewrite HS', !elem_of_cons.
    split; [intros [[->|?]|[? ?]]|intros [?|[[[= ->]|?] ?]]]; eauto.
  - rewrite ignore_file_skip by done.
    destruct (IH S d' Hinv) as (S' & HS' & Hinv').
    exists S'. split; [|done]. intros fp'. rewrite HS', elem_of_cons.
    split; [intros [?|[? ?]]; eauto|intros [?|[[Heq|?] Hne]]; eauto].
    subst o. apply truthy_Some in Hne. congruence.
Qed.

(** C9: ignoring a photo set replaces the catalog row of every path of
    the set that is already known.  The old row (with its processed or
    ignored timestamps) is gone, a new row with a larger, unused id
    holds the path with a recomputed default date, no processed
    timestamp and the ignored timestamp set, and the embedding and
    group-member tables are left as they were, so their rows for the
    old id now reference no photo. *)
Theorem ignore_photo_set_replaces (now : Z) (base_name : string)
    (photo_pairs : gmap string pair) (pair : pair) d
    (fp : string) (id0 : Z) (r0 : photo) :
  photo_pairs !! base_name = Some pair →
  Some fp ∈ [front pair; back pair] ++ (Some <$> variants pair) →
  fp ≠ "" →
  photos d !! id0 = Some r0 → filepath r0 = fp →
  let res := ignore_photo_set extract_original_date now base_name photo_pairs d in
  res.2 = true ∧
  photos res.1 !! id0 = None ∧
  (∃ id1, (id0 < id1)%Z ∧ photos d !! id1 = None ∧
          photos res.1 !! id1
            = Some (Photo fp base_name (determine_file_type (Py.basename fp))
                          (extract_original_date fp) None (Some now) now now)) ∧
  photo_group_members res.1 = photo_group_members d ∧
  photo_embeddings res.1 = photo_embeddings d.
Proof.
  intros Hpair Hin Hne Hid0 Hfp. unfold ignore_photo_set. rewrite Hpair. simpl.
  destruct (ignore_inv_fold now base_name d
              ([front pair; back pair] ++ (Some <$> variants pair)) [] d
              (ignore_inv_init now base_name d))
    as (S & HS & Hm & He & Hrows & _ & Hcov).
  assert (fp ∈ S) as HfpS by (apply HS; right; done).
  split_and!; [done| | |done|done].
  - match goal with |- photos ?x !! id0 = None =>
      destruct (photos x !! id0) as [r|] eqn:E; [exfalso|done] end.
    specialize (Hrows id0 r E). destruct (bool_decide (filepath r ∈ S)) eqn:Hb.
    + destruct Hrows as (_ & Hnone & _). congruence.
    + apply bool_decide_eq_false in Hb. rewrite Hid0 in Hrows.
      injection Hrows as <-. congruence.
  - destruct (Hcov fp HfpS) as (id1 & r & Hr & Hrfp).
    specialize (Hrows id1 r Hr). rewrite Hrfp, bool_decide_true in Hrows by done.
    destruct Hrows as (-> & Hnone & Hlt).
    exists id1. split_and!; [apply Hlt; by eexists|done|done].
Qed.

End Ignore.

Lemma ignore_photo_set_replaces_witness :
  let res := ignore_photo_set (λ _, Some "1999-12-31") 50 "x"
               Sample.x_pairs Sample.processed_catalog in
  photos res.1 !! 4%Z = None ∧
  photo_embeddings res.1 = photo_embeddings Sample.processed_catalog.
Proof.
  pose proof (ignore_photo_set_replaces (λ _, Some "1999-12-31") 50 "x"
                Sample.x_pairs (Pair (Some "/u/x_a.jpg") None [] (Some "2001-01-01"))
                Sample.processed_catalog "/u/x_a.jpg" 4
                (Photo "/u/x_a.jpg" "x" "front" (Some "2001-01-01") (Some 7%Z) None 0 7)
                eq_refl ltac:(apply elem_of_cons; by left) ltac:(discriminate)
                eq_refl eq_refl) as (_ & H1 & _ & _ & H2).
  exact (conj H1 H2).
Defined.

(** ** The listing of unprocessed sets *)

Section Listing.

Context {real : Type}.
Implicit Types d : db real.

Lemma group_row_slots (rows : list photo) (acc : gmap string pair) (row : photo) :
  row ∈ rows → slots_from rows acc → slots_from rows (group_row acc row).
Proof.
  intros Hrow Hacc bn v. unfold group_row.
  destruct (decide (base_name row = bn)) as [<-|Hne].
  2: { rewrite lookup_insert_ne by done. apply Hacc. }
  rewrite lookup_insert_eq.
  assert (slot_from rows (base_name row) "front"
            (front (default empty_pair (acc !! base_name row))) ∧
          slot_from rows (base_name row) "back"
            (back (default empty_pair (acc !! base_name row)))) as [Hf Hb].
  { destruct (acc !! base_name row) as [e|] eqn:E; simpl; [by apply Hacc|].
    split; intros fp [=]. }
  repeat case_bool_decide; intros [= <-]; simpl; (split; [|]); try done.
  - intros fp [= <-]. by exists row.
  - intros fp [= <-]. by exists row.
Qed.

Lemma foldl_group_row_slots (rows l : list photo) (acc : gmap string pair) :
  (∀ r, r ∈ l → r ∈ rows) → slots_from rows acc →
  slots_from rows (foldl group_row acc l).
Proof.
  revert acc. induction l as [|row l IH]; intros acc Hl Hacc; simpl; [done|].
  apply IH.
  - intros r Hr. apply Hl. by apply elem_of_cons; right.
  - apply group_row_slots; [|done]. apply Hl. by apply elem_of_cons; left.
Qed.

Lemma select_unprocessed_spec d (r : photo) :
  r ∈ select_unprocessed d →
  ∃ id, photos d !! id = Some r ∧ processed_date r = None ∧ ignored_date r = None.
Proof.
  unfold select_unprocessed. rewrite merge_sort_Permutation.
  intros [[Hp Hi] Hin]%list_elem_of_filter.
  apply list_elem_of_fmap in Hin as ([id r'] & -> & Hin%elem_of_map_to_list).
  by exists id.
Qed.

Lemma execute_with_retry_Ok {A} (fault : nat → option operational_error) (x y : A) :
  execute_with_retry fault x = Ok y → y = x.
Proof.
  unfold execute_with_retry. simpl.
  repeat (case_match; simplify_eq/=; try done); congruence.
Qed.

(** C10 (amended): a listing of unprocessed sets that is computed from
    the catalog (no cached listing younger than 60 seconds) returns
    only base names with a photo in the front or the back slot, which
    is an unprocessed, non-ignored row stored with that role; a base
    name whose unprocessed, non-ignored rows all have another role is
    left out of the listing. *)
Theorem unprocessed_listing_needs_front_or_back (c c' : cache) (time : Z)
    (fault : nat → option operational_error) d (result : gmap string pair) :
  get_cached (cached_unprocessed_pairs c) time = None →
  get_unprocessed_photo_pairs c time fault d = Ok (c', result) →
  (∀ bn v, result !! bn = Some v →
     ∃ id r, photos d !! id = Some r ∧ base_name r = bn ∧
             processed_date r = None ∧ ignored_date r = None ∧
             ((file_type r = "front" ∧ front v = Some (filepath r)) ∨
              (file_type r = "back" ∧ back v = Some (filepath r)))) ∧
  (∀ bn, (∀ id r, photos d !! id = Some r → base_name r = bn →
                  processed_date r = None → ignored_date r = None →
                  file_type r ≠ "front" ∧ file_type r ≠ "back") →
         result !! bn = None).
Proof.
  intros Hmiss. unfold get_unprocessed_photo_pairs, get_unprocessed_photos.
  rewrite Hmiss.
  destruct (execute_with_retry fault (select_unprocessed d)) as [rows|msg] eqn:E;
    [|done].
  apply execute_with_retry_Ok in E as ->. intros [= _ <-].
  assert (∀ bn v, filter (λ kv, has_front_or_back kv.2 = true)
                         (foldl group_row ∅ (select_unprocessed d)) !! bn = Some v →
     ∃ id r, photos d !! id = Some r ∧ base_name r = bn ∧
             processed_date r = None ∧ ignored_date r = None ∧
             ((file_type r = "front" ∧ front v = Some (filepath r)) ∨
              (file_type r = "back" ∧ back v = Some (filepath r)))) as Hsome.
  { intros bn v [Hv Hfb]%map_lookup_filter_Some. simpl in Hfb.
    destruct (foldl_group_row_slots (select_unprocessed d) (select_unprocessed d) ∅
                ltac:(done) ltac:(by intros ?? ?) bn v Hv) as [Hf Hb].
    unfold has_front_or_back in Hfb. apply orb_true_iff in Hfb as [Ht|Ht].
    - destruct (front v) as [fp|] eqn:Efront; [|done].
      destruct (Hf fp eq_refl) as (r & Hr & ? & ? & <-).
      apply select_unprocessed_spec in Hr as (id & ? & ? & ?).
      exists id, r. split_and!; try done. by left.
    - destruct (back v) as [fp|] eqn:Eback; [|done].
      destruct (Hb fp eq_refl) as (r & Hr & ? & ? & <-).
      apply select_unprocessed_spec in Hr as (id & ? & ? & ?).
      exists id, r. split_and!; try done. by right. }
  split; [exact Hsome|].
  intros bn Hall. match goal with |- ?m !! bn = None =>
    destruct (m !! bn) as [v|] eqn:Ev; [exfalso|done] end.
  destruct (Hsome bn v Ev) as (id & r & Hr & Hbn & Hp & Hi & Hrole).
  destruct (Hall id r Hr Hbn Hp Hi) as [Hnf Hnb]. by destruct Hrole as [[? _]|[? _]].
Qed.

End Listing.

Lemma unprocessed_listing_needs_front_or_back_witness :
  get_unprocessed_photo_pairs empty_cache 100 (λ _, None) Sample.mixed_catalog
    = Ok (Cache None (Some (100%Z, Sample.p_listing)), Sample.p_listing) ∧
  Sample.p_listing !! "q" = None.
Proof.
  assert (get_unprocessed_photo_pairs empty_cache 100 (λ _, None) Sample.mixed_catalog
          = Ok (Cache None (Some (100%Z, Sample.p_listing)), Sample.p_listing)) as Hrun.
  { vm_compute. reflexivity. }
  split; [exact Hrun|].
  destruct (unprocessed_listing_needs_front_or_back empty_cache _ 100 (λ _, None)
              Sample.mixed_catalog Sample.p_listing eq_refl Hrun) as [_ Hnone].
  apply Hnone. intros id r Hr Hbn _ _.
  destruct (decide (id = 1%Z)) as [->|?]; [vm_compute in Hr; by simplify_eq|].
  destruct (decide (id = 2%Z)) as [->|?]; [vm_compute in Hr; by simplify_eq|].
  exfalso. unfold Sample.mixed_catalog in Hr. cbn [photos] in Hr.
  by rewrite lookup_insert_ne, lookup_singleton_ne in Hr.
Defined.

(** C10 (as stated) fails: the listing is cached for 60 seconds and no
    write invalidates it.  Set [p] is listed at time 100 with its front
    scan; at time 120 the front scan is marked processed, which leaves
    the scanner original, stored as [variant], as the only unprocessed
    photo of [p].  Computed from the catalog the listing would now omit
    [p]; the listing asked for at time 159 still names it. *)
Lemma unprocessed_listing_stale_counterexample :
  let c1 := Cache None (Some (100%Z, Sample.p_with_original)) in
  get_unprocessed_photo_pairs empty_cache 100 (λ _, None) Sample.front_and_original
    = Ok (c1, Sample.p_with_original) ∧
  mark_photo_processed 120 "/u/p_a.jpg" (Some "/p/2024/01/2024-01-05_p_a.jpg")
                       Sample.front_and_original
    = Ok (Sample.front_processed, true) ∧
  map_Forall (λ _ r, base_name r = "p" → processed_date r = None →
                     ignored_date r = None → file_type r = "variant")
             (photos Sample.front_processed) ∧
  get_unprocessed_photo_pairs c1 159 (λ _, None) Sample.front_processed
    = Ok (c1, Sample.p_with_original) ∧
  is_Some (Sample.p_with_original !! "p") ∧
  get_unprocessed_photo_pairs empty_cache 159 (λ _, None) Sample.front_processed
    = Ok (Cache None (Some (159%Z, ∅)), ∅).
Proof.
  intros c1.
  split; [vm_compute; reflexivity|]. split; [vm_compute; reflexivity|].
  split; [apply (bool_decide_unpack _); vm_compute; exact I|].
  split; [vm_compute; reflexivity|]. split; [by eexists|].
  vm_compute. reflexivity.
Qed.

(** ** Clustering *)

Section Clustering.

Context {real embedding eps_t : Type}.
Context (pickle_loads : string → option embedding).
Context (fit_predict : eps_t → Z → list embedding → outcome (list Z)).

(** C8: whatever the embeddings, the labels the clustering library
    answers, [eps] and [min_samples], every group that
    [find_similar_groups] returns has at least two member paths. *)
Theorem find_similar_groups_no_singletons (eps : eps_t) (min_samples : Z)
    (d : db real) (groups : list (list string)) :
  find_similar_groups pickle_loads fit_predict eps min_samples d = Ok groups →
  Forall (λ group, 2 ≤ length group) groups.
Proof.
  unfold find_similar_groups.
  repeat (case_bool_decide || case_match); intros [= <-]; try by constructor.
  apply Forall_forall. intros group [Hlen _]%list_elem_of_filter. lia.
Qed.

End Clustering.

Lemma find_similar_groups_no_singletons_witness :
  ∃ groups,
    find_similar_groups (real := Z) Some (λ (_ : unit) _ _, Ok [0%Z; 0%Z]) () 2
                        Sample.catalog = Ok groups ∧
    groups ≠ [] ∧ Forall (λ group, 2 ≤ length group) groups.
Proof.
  eexists. split; [vm_compute; reflexivity|]. split; [discriminate|].
  apply (find_similar_groups_no_singletons (real := Z) Some
           (λ (_ : unit) _ _, Ok [0%Z; 0%Z]) () 2 Sample.catalog).
  vm_compute. reflexivity.
Defined.

(** ** Bulk insert and the ingestion scan *)

Section Scan.

Context {real : Type}.
Context (IGNORE_FILE_PATTERNS : list string).
Context (extract_original_date : string → option string).
Implicit Types d : db real.
Implicit Types row : string * option string * string * option string.

Lemma get_all_photo_paths_spec d (fp : string) :
  fp ∈ get_all_photo_paths d ↔ ∃ id r, photos d !! id = Some r ∧ filepath r = fp.
Proof.
  unfold get_all_photo_paths. rewrite list_elem_of_fmap. split.
  - intros ([id r] & -> & Hin%elem_of_map_to_list). by exists id, r.
  - intros (id & r & Hr & <-). exists (id, r). split; [done|].
    by apply elem_of_map_to_list.
Qed.

Lemma get_processed_photos_spec d (fp : string) :
  fp ∈ get_processed_photos d
  ↔ ∃ id r, photos d !! id = Some r ∧ filepath r = fp ∧ processed_date r ≠ None.
Proof.
  unfold get_processed_photos. rewrite list_elem_of_fmap. split.
  - intros ([id r] & -> & [Hp Hin%elem_of_map_to_list]%list_elem_of_filter).
    by exists id, r.
  - intros (id & r & Hr & <- & Hp). exists (id, r). split; [done|].
    apply list_elem_of_filter. split; [done|]. by apply elem_of_map_to_list.
Qed.

Lemma get_ignored_photos_spec d (fp : string) :
  fp ∈ get_ignored_photos d
  ↔ ∃ id r, photos d !! id = Some r ∧ filepath r = fp ∧ ignored_date r ≠ None.
Proof.
  unfold get_ignored_photos. rewrite list_elem_of_fmap. split.
  - intros ([id r] & -> & [Hp Hin%elem_of_map_to_list]%list_elem_of_filter).
    by exists id, r.
  - intros (id & r & Hr & <- & Hp). exists (id, r). split; [done|].
    apply list_elem_of_filter. split; [done|]. by apply elem_of_map_to_list.
Qed.

(** What one [INSERT OR IGNORE] does to the catalog. *)
Lemma insert_or_ignore_photo_spec (now : Z) row d :
  let d' := insert_or_ignore_photo now row d in
  (∀ id r, photos d !! id = Some r → photos d' !! id = Some r) ∧
  (∀ id r, photos d' !! id = Some r →
     photos d !! id = Some r ∨ (processed_date r = None ∧ ignored_date r = None)) ∧
  (is_Some row.1.1.2 → row.1.1.1 ∈ get_all_photo_paths d') ∧
  (row.1.1.2 = None → d' = d).
Proof.
  destruct row as [[[fp bn] ft] dd]. simpl. destruct bn as [bn|]; simpl.
  2: { split_and!; [done|by left|by intros [??]|done]. }
  case_bool_decide as Hin.
  { split_and!; [done|by left|done|done]. }
  simpl. split_and!.
  - intros id r Hr. rewrite lookup_insert_ne; [done|].
    intros <-. by rewrite next_rowid_fresh in Hr.
  - intros id r. destruct (decide (next_rowid (photos_seq d) (photos d) = id)) as [<-|?].
    + rewrite lookup_insert_eq. intros [= <-]. by right.
    + rewrite lookup_insert_ne by done. by left.
  - intros _. apply get_all_photo_paths_spec. eexists _, _. simpl.
    split; [apply lookup_insert_eq|done].
  - done.
Qed.

Lemma batch_add_photos_spec (now : Z)
    (rows : list (string * option string * string * option string)) d :
  let d' := batch_add_photos now rows d in
  (∀ id r, photos d !! id = Some r → photos d' !! id = Some r) ∧
  (∀ id r, photos d' !! id = Some r →
     photos d !! id = Some r ∨ (processed_date r = None ∧ ignored_date r = None)) ∧
  (∀ row, row ∈ rows → is_Some row.1.1.2 → row.1.1.1 ∈ get_all_photo_paths d') ∧
  ((∀ row, row ∈ rows → row.1.1.2 = None) → d' = d).
Proof.
  unfold batch_add_photos. revert d.
  induction rows as [|row rows IH]; intros d; simpl.
  { split_and!; [done|by left|by intros ? ?%elem_of_nil|done]. }
  destruct (insert_or_ignore_photo_spec now row d) as (H1 & H2 & H3 & H4).
  destruct (IH (insert_or_ignore_photo now row d)) as (I1 & I2 & I3 & I4).
  split_and!.
  - intros id r Hr. by apply I1, H1.
  - intros id r Hr. destruct (I2 id r Hr) as [Hr'|?]; [|by right]. by apply H2.
  - intros row' [->|Hin]%elem_of_cons Hsome; [|by apply I3].
    apply get_all_photo_paths_spec.
    apply H3, get_all_photo_paths_spec in Hsome as (id & r & Hr & Hfp).
    exists id, r. split; [by apply I1|done].
  - intros Hnone. rewrite I4.
    + apply H4, Hnone. by apply elem_of_cons; left.
    + intros row' Hin. apply Hnone. by apply elem_of_cons; right.
Qed.

Lemma scan_file_staged (P I E : list string) (root file : string)
    (st : scan_state) row :
  row ∈ new_photos_to_add
          (scan_file IGNORE_FILE_PATTERNS extract_original_date P I E root file st)
  ↔ row ∈ new_photos_to_add st ∨ stages IGNORE_FILE_PATTERNS extract_original_date P I E root file row.
Proof.
  unfold scan_file, stages.
  destruct (has_image_extension file); simpl; [|naive_solver].
  destruct (should_ignore_file _ file); simpl; [naive_solver|].
  destruct (bool_decide (Py.join root file ∈ P)) eqn:HP; simpl.
  { apply bool_decide_eq_true in HP. naive_solver. }
  apply bool_decide_eq_false in HP.
  destruct (bool_decide (Py.join root file ∈ I)) eqn:HI; simpl.
  { apply bool_decide_eq_true in HI. naive_solver. }
  apply bool_decide_eq_false in HI.
  case_bool_decide as HE; simpl.
  - rewrite elem_of_app, list_elem_of_singleton. naive_solver.
  - naive_solver.
Qed.

Lemma scan_files_staged (P I E : list string) (root : string) (files : list string)
    (st : scan_state) row :
  row ∈ new_photos_to_add
          (foldl (λ st file, scan_file IGNORE_FILE_PATTERNS extract_original_date
                                       P I E root file st) st files)
  ↔ row ∈ new_photos_to_add st ∨ ∃ file, file ∈ files ∧ stages IGNORE_FILE_PATTERNS extract_original_date P I E root file row.
Proof.
  revert st. induction files as [|file files IH]; intros st; simpl.
  { split; [by left|]. intros [?|(? & ?%elem_of_nil & _)]; done. }
  rewrite IH, scan_file_staged. setoid_rewrite elem_of_cons. naive_solver.
Qed.

Lemma scan_walk_staged (P I E : list string) (walk : list (string * list string)) row :
  row ∈ new_photos_to_add
          (scan_walk IGNORE_FILE_PATTERNS extract_original_date P I E walk)
  ↔ ∃ root files file, (root, files) ∈ walk ∧ file ∈ files ∧ stages IGNORE_FILE_PATTERNS extract_original_date P I E root file row.
Proof.
  unfold scan_walk.
  assert (∀ st, row ∈ new_photos_to_add
      (foldl (λ st '(root, files),
                foldl (λ st file, scan_file IGNORE_FILE_PATTERNS extract_original_date
                                            P I E root file st) st files) st walk)
    ↔ row ∈ new_photos_to_add st ∨
      ∃ root files file, (root, files) ∈ walk ∧ file ∈ files ∧ stages IGNORE_FILE_PATTERNS extract_original_date P I E root file row)
    as Hgen.
  { induction walk as [|[root files] walk IH]; intros st; simpl.
    { split; [by left|]. intros [?|(? & ? & ? & ?%elem_of_nil & _)]; done. }
    rewrite IH, scan_files_staged. setoid_rewrite elem_of_cons. naive_solver. }
  rewrite Hgen. simpl. split; [intros [?%elem_of_nil|?]; done|by right].
Qed.

Lemma scan_photos_miss (c : cache) (time now : Z)
    (walk : list (string * list string)) d :
  get_cached (cached_scan_photos c) time = None →
  (scan_photos IGNORE_FILE_PATTERNS extract_original_date c time now walk d).1.2
  = batch_add_photos now
      (new_photos_to_add
         (scan_walk IGNORE_FILE_PATTERNS extract_original_date
                    (get_processed_photos d) (get_ignored_photos d)
                    (get_all_photo_paths d) walk)) d.
Proof. intros H. unfold scan_photos. rewrite H. simpl. by destruct (new_photos_to_add _). Qed.

Lemma scan_photos_hit (c : cache) (time now : Z)
    (walk : list (string * list string)) d :
  is_Some (get_cached (cached_scan_photos c) time) →
  (scan_photos IGNORE_FILE_PATTERNS extract_original_date c time now walk d).1.2 = d.
Proof. intros [v H]. unfold scan_photos. by rewrite H. Qed.

(** C6: a scan that really walks the tree (its result is not served
    from the 60-second cache) followed by a second scan of the same
    tree: the second scan leaves the catalog exactly as the first one
    left it, so it inserts no photo record.  And a bulk insert leaves
    every record that is already in the catalog as it was. *)
Theorem scan_photos_idempotent (c : cache) (time1 time2 now1 now2 : Z)
    (walk : list (string * list string)) d :
  get_cached (cached_scan_photos c) time1 = None →
  let first := scan_photos IGNORE_FILE_PATTERNS extract_original_date
                           c time1 now1 walk d in
  let second := scan_photos IGNORE_FILE_PATTERNS extract_original_date
                            first.1.1 time2 now2 walk first.1.2 in
  second.1.2 = first.1.2 ∧
  ∀ (now : Z) rows (d0 : db real) id r,
    photos d0 !! id = Some r → photos (batch_add_photos now rows d0) !! id = Some r.
Proof.
  intros Hmiss first second. split.
  2: { intros now rows d0. apply batch_add_photos_spec. }
  subst second. set (c1 := first.1.1). set (d1 := first.1.2).
  destruct (get_cached (cached_scan_photos c1) time2) as [v|] eqn:Hsecond.
  { apply scan_photos_hit. by eexists. }
  rewrite (scan_photos_miss c1 time2 now2 walk d1 Hsecond).
  assert (d1 = batch_add_photos now1
                 (new_photos_to_add
                    (scan_walk IGNORE_FILE_PATTERNS extract_original_date
                       (get_processed_photos d) (get_ignored_photos d)
                       (get_all_photo_paths d) walk)) d) as Hd1
    by (apply scan_photos_miss; done).
  set (staged1 := new_photos_to_add _) in Hd1.
  destruct (batch_add_photos_spec now1 staged1 d) as (Hkeep & _ & Hin1 & _).
  rewrite <- Hd1 in Hkeep, Hin1. clearbody d1 c1. clear Hd1 Hsecond.
  apply batch_add_photos_spec.
  intros row (root & files & file & Hwalk & Hfile & Hst)%scan_walk_staged.
  destruct Hst as (Hext & Hign & HP & HI & HE & ->). cbn [fst snd].
  destruct (extract_base_name file) as [bn|] eqn:Hbn; [exfalso|done].
  apply HE.
  destruct (decide (Py.join root file ∈ get_all_photo_paths d)) as [Hold|Hnew].
  { apply get_all_photo_paths_spec in Hold as (id & r & Hr & Hfp).
    apply get_all_photo_paths_spec. exists id, r. split; [by apply Hkeep|done]. }
  apply (Hin1 (Py.join root file, Some bn, determine_file_type file,
               extract_original_date (Py.join root file))); [|by eexists].
  apply scan_walk_staged. exists root, files, file. split_and!; [done|done|].
  rewrite <- Hbn. split_and!; try done.
  - intros (id & r & Hr & Hfp & Hpd)%get_processed_photos_spec. apply HP.
    apply get_processed_photos_spec. exists id, r. split_and!; [by apply Hkeep|done..].
  - intros (id & r & Hr & Hfp & Hpd)%get_ignored_photos_spec. apply HI.
    apply get_ignored_photos_spec. exists id, r. split_and!; [by apply Hkeep|done..].
Qed.

End Scan.

Lemma scan_photos_idempotent_witness :
  let scan c time d :=
    scan_photos (real := Z) ["SYNOFILE_"; ".DS_Store"; "Thumbs.db"] (λ _, None)
                c time time [("/u", ["p_a.jpg"; "new_b.jpg"; "notes.txt"])] d in
  let first := scan empty_cache 100%Z Sample.mixed_catalog in
  let second := scan first.1.1 500%Z first.1.2 in
  size (photos Sample.mixed_catalog) = 2 ∧ size (photos first.1.2) = 3 ∧
  second.1.2 = first.1.2.
Proof.
  split; [vm_compute; reflexivity|]. split; [vm_compute; reflexivity|].
  apply (scan_photos_idempotent (real := Z) ["SYNOFILE_"; ".DS_Store"; "Thumbs.db"]
           (λ _, None) empty_cache 100 500 100 500
           [("/u", ["p_a.jpg"; "new_b.jpg"; "notes.txt"])] Sample.mixed_catalog).
  reflexivity.
Defined.

(** ** Paths *)

Lemma rfind_from_spec (c : ascii) (l : list ascii) (i last : Z) :
  ((c ∉ l) ∧ Py.rfind_from c l i last = last) ∨
  (∃ l1 l2, l = l1 ++ c :: l2 ∧ (c ∉ l2) ∧ Py.rfind_from c l i last = (i + Z.of_nat (length l1))%Z).
Proof.
  revert i last. induction l as [|x l IH]; intros i last; simpl.
  - left. split; [apply not_elem_of_nil|done].
  - destruct (IH (i + 1)%Z (if decide (x = c) then i else last))
      as [[Hn Hr]|(l1 & l2 & -> & Hn & Hr)].
    + destruct (decide (x = c)) as [->|Hx].
      * right. exists [], l. split_and!; [done|done|]. rewrite Hr. simpl. lia.
      * left. split; [|done]. rewrite not_elem_of_cons. naive_solver.
    + right. exists (x :: l1), l2. split_and!; [done|done|]. rewrite Hr. simpl. lia.
Qed.

Lemma rfind_spec (c : ascii) (l : list ascii) :
  ((c ∉ l) ∧ Py.rfind c l = (-1)%Z) ∨
  (∃ l1 l2, l = l1 ++ c :: l2 ∧ (c ∉ l2) ∧ Py.rfind c l = Z.of_nat (length l1)).
Proof.
  unfold Py.rfind. destruct (rfind_from_spec c l 0 (-1)) as [?|(l1 & l2 & ? & ? & Hr)];
    [by left|right]. exists l1, l2. split_and!; [done|done|]. rewrite Hr. lia.
Qed.

Lemma splitext_spec (p s x : string) :
  Py.splitext p = (s, x) →
  Py.chars p = Py.chars s ++ Py.chars x ∧
  (Py.chars x = [] ∨ ∃ x', Py.chars x = "."%char :: x' ∧ "."%char ∉ x').
Proof.
  unfold Py.splitext. intros H.
  assert (Hnil : Py.chars p = Py.chars p ++ Py.chars "" ∧
    (Py.chars "" = [] ∨ ∃ x', Py.chars "" = "."%char :: x' ∧ "."%char ∉ x')).
  { split; [by rewrite app_nil_r|by left]. }
  repeat case_match; simplify_eq; try done.
  rewrite !chars_str, take_drop. split; [done|right].
  destruct (rfind_spec "." (Py.chars p)) as [[_ Hr]|(l1 & l2 & Hl & Hn & Hr)].
  - exfalso. case_bool_decide as Hlt; [|done].
    destruct (rfind_spec "/" (Py.chars p)) as [[_ Hs]|(? & ? & _ & _ & Hs)]; lia.
  - exists l2. rewrite Hr, Nat2Z.id, Hl, drop_app_length. done.
Qed.

Lemma basename_suffix (p : string) : Py.chars (Py.basename p) `suffix_of` Py.chars p.
Proof. unfold Py.basename. rewrite chars_str. apply suffix_drop. Qed.

Lemma join_suffix (a b : string) : Py.chars b `suffix_of` Py.chars (Py.join a b).
Proof.
  unfold Py.join. repeat case_match; [done|..]; rewrite !chars_app.
  - by apply suffix_app_r.
  - by do 2 apply suffix_app_r.
Qed.

(** [str(n)] ends with a digit. *)
Lemma pretty_N_char_digit (x : N) : Re.is_digit (pretty_N_char x) = true.
Proof. by destruct x as [|[[[|[]|]|[[]|[]|]|]|[[|[]|]|[|[]|]|]|]]. Qed.

Lemma pretty_N_go_app (x : N) (s : string) :
  ∃ p, pretty_N_go x s = Py.str p +:+ s.
Proof.
  revert s. induction (N.lt_wf_0 x) as [x _ IH]; intros s.
  destruct (decide (0 < x)%N) as [Hx|Hx].
  - rewrite pretty_N_go_step by done.
    destruct (IH (x `div` 10)%N (N.div_lt x 10 Hx eq_refl) (String (pretty_N_char (x `mod` 10)) s))
      as [p Hp]. rewrite Hp. exists (p ++ [pretty_N_char (x `mod` 10)]).
    apply chars_inj. rewrite !chars_app, !chars_str, <- app_assoc. done.
  - assert (x = 0%N) as -> by lia. rewrite pretty_N_go_0. by exists [].
Qed.

Lemma pretty_N_last (x : N) :
  ∃ l c, Py.chars (pretty x) = l ++ [c] ∧ Re.is_digit c = true.
Proof.
  unfold pretty, pretty_N. case_decide as Hx; [by exists [], "0"%char|].
  rewrite pretty_N_go_step by lia.
  destruct (pretty_N_go_app (x `div` 10) (String (pretty_N_char (x `mod` 10)) "")) as [p ->].
  exists p, (pretty_N_char (x `mod` 10)). rewrite chars_app, chars_str.
  split; [done|apply pretty_N_char_digit].
Qed.

Lemma pretty_Z_last (z : Z) :
  ∃ l c, Py.chars (pretty z) = l ++ [c] ∧ Re.is_digit c = true.
Proof.
  destruct z as [|p|p]; [by exists [], "0"%char|apply pretty_N_last|].
  destruct (pretty_N_last (Npos p)) as (l & c & Hl & Hc).
  exists ("-"%char :: l), c. split; [|done].
  change (pretty (Z.neg p)) with ("-" +:+ pretty (N.pos p)).
  by rewrite chars_app, Hl.
Qed.

Lemma last_suffix {A} (l k : list A) : l ≠ [] → l `suffix_of` k → last k = last l.
Proof.
  intros Hl [q ->]. destruct l as [|x l] using rev_ind; [done|].
  by rewrite app_assoc, !last_snoc.
Qed.

(** The filed name ends as the path of the source does, or with the
    underscore after the date. *)
Lemma base_filename_last (prefix p : string) (c : ascii) :
  last (Py.chars (base_filename prefix (Py.basename p))) = Some c →
  c = "_"%char ∨ last (Py.chars p) = Some c.
Proof.
  pose proof (basename_suffix p) as Hb.
  assert (Hadd : ∀ r, r `suffix_of` Py.chars (Py.basename p) →
            last (Py.chars (prefix +:+ "_" +:+ Py.str r)) = Some c →
            c = "_"%char ∨ last (Py.chars p) = Some c).
  { intros r Hr. rewrite !chars_app, chars_str, app_assoc.
    destruct (decide (r = [])) as [->|Hne].
    - rewrite app_nil_r. change (Py.chars "_") with ["_"%char].
      rewrite last_snoc. intros [= <-]. by left.
    - rewrite last_app. rewrite (last_suffix r (Py.chars p)); [|done|by etrans].
      destruct (last r) eqn:E; [intros [= ->]; by right|].
      by apply last_None in E. }
  unfold base_filename. repeat case_match.
  - intros Hl. right. rewrite (last_suffix (Py.chars (Py.basename p))); [done| |done].
    intros Hnil. by rewrite Hnil in Hl.
  - apply Hadd, suffix_drop.
  - rewrite <- (str_chars (Py.basename p)) at 1. by apply Hadd.
Qed.

(** The time-stamped name is never the name of the backup. *)
Lemma fallback_ne_backup (dir prefix filepath stem ext : string) (z : Z) :
  Py.splitext (base_filename prefix (Py.basename filepath)) = (stem, ext) →
  Py.join dir (stem +:+ "_" +:+ pretty z +:+ ext) ≠ backup_path filepath.
Proof.
  intros Hs Heq. apply splitext_spec in Hs as [HB Hx].
  apply (f_equal Py.chars) in Heq. unfold backup_path in Heq.
  destruct (join_suffix dir (stem +:+ "_" +:+ pretty z +:+ ext)) as [X HX].
  rewrite HX, !chars_app in Heq.
  destruct (pretty_Z_last z) as (T & c & HT & Hc). rewrite HT in Heq.
  change (Py.chars "_") with ["_"%char] in Heq.
  change (Py.chars ".backup") with ("."%char :: Py.chars "backup") in Heq.
  assert (Hp : ∀ l, last (l ++ "."%char :: Py.chars "backup") = Some "p"%char).
  { intros l. by rewrite last_app. }
  destruct Hx as [Hx|(x' & Hx & Hn)]; rewrite Hx in *.
  - apply (f_equal last) in Heq. rewrite Hp, app_nil_r, !app_assoc, last_snoc in Heq.
    by simplify_eq.
  - rewrite !app_assoc in Heq.
    apply not_elem_of_app_cons_inv_r in Heq as (HF & _ & Hx'); [|by vm_compute; set_solver|done].
    pose proof (base_filename_last prefix filepath "p") as Hl.
    rewrite HB, Hx', Hp, <- HF, last_snoc in Hl.
    destruct Hl as [Hl|Hl]; [done|done|]. by simplify_eq.
Qed.

(** ** Transactional correction *)

Section CorrectorProps.

Context {real : Type} (e : env).

Lemma backup_path_ne (p : string) : backup_path p ≠ p.
Proof.
  intros H. apply (f_equal (λ s, length (Py.chars s))) in H.
  unfold backup_path in H. rewrite chars_app, length_app in H. simpl in H. lia.
Qed.

Lemma random_name_fresh (fs : gmap string file) (dir stem ext : string)
    (attempts : list nat) (name : string) :
  random_name e fs dir stem ext attempts = Some name → fs !! name = None.
Proof.
  induction attempts as [|a attempts IH]; simpl; [done|].
  destruct (fs !! Py.join _ _) eqn:E; [apply IH|]. by intros [= <-].
Qed.

Lemma destination_ne_backup (fs : gmap string file) (d : date) (p : string) :
  is_Some (fs !! backup_path p) → destination e fs d p ≠ backup_path p.
Proof.
  intros [f Hf]. unfold destination.
  destruct (fs !! Py.join _ (base_filename _ _)) eqn:E; [|congruence].
  destruct (Py.splitext _) as [stem ext] eqn:Es.
  destruct (random_name _ _ _ _ _ _) as [name|] eqn:Er.
  - apply random_name_fresh in Er. congruence.
  - by eapply fallback_ne_backup.
Qed.

Lemma move_photo_to_processed_keeps_backup (fs fs' : gmap string file)
    (p date new_filepath : string) (f : file) :
  move_photo_to_processed e fs p date = (fs', new_filepath) →
  fs !! backup_path p = Some f → fs' !! backup_path p = Some f.
Proof.
  unfold move_photo_to_processed. intros H Hf.
  repeat case_match; simplify_eq; try done.
  rewrite lookup_insert_ne by (by apply destination_ne_backup).
  rewrite lookup_delete_ne; [done|]. intros Heq. by apply (backup_path_ne p).
Qed.

Lemma restore_from_backup_spec (fs : gmap string file) (p : string) (f : file) :
  fs !! backup_path p = Some f → (restore_from_backup fs p).1 !! p = Some f.
Proof.
  intros Hf. unfold restore_from_backup. rewrite Hf. simpl.
  rewrite lookup_delete_ne by apply backup_path_ne. apply lookup_insert_eq.
Qed.

(** C1.  Whenever [update_photo_date] reports failure, the file at the
    original path is what it was before the call and the catalog is
    untouched.  Either the hash could not be taken, and nothing was
    written at all, or the backup had been made: then the message is
    ["Error updating photo: "] followed by the message of the step that
    raised, which is the parsing of the date, [os.utime], the image
    check, or the catalog update that follows the relocation.
    ([move_photo_to_processed] answers its own errors with the original
    path, so a relocation that fails is not among them.) *)
Theorem update_photo_date_failure_restores (now : Z) (fs fs' : gmap string file)
    (d d' : db real) (filepath new_date msg : string) :
  update_photo_date e now fs d filepath new_date = (fs', d', (false, msg)) →
  fs' !! filepath = fs !! filepath ∧ d' = d ∧
  ((msg = "Could not calculate file hash" ∧ fs' = fs) ∨
   ∃ cause, msg = "Error updating photo: " +:+ cause ∧
     (parse_timestamp e new_date = Raise cause
      ∨ utime_error e filepath = Some cause
      ∨ (∃ bytes, image_verify_error e bytes = Some cause)
      ∨ (∃ err, commit_error e = Some err ∧ cause = error_message err)
      ∨ (∃ new_filepath,
           mark_photo_processed now filepath (Some new_filepath) d = Raise cause))).
Proof.
  unfold update_photo_date, calculate_file_hash, create_backup.
  destruct (fs !! filepath) as [f0|] eqn:Ef; simpl; [|intros [= <- <- <-]; by eauto].
  destruct (String.eqb _ _); simpl; [intros [= <- <- <-]; by eauto|].
  set (fs1 := <[backup_path filepath := f0]> fs).
  assert (H1 : fs1 !! backup_path filepath = Some f0) by apply lookup_insert_eq.
  destruct (parse_timestamp e new_date) as [timestamp|m] eqn:Et.
  2:{ intros [= <- <- <-]. split_and!; [by apply restore_from_backup_spec|done|].
      right. exists m. eauto. }
  destruct (utime_error e filepath) as [m|] eqn:Eu.
  { intros [= <- <- <-]. split_and!; [by apply restore_from_backup_spec|done|].
    right. exists m. eauto. }
  set (fs3 := alter (exif_rewrite e new_date) filepath (alter _ filepath fs1)).
  assert (H3 : fs3 !! backup_path filepath = Some f0).
  { unfold fs3. by rewrite !lookup_alter_ne by (intros Heq; by apply (backup_path_ne filepath)). }
  assert (is_Some (fs3 !! filepath)) as [f3 Ef3].
  { unfold fs3. rewrite !lookup_alter_is_Some. unfold fs1.
    rewrite lookup_insert_ne by apply backup_path_ne. by rewrite Ef. }
  rewrite Ef3.
  destruct (if verify_file_integrity _ _ _ _ then _ else _) as [m|] eqn:Ev.
  { intros [= <- <- <-]. split_and!; [by apply restore_from_backup_spec|done|].
    right. exists m. split; [done|]. do 2 right. left.
    destruct (verify_file_integrity _ _ _ _); [done|]. eauto. }
  destruct (move_photo_to_processed e fs3 filepath new_date) as [fs4 new_filepath] eqn:Em.
  pose proof (move_photo_to_processed_keeps_backup _ _ _ _ _ _ Em H3) as H4.
  destruct (commit_error e) as [err|] eqn:Ec.
  { intros [= <- <- <-]. split_and!; [by apply restore_from_backup_spec|done|].
    right. exists (error_message err). split; [done|]. do 3 right. left. eauto. }
  destruct (mark_photo_processed _ _ _ _) as [[d1 b]|m] eqn:Ek; [done|].
  intros [= <- <- <-]. split_and!; [by apply restore_from_backup_spec|done|].
  right. exists m. split; [done|]. do 4 right. eauto.
Qed.

End CorrectorProps.

Lemma update_photo_date_failure_restores_witness :
  let r := update_photo_date (real := Z) Sample.world 0 Sample.disk Sample.catalog
                             "/u/x_a.jpg" "2024-01-05" in
  r.2 = (false, "Error updating photo: cannot identify image file") ∧
  r.1.1 !! "/u/x_a.jpg" = Some (File "scan of the front" 0).
Proof.
  split; [vm_compute; reflexivity|].
  refine (proj1 (update_photo_date_failure_restores (real := Z) Sample.world 0 Sample.disk _
                   Sample.catalog _ "/u/x_a.jpg" "2024-01-05" _ _)).
  vm_compute. reflexivity.
Defined.

(** ** Relocation *)

Section Relocation.

Context (e : env).

(** The destination is free, unless all hundred random names were taken. *)
Lemma destination_fresh (fs : gmap string file) (d : date) (p : string) :
  fs !! destination e fs d p = None ∨
  ∃ stem ext,
    Py.splitext (base_filename (date_prefix d) (Py.basename p)) = (stem, ext) ∧
    random_name e fs (Py.join (Py.join (PROCESSED_DIR e) (year d)) (month d))
                stem ext (seq 0 100) = None ∧
    destination e fs d p =
      Py.join (Py.join (Py.join (PROCESSED_DIR e) (year d)) (month d))
              (stem +:+ "_" +:+ pretty (time_ms e) +:+ ext).
Proof.
  unfold destination.
  destruct (fs !! Py.join _ (base_filename _ _)) eqn:E; [|by left].
  destruct (Py.splitext _) as [stem ext] eqn:Es.
  destruct (random_name _ _ _ _ _ _) as [name|] eqn:Er.
  - left. by apply random_name_fresh in Er.
  - right. by exists stem, ext.
Qed.

(** Files other than the source and the destination are not touched. *)
Lemma move_photo_to_processed_frame (fs fs' : gmap string file)
    (filepath date new_filepath q : string) :
  move_photo_to_processed e fs filepath date = (fs', new_filepath) →
  q ≠ filepath → q ≠ new_filepath → fs' !! q = fs !! q.
Proof.
  unfold move_photo_to_processed. intros H Hq Hn.
  repeat case_match; simplify_eq; try done.
  by rewrite lookup_insert_ne, lookup_delete_ne.
Qed.

(** With one of the hundred and one checked names free, nothing that
    was on the disk besides the source changes. *)
Lemma move_photo_to_processed_checked (fs fs' : gmap string file) (d : date)
    (filepath date new_filepath q : string) :
  strptime e date = Ok d →
  fs !! destination e fs d filepath = None →
  move_photo_to_processed e fs filepath date = (fs', new_filepath) →
  q ≠ filepath → is_Some (fs !! q) → fs' !! q = fs !! q.
Proof.
  intros Hd Hfree Hm Hq [f Hf]. eapply move_photo_to_processed_frame; [done..|].
  intros ->. unfold move_photo_to_processed in Hm. rewrite Hd in Hm.
  repeat case_match; simplify_eq.
Qed.

End Relocation.

(** C2.  [move_photo_to_processed] replaces an existing file: with the
    plain destination taken and every random name taken as well, the
    time-stamped name is used without looking whether it exists, and
    the file that was there is lost to the moved one. *)
Theorem move_photo_to_processed_overwrites :
  let taken := "/p/2024/01/2024-01-05_x_a_1700000000000.jpg" in
  let r := move_photo_to_processed Sample.world Sample.disk "/u/x_a.jpg" "2024-01-05" in
  Sample.disk !! taken = Some (File "third" 3) ∧
  r.2 = taken ∧
  r.1 !! taken = Some (File "scan of the front" 0).
Proof. vm_compute. done. Qed.

Lemma NoDup_fmap_inj_on {A B} (f : A → B) (l : list A) (x y : A) :
  NoDup (f <$> l) → x ∈ l → y ∈ l → f x = f y → x = y.
Proof.
  induction l as [|a l IH]; simpl; [by intros _ ?%elem_of_nil|].
  intros [Hn Hnd]%NoDup_cons [->|Hx]%elem_of_cons [->|Hy]%elem_of_cons Hf; [done|..].
  - exfalso. apply Hn. rewrite Hf. apply list_elem_of_fmap. eauto.
  - exfalso. apply Hn. rewrite <- Hf. apply list_elem_of_fmap. eauto.
  - by apply IH.
Qed.

(** ** Catalog queries and updates *)

Section CatalogQueries.
Context {real : Type}.
Implicit Types d : db real.

(** Uniqueness of paths, row by row. *)
Lemma unique_paths_spec d :
  unique_paths d ↔
  ∀ id1 id2 r1 r2,
    photos d !! id1 = Some r1 → photos d !! id2 = Some r2 →
    filepath r1 = filepath r2 → id1 = id2.
Proof.
  unfold unique_paths, get_all_photo_paths. split.
  - intros Hnd id1 id2 r1 r2 H1%elem_of_map_to_list H2%elem_of_map_to_list Hfp.
    by pose proof (NoDup_fmap_inj_on _ _ _ _ Hnd H1 H2 Hfp) as [= -> _].
  - intros Hu. apply NoDup_fmap_2_strong; [|apply NoDup_map_to_list].
    intros [i1 r1] [i2 r2] H1%elem_of_map_to_list H2%elem_of_map_to_list Hfp.
    simpl in Hfp. assert (i1 = i2) as -> by by eapply Hu. congruence.
Qed.

(** X1.  The reconciliation pass is idempotent: when the photos whose
    file is missing are no more than SQLite accepts as parameters of
    one statement, the pass succeeds, and run again on its own result,
    with the same files on disk, it finds no missing photo, returns 0
    and leaves the catalog as it is. *)
Theorem cleanup_missing_photos_idempotent (max_variables : nat)
    (exists_on_disk : string → bool) d :
  size (filter (λ kv, exists_on_disk (filepath kv.2) = false) (photos d))
    ≤ max_variables →
  ∃ d1 n,
    cleanup_missing_photos max_variables exists_on_disk d = Ok (d1, n) ∧
    cleanup_missing_photos max_variables exists_on_disk d1 = Ok (d1, 0).
Proof.
  intros Hlen. rewrite size_filter_list in Hlen.
  eexists _, _. split.
  { apply cleanup_missing_photos_within. by rewrite length_fmap. }
  set (missing := (filter _ (map_to_list (photos d))).*1).
  set (d1 := Db _ _ _ _ _ _ _ _).
  assert (Hkeep : ∀ id r, photos d1 !! id = Some r →
                          exists_on_disk (filepath r) = true).
  { intros id r. subst d1. simpl.
    intros [Hr Hn]%map_lookup_filter_Some. simpl in Hn.
    destruct (exists_on_disk (filepath r)) eqn:Ex; [done|]. exfalso. apply Hn.
    apply missing_ids_spec. unfold is_missing. by rewrite Hr, Ex. }
  unfold cleanup_missing_photos.
  assert ((filter (λ kv : Z * photo, exists_on_disk (filepath kv.2) = false)
                  (map_to_list (photos d1))).*1 = []) as ->; [|done].
  apply elem_of_nil_inv. intros id Hin%missing_ids_spec. unfold is_missing in Hin.
  destruct (photos d1 !! id) as [r|] eqn:Hr; [|done].
  by rewrite (Hkeep _ _ Hr) in Hin.
Qed.

Lemma mark_photo_ignored_lookup (now : Z) (fp : string) d (id : Z) :
  photos (mark_photo_ignored now fp d) !! id
  = (λ r, if bool_decide (filepath r = fp)
          then Photo (filepath r) (base_name r) (file_type r) (default_date r)
                     (processed_date r) (Some now) (created_at r) now
          else r) <$> photos d !! id.
Proof. unfold mark_photo_ignored. simpl. by rewrite lookup_fmap. Qed.

(** X2.  [mark_photo_ignored] changes no path and no processed
    timestamp: the catalog lists the same paths and the same processed
    paths as before, the ignored paths are the former ones and, when
    the catalog knows it, the given path.  For a path the catalog does
    not know, nothing changes at all. *)
Theorem mark_photo_ignored_listings (now : Z) (fp : string) d :
  let d' := mark_photo_ignored now fp d in
  (∀ p, p ∈ get_all_photo_paths d' ↔ p ∈ get_all_photo_paths d) ∧
  (∀ p, p ∈ get_processed_photos d' ↔ p ∈ get_processed_photos d) ∧
  (∀ p, p ∈ get_ignored_photos d'
        ↔ p ∈ get_ignored_photos d ∨ (p = fp ∧ fp ∈ get_all_photo_paths d)) ∧
  (fp ∉ get_all_photo_paths d → d' = d).
Proof.
  intros d'. subst d'. split_and!.
  - intros p. rewrite !get_all_photo_paths_spec. split.
    + intros (id & r & Hr & Hp). rewrite mark_photo_ignored_lookup in Hr.
      destruct (photos d !! id) as [r0|] eqn:E; [|done]. simpl in Hr.
      exists id, r0. split; [done|]. case_bool_decide; by simplify_eq/=.
    + intros (id & r & Hr & Hp). eexists id, _.
      rewrite mark_photo_ignored_lookup, Hr. simpl. split; [done|].
      by case_bool_decide.
  - intros p. rewrite !get_processed_photos_spec. split.
    + intros (id & r & Hr & Hp & Hd). rewrite mark_photo_ignored_lookup in Hr.
      destruct (photos d !! id) as [r0|] eqn:E; [|done]. simpl in Hr.
      exists id, r0. split; [done|]. case_bool_decide; by simplify_eq/=.
    + intros (id & r & Hr & Hp & Hd). eexists id, _.
      rewrite mark_photo_ignored_lookup, Hr. simpl. split; [done|].
      by case_bool_decide.
  - intros p. rewrite !get_ignored_photos_spec, get_all_photo_paths_spec. split.
    + intros (id & r & Hr & Hp & Hd). rewrite mark_photo_ignored_lookup in Hr.
      destruct (photos d !! id) as [r0|] eqn:E; [|done]. simpl in Hr.
      case_bool_decide; simplify_eq/=; [right|left]; eauto 6.
    + intros [(id & r & Hr & Hp & Hd)|[-> (id & r & Hr & Hp)]]; eexists id, _;
        rewrite mark_photo_ignored_lookup, Hr; simpl;
        (split; [done|]); by case_bool_decide.
  - intros Hn. unfold mark_photo_ignored.
    assert (((λ r, if bool_decide (filepath r = fp)
           then Photo (filepath r) (base_name r) (file_type r) (default_date r)
                      (processed_date r) (Some now) (created_at r) now
           else r) <$> photos d) = photos d) as ->; [|by destruct d].
    apply map_eq. intros id. rewrite lookup_fmap.
    destruct (photos d !! id) as [r|] eqn:E; [|done]. simpl.
    case_bool_decide as Hfp; [|done]. exfalso. apply Hn.
    apply get_all_photo_paths_spec. eauto.
Qed.

Lemma select_unprocessed_elem d (r : photo) :
  r ∈ select_unprocessed d ↔
  ∃ id, photos d !! id = Some r ∧ processed_date r = None ∧ ignored_date r = None.
Proof.
  unfold select_unprocessed. rewrite merge_sort_Permutation, list_elem_of_filter.
  rewrite list_elem_of_fmap. split.
  - intros [[??] ([id r'] & -> & Hin%elem_of_map_to_list)]. by exists id.
  - intros (id & Hr & ? & ?). split; [done|]. exists (id, r).
    split; [done|]. by apply elem_of_map_to_list.
Qed.

(** X3.  The three listings cover the catalog: a path is in the
    catalog exactly when it is listed as processed, as ignored, or is
    the path of a row of the unprocessed selection.  With unique paths,
    a path of the unprocessed selection is listed neither as processed
    nor as ignored. *)
Theorem listings_cover_catalog d (p : string) :
  (p ∈ get_all_photo_paths d
   ↔ p ∈ get_processed_photos d ∨ p ∈ get_ignored_photos d
     ∨ p ∈ filepath <$> select_unprocessed d) ∧
  (unique_paths d → p ∈ filepath <$> select_unprocessed d →
   p ∉ get_processed_photos d ∧ p ∉ get_ignored_photos d).
Proof.
  rewrite get_all_photo_paths_spec, get_processed_photos_spec,
    get_ignored_photos_spec, list_elem_of_fmap.
  setoid_rewrite select_unprocessed_elem. split.
  - split.
    + intros (id & r & Hr & Hp).
      destruct (processed_date r) eqn:E1; [left; exists id, r; by rewrite E1|].
      destruct (ignored_date r) eqn:E2; [right; left; exists id, r; by rewrite E2|].
      right; right. exists r. eauto.
    + intros [(id & r & ? & ? & _)|[(id & r & ? & ? & _)|(r & -> & id & ? & _)]]; eauto.
  - intros Hu (r & -> & id & Hr & Hp & Hi).
    pose proof (proj1 (unique_paths_spec d) Hu) as Hu'. clear Hu. rename Hu' into Hu.
    split.
    + intros (id' & r' & Hr' & Hfp & Hne).
      assert (id' = id) as -> by by eapply Hu. by simplify_eq.
    + intros (id' & r' & Hr' & Hfp & Hne).
      assert (id' = id) as -> by by eapply Hu. by simplify_eq.
Qed.

Lemma photos_with_path_elem (fp : string) d (id : Z) (r : photo) :
  (id, r) ∈ photos_with_path fp d ↔ photos d !! id = Some r ∧ filepath r = fp.
Proof.
  unfold photos_with_path. rewrite list_elem_of_filter, elem_of_map_to_list. simpl.
  tauto.
Qed.

Lemma photos_with_path_nil (fp : string) d :
  photos_with_path fp d = [] ↔ fp ∉ get_all_photo_paths d.
Proof.
  rewrite get_all_photo_paths_spec. split.
  - intros Hnil (id & r & Hr & Hfp).
    assert ((id, r) ∈ photos_with_path fp d) as Hin by by apply photos_with_path_elem.
    rewrite Hnil in Hin. by apply elem_of_nil in Hin.
  - intros Hn. apply elem_of_nil_inv. intros [id r] [??]%photos_with_path_elem.
    apply Hn. eauto.
Qed.

Lemma photos_with_path_unique (fp : string) d :
  unique_paths d → length (photos_with_path fp d) ≤ 1.
Proof.
  intros Hu'. pose proof (proj1 (unique_paths_spec d) Hu') as Hu.
  assert (NoDup (photos_with_path fp d)) as Hnd.
  { unfold photos_with_path. apply NoDup_filter, NoDup_map_to_list. }
  destruct (photos_with_path fp d) as [|[i1 r1] [|[i2 r2] l]] eqn:E; simpl; [lia..|].
  exfalso.
  assert ((i1, r1) ∈ photos_with_path fp d) as [H1 F1]%photos_with_path_elem
    by (rewrite E; set_solver).
  assert ((i2, r2) ∈ photos_with_path fp d) as [H2 F2]%photos_with_path_elem
    by (rewrite E; set_solver).
  assert (i1 = i2) as -> by (eapply Hu; [done..|congruence]).
  assert (r1 = r2) as -> by congruence.
  apply NoDup_cons in Hnd as [Hnd _]. apply Hnd. set_solver.
Qed.

Lemma mark_photo_processed_lookup (now : Z) (old : string) (new : option string)
    d d' (b : bool) (id : Z) :
  mark_photo_processed now old new d = Ok (d', b) →
  photos d' !! id
  = (λ r, if bool_decide (filepath r = old)
          then Photo (if Py.truthy new then default old new else old)
                     (base_name r) (file_type r) (default_date r)
                     (Some now) (ignored_date r) (created_at r) now
          else r) <$> photos d !! id.
Proof.
  unfold mark_photo_processed. case_bool_decide; [done|].
  intros [= <- <-]. simpl. by rewrite lookup_fmap.
Qed.

(** X4.  [mark_photo_processed] on a path the catalog does not hold
    updates no row: it answers [False] and the catalog is unchanged. *)
Theorem mark_photo_processed_unknown (now : Z) (old : string) (new : option string) d :
  old ∉ get_all_photo_paths d →
  mark_photo_processed now old new d = Ok (d, false).
Proof.
  intros Hn. pose proof Hn as Hnil%photos_with_path_nil.
  unfold mark_photo_processed. rewrite Hnil.
  rewrite bool_decide_eq_false_2 by naive_solver.
  rewrite (bool_decide_eq_false_2 ([] ≠ [])) by naive_solver.
  f_equal. f_equal.
  match goal with |- set_photos d (?f <$> _) _ = _ =>
    assert (f <$> photos d = photos d) as ->; [|by destruct d] end.
  apply map_eq. intros id. rewrite lookup_fmap.
  destruct (photos d !! id) as [r|] eqn:E; [|done]. simpl.
  case_bool_decide as Hfp; [|done]. exfalso. apply Hn.
  apply get_all_photo_paths_spec. eauto.
Qed.

(** X5.  [mark_photo_processed] with a new path that no row holds
    succeeds on a catalogued photo: the row keeps its id, base name,
    role, default date and ignored timestamp, takes the new path and
    the processed timestamp; paths stay unique, the new path is listed
    as processed and the old path is no longer in the catalog. *)
Theorem mark_photo_processed_moves (now : Z) (new : string) d (id : Z) (r : photo) :
  unique_paths d → photos d !! id = Some r →
  new ≠ "" → new ∉ get_all_photo_paths d →
  ∃ d', mark_photo_processed now (filepath r) (Some new) d = Ok (d', true) ∧
    photos d' = <[id := Photo new (base_name r) (file_type r) (default_date r)
                              (Some now) (ignored_date r) (created_at r) now]> (photos d) ∧
    unique_paths d' ∧
    new ∈ get_processed_photos d' ∧
    filepath r ∉ get_all_photo_paths d'.
Proof.
  intros Hu' Hr Hne Hfresh. pose proof (proj1 (unique_paths_spec d) Hu') as Hu.
  assert (Hold : filepath r ≠ new).
  { intros <-. apply Hfresh, get_all_photo_paths_spec. eauto. }
  assert ((id, r) ∈ photos_with_path (filepath r) d) as Hin
    by by apply photos_with_path_elem.
  pose proof (photos_with_path_unique (filepath r) d Hu') as Hlen.
  pose proof Hfresh as Hnil%photos_with_path_nil.
  destruct (mark_photo_processed now (filepath r) (Some new) d) as [[d' b]|msg] eqn:E.
  2:{ exfalso. unfold mark_photo_processed in E.
      case_bool_decide as Hc; [|done].
      assert (Py.truthy (Some new) = true) as Ht by by apply truthy_Some.
      rewrite Ht in Hc. simpl in Hc. destruct Hc as (_ & _ & [Hc|Hc]); [done|lia]. }
  assert (b = true) as ->.
  { unfold mark_photo_processed in E. case_bool_decide; [done|].
    injection E as _ <-. apply bool_decide_eq_true. intros Hnil'.
    rewrite Hnil' in Hin. by apply elem_of_nil in Hin. }
  assert (Hl : ∀ k, photos d' !! k
     = (<[id := Photo new (base_name r) (file_type r) (default_date r)
                      (Some now) (ignored_date r) (created_at r) now]> (photos d)) !! k).
  { intros k. rewrite (mark_photo_processed_lookup _ _ _ _ _ _ k E).
    assert (Py.truthy (Some new) = true) as -> by by apply truthy_Some. simpl.
    destruct (decide (k = id)) as [->|Hk].
    - rewrite lookup_insert_eq, Hr. simpl. by rewrite bool_decide_eq_true_2.
    - rewrite lookup_insert_ne by done.
      destruct (photos d !! k) as [r'|] eqn:Ek; [|done]. simpl.
      case_bool_decide as Hfp; [|done]. exfalso. apply Hk. by eapply Hu. }
  exists d'. split; [done|]. split; [by apply map_eq|].
  assert (Hpaths : ∀ k r', photos d' !! k = Some r' →
            (k = id ∧ filepath r' = new) ∨ (k ≠ id ∧ photos d !! k = Some r')).
  { intros k r'. rewrite Hl. destruct (decide (k = id)) as [->|Hk].
    - rewrite lookup_insert_eq. intros [= <-]. by left.
    - rewrite lookup_insert_ne by done. by right. }
  split_and!.
  - apply unique_paths_spec. intros k1 k2 r1 r2 H1 H2 Hfp.
    destruct (Hpaths _ _ H1) as [[-> F1]|[N1 G1]];
      destruct (Hpaths _ _ H2) as [[-> F2]|[N2 G2]]; [done|..].
    + exfalso. apply Hfresh, get_all_photo_paths_spec. exists k2, r2.
      split; [done|congruence].
    + exfalso. apply Hfresh, get_all_photo_paths_spec. exists k1, r1.
      split; [done|congruence].
    + by eapply Hu.
  - apply get_processed_photos_spec. eexists id, _. rewrite Hl, lookup_insert_eq.
    by split_and!.
  - intros (k & r' & Hk & Hfp)%get_all_photo_paths_spec.
    destruct (Hpaths _ _ Hk) as [[-> F1]|[N1 G1]]; [congruence|].
    apply N1. by eapply Hu.
Qed.

(** X6.  [mark_photo_processed] cannot give a photo the path of
    another row: the [UPDATE] fails on the [UNIQUE] column and the
    call raises. *)
Theorem mark_photo_processed_clash (now : Z) d (id id' : Z) (r r' : photo) :
  photos d !! id = Some r → photos d !! id' = Some r' →
  filepath r' ≠ filepath r → filepath r' ≠ "" →
  mark_photo_processed now (filepath r) (Some (filepath r')) d
  = Raise "UNIQUE constraint failed: photos.filepath".
Proof.
  intros Hr Hr' Hne Hnon. unfold mark_photo_processed.
  assert (Py.truthy (Some (filepath r')) = true) as -> by by apply truthy_Some.
  simpl. rewrite bool_decide_eq_true_2; [done|].
  assert ((id, r) ∈ photos_with_path (filepath r) d) as Hin
    by by apply photos_with_path_elem.
  assert ((id', r') ∈ photos_with_path (filepath r') d) as Hin'
    by by apply photos_with_path_elem.
  split_and!; [|done|left]; intros Hnil.
  - rewrite Hnil in Hin. by apply elem_of_nil in Hin.
  - rewrite Hnil in Hin'. by apply elem_of_nil in Hin'.
Qed.

End CatalogQueries.

Lemma cleanup_missing_photos_idempotent_witness :
  ∃ d1,
    cleanup_missing_photos 999 (λ fp, bool_decide (fp = "/u/x.jpg")) Sample.catalog
    = Ok (d1, 1) ∧
    cleanup_missing_photos 999 (λ fp, bool_decide (fp = "/u/x.jpg")) d1 = Ok (d1, 0).
Proof.
  destruct (cleanup_missing_photos_idempotent (real := Z) 999
              (λ fp, bool_decide (fp = "/u/x.jpg")) Sample.catalog)
    as (d1 & n & Hfirst & Hsecond).
  { vm_compute. lia. }
  exists d1. split; [|exact Hsecond].
  rewrite Hfirst. vm_compute in Hfirst. by injection Hfirst as _ <-.
Defined.

Lemma mark_photo_processed_unknown_witness :
  mark_photo_processed 9 "/u/gone.jpg" (Some "/p/2024/01/2024-01-05_gone.jpg")
                       Sample.mixed_catalog
  = Ok (Sample.mixed_catalog, false).
Proof.
  apply mark_photo_processed_unknown.
  apply (bool_decide_unpack _). vm_compute. exact I.
Defined.

Lemma mark_photo_processed_moves_witness :
  ∃ d', mark_photo_processed 9 "/u/p_a.jpg" (Some "/p/2024/01/2024-01-05_p_a.jpg")
                             Sample.mixed_catalog = Ok (d', true) ∧
        get_processed_photos d' = ["/p/2024/01/2024-01-05_p_a.jpg"].
Proof.
  destruct (mark_photo_processed_moves (real := Z) 9 "/p/2024/01/2024-01-05_p_a.jpg"
              Sample.mixed_catalog 1 (Sample.unprocessed "/u/p_a.jpg" "p" "front"))
    as (d' & Hd' & _); [..|exists d'; split; [exact Hd'|]].
  - apply (bool_decide_unpack _). vm_compute. exact I.
  - reflexivity.
  - discriminate.
  - apply (bool_decide_unpack _). vm_compute. exact I.
  - vm_compute in Hd'. injection Hd' as <-. vm_compute. reflexivity.
Defined.

Lemma mark_photo_processed_clash_witness :
  mark_photo_processed 9 "/u/p_a.jpg" (Some "/u/q.jpg") Sample.mixed_catalog
  = Raise "UNIQUE constraint failed: photos.filepath".
Proof.
  apply (mark_photo_processed_clash (real := Z) 9 Sample.mixed_catalog 1 2
           (Sample.unprocessed "/u/p_a.jpg" "p" "front")
           (Sample.unprocessed "/u/q.jpg" "q" "variant")); [reflexivity..|discriminate|discriminate].
Defined.

(** ** What the catalog operations keep *)

Section CatalogInvariants.
Context {real : Type}.
Implicit Types d : db real.

Lemma insert_or_ignore_photo_unique (now : Z) row d :
  unique_paths d → unique_paths (insert_or_ignore_photo now row d).
Proof.
  intros Hu'. pose proof (proj1 (unique_paths_spec d) Hu') as Hu.
  destruct row as [[[fp bn] ft] dd]. simpl. destruct bn as [bn|]; [|done].
  case_bool_decide as Hin; [done|]. apply unique_paths_spec. simpl.
  set (id := next_rowid (photos_seq d) (photos d)).
  assert (Hfresh : photos d !! id = None) by apply next_rowid_fresh.
  intros k1 k2 r1 r2.
  destruct (decide (k1 = id)) as [->|N1]; destruct (decide (k2 = id)) as [->|N2];
    [done|..]; rewrite ?lookup_insert_eq, ?lookup_insert_ne by done.
  - intros [= <-] H2 Hfp. simpl in Hfp. exfalso. apply Hin.
    apply get_all_photo_paths_spec. eauto.
  - intros H1 [= <-] Hfp. simpl in Hfp. exfalso. apply Hin.
    apply get_all_photo_paths_spec. eauto.
  - apply Hu.
Qed.

(** X7.  [batch_add_photos] keeps the paths of the catalog unique,
    whatever rows it is given: a row whose path is already held, by the
    catalog or by an earlier row of the batch, is skipped. *)
Theorem batch_add_photos_unique (now : Z)
    (rows : list (string * option string * string * option string)) d :
  unique_paths d → unique_paths (batch_add_photos now rows d).
Proof.
  unfold batch_add_photos. revert d. induction rows as [|row rows IH]; intros d Hu;
    simpl; [done|]. by apply IH, insert_or_ignore_photo_unique.
Qed.

(** X8.  [add_photo] on a catalog with unique paths: the returned id
    was not in use and now holds the row as written, with no processed
    and no ignored timestamp; it is the only row with that path, rows
    with other paths are as before, paths stay unique, and the path is
    listed neither as processed nor as ignored afterwards (a photo
    that is added again loses its lifecycle state). *)
Theorem add_photo_replaces (now : Z) (fp bn ft : string) (dd : option string) d :
  unique_paths d →
  let d' := (add_photo now fp bn ft dd d).1 in
  let id := (add_photo now fp bn ft dd d).2 in
  unique_paths d' ∧
  photos d !! id = None ∧
  photos d' !! id = Some (Photo fp bn ft dd None None now now) ∧
  (∀ k r, photos d' !! k = Some r → filepath r = fp → k = id) ∧
  (∀ k r, filepath r ≠ fp → photos d' !! k = Some r ↔ photos d !! k = Some r) ∧
  (fp ∉ get_processed_photos d') ∧ (fp ∉ get_ignored_photos d').
Proof.
  intros Hu'. pose proof (proj1 (unique_paths_spec d) Hu') as Hu.
  unfold add_photo. simpl.
  set (id := next_rowid (photos_seq d) (photos d)).
  assert (Hfresh : photos d !! id = None) by apply next_rowid_fresh.
  assert (Hl : ∀ k r,
    (<[id := Photo fp bn ft dd None None now now]>
       (filter (λ kv : Z * photo, filepath kv.2 ≠ fp) (photos d))) !! k = Some r
    ↔ (k = id ∧ r = Photo fp bn ft dd None None now now)
      ∨ (k ≠ id ∧ photos d !! k = Some r ∧ filepath r ≠ fp)).
  { intros k r. destruct (decide (k = id)) as [->|Hk].
    - rewrite lookup_insert_eq. naive_solver.
    - rewrite lookup_insert_ne by done. rewrite map_lookup_filter_Some. simpl.
      naive_solver. }
  split_and!.
  - apply unique_paths_spec. simpl. intros k1 k2 r1 r2.
    rewrite !Hl. intros [[-> ->]|(N1 & H1 & F1)] [[-> ->]|(N2 & H2 & F2)] Hfp;
      simpl in *; [done|congruence|congruence|by eapply Hu].
  - done.
  - apply lookup_insert_eq.
  - intros k r [[-> ->]|(N1 & H1 & F1)]%Hl Hfp; [done|congruence].
  - intros k r Hfp. rewrite Hl. split.
    + intros [[-> ->]|(N1 & H1 & F1)]; [done|done].
    + intros Hk. right. split_and!; [|done|done]. intros ->. congruence.
  - intros (k & r & [[-> ->]|(N1 & H1 & F1)]%Hl & Hfp & Hp)%get_processed_photos_spec;
      [done|congruence].
  - intros (k & r & [[-> ->]|(N1 & H1 & F1)]%Hl & Hfp & Hp)%get_ignored_photos_spec;
      [done|congruence].
Qed.

(** X9.  [add_photo_to_group] answers [True] exactly when the catalog
    holds the path; for a path it does not hold, nothing is written. *)
Theorem add_photo_to_group_result (now : Z) (fp : string) (gid : Z)
    (score : option real) d :
  ((add_photo_to_group now fp gid score d).2 = true ↔ fp ∈ get_all_photo_paths d) ∧
  (fp ∉ get_all_photo_paths d → (add_photo_to_group now fp gid score d).1 = d).
Proof.
  pose proof (photos_with_path_nil fp d) as Hnil. unfold add_photo_to_group.
  destruct (photos_with_path fp d) as [|[pid r] l] eqn:E; simpl.
  - split; [|done]. split; [done|]. intros Hin. by apply Hnil in Hin.
  - assert (fp ∈ get_all_photo_paths d) as Hin.
    { destruct (decide (fp ∈ get_all_photo_paths d)) as [|Hn]; [done|].
      by apply Hnil in Hn. }
    split; [done|]. intros Hn. by destruct Hn.
Qed.

(** X10.  [add_photo_to_group] for a catalogued photo answers [True]
    and leaves exactly one member row for the photo in the group, a
    new row with the given score; member rows of other (photo, group)
    pairs, the photos and the groups are as before.  The group id is
    not looked up. *)
Theorem add_photo_to_group_replaces (now : Z) (gid : Z) (score : option real)
    d (pid : Z) (r : photo) :
  unique_paths d → photos d !! pid = Some r →
  let d' := (add_photo_to_group now (filepath r) gid score d).1 in
  (add_photo_to_group now (filepath r) gid score d).2 = true ∧
  photos d' = photos d ∧ photo_groups d' = photo_groups d ∧
  (∃ k, photo_group_members d' !! k = Some (GroupMember pid gid score now) ∧
        photo_group_members d !! k = None ∧
        ∀ k' m, photo_group_members d' !! k' = Some m →
                gm_photo_id m = pid → gm_group_id m = gid → k' = k) ∧
  (∀ k m, ¬ (gm_photo_id m = pid ∧ gm_group_id m = gid) →
          photo_group_members d' !! k = Some m ↔ photo_group_members d !! k = Some m).
Proof.
  intros Hu' Hr. pose proof (proj1 (unique_paths_spec d) Hu') as Hu.
  unfold add_photo_to_group.
  destruct (photos_with_path (filepath r) d) as [|[pid' r'] l] eqn:E.
  { exfalso. assert ((pid, r) ∈ photos_with_path (filepath r) d) as Hin
      by by apply photos_with_path_elem.
    rewrite E in Hin. by apply elem_of_nil in Hin. }
  assert ((pid', r') ∈ photos_with_path (filepath r) d) as [Hr' Hfp]%photos_with_path_elem
    by (rewrite E; set_solver).
  assert (pid' = pid) as -> by by eapply Hu.
  simpl. set (id := next_rowid (photo_group_members_seq d) (photo_group_members d)).
  assert (Hfresh : photo_group_members d !! id = None) by apply next_rowid_fresh.
  split_and!; [done..| |].
  - exists id. split_and!; [apply lookup_insert_eq|done|].
    intros k' m. destruct (decide (k' = id)) as [->|Hk]; [done|].
    rewrite lookup_insert_ne by done. rewrite map_lookup_filter_Some. simpl.
    naive_solver.
  - intros k m Hm. destruct (decide (k = id)) as [->|Hk].
    + rewrite lookup_insert_eq, Hfresh. split; [|done]. intros [= <-]. naive_solver.
    + rewrite lookup_insert_ne by done. rewrite map_lookup_filter_Some. simpl.
      naive_solver.
Qed.

End CatalogInvariants.

(** X11.  [execute_with_retry] hides a transient lock: when the
    database is locked on the first [k] attempts ([k < 3]) and free on
    the next one, the operation's result is returned. *)
Theorem execute_with_retry_recovers {A} (fault : nat → option operational_error)
    (operation_func : A) (k : nat) :
  k < 3 → (∀ attempt, attempt < k → fault attempt = Some DatabaseIsLocked) →
  fault k = None →
  execute_with_retry fault operation_func = Ok operation_func.
Proof.
  intros Hk Hlocked Hfree. unfold execute_with_retry. simpl.
  destruct k as [|[|[|k]]]; [| | |lia].
  - by rewrite Hfree.
  - by rewrite (Hlocked 0), Hfree by lia.
  - by rewrite (Hlocked 0), (Hlocked 1), Hfree by lia.
Qed.

(** X12.  [execute_with_retry] gives up after three attempts: a
    database that is locked each time makes the third attempt's error
    surface. *)
Theorem execute_with_retry_gives_up {A} (fault : nat → option operational_error)
    (operation_func : A) :
  (∀ attempt, attempt < 3 → fault attempt = Some DatabaseIsLocked) →
  execute_with_retry fault operation_func = Raise "database is locked".
Proof.
  intros Hlocked. unfold execute_with_retry. simpl.
  by rewrite (Hlocked 0), (Hlocked 1), (Hlocked 2) by lia.
Qed.

Lemma batch_add_photos_unique_witness :
  unique_paths
    (batch_add_photos 5 [("/u/p_a.jpg", Some "p", "front", None);
                         ("/u/new_b.jpg", Some "new", "back", None);
                         ("/u/new_b.jpg", Some "new", "back", None)]
                      Sample.mixed_catalog).
Proof.
  apply batch_add_photos_unique.
  apply (bool_decide_unpack _). vm_compute. exact I.
Defined.

Lemma add_photo_replaces_witness :
  let r := add_photo 9 "/u/x_a.jpg" "x" "front" None Sample.processed_catalog in
  r.2 = 5%Z ∧ get_processed_photos Sample.processed_catalog = ["/u/x_a.jpg"] ∧
  ("/u/x_a.jpg" ∉ get_processed_photos r.1).
Proof.
  split; [reflexivity|]. split; [vm_compute; reflexivity|].
  refine (proj1 (proj2 (proj2 (proj2 (proj2 (proj2
    (add_photo_replaces (real := Z) 9 "/u/x_a.jpg" "x" "front" None
                        Sample.processed_catalog _))))))).
  apply (bool_decide_unpack _). vm_compute. exact I.
Defined.

Lemma add_photo_to_group_result_witness :
  add_photo_to_group 9 "/u/gone.jpg" 1 (Some 900%Z) Sample.catalog
  = (Sample.catalog, false).
Proof.
  destruct (add_photo_to_group_result (real := Z) 9 "/u/gone.jpg" 1 (Some 900%Z)
              Sample.catalog) as [_ H].
  rewrite (surjective_pairing (add_photo_to_group _ _ _ _ _)), H; [done|].
  apply (bool_decide_unpack _). vm_compute. exact I.
Defined.

Lemma add_photo_to_group_replaces_witness :
  let r := add_photo_to_group 9 "/u/x.jpg" 1 (Some 950%Z) Sample.catalog in
  r.2 = true ∧ size (photo_group_members r.1) = size (photo_group_members Sample.catalog).
Proof.
  split; [|vm_compute; reflexivity].
  refine (proj1 (add_photo_to_group_replaces (real := Z) 9 1 (Some 950%Z) Sample.catalog 1
                   (Sample.unprocessed "/u/x.jpg" "x" "variant") _ _)).
  - apply (bool_decide_unpack _). vm_compute. exact I.
  - reflexivity.
Defined.

Lemma execute_with_retry_recovers_witness :
  execute_with_retry (λ attempt, if bool_decide (attempt < 2) then Some DatabaseIsLocked
                                 else None) "rows"
  = Ok "rows".
Proof.
  apply (execute_with_retry_recovers _ _ 2); [lia| |reflexivity].
  intros attempt Ha. by rewrite bool_decide_eq_true_2.
Defined.

Lemma execute_with_retry_gives_up_witness :
  execute_with_retry (λ _, Some DatabaseIsLocked) "rows" = Raise "database is locked".
Proof. apply execute_with_retry_gives_up. reflexivity. Defined.

(** ** Outcomes of a correction *)

Section CorrectorOutcomes.
Context {real : Type} (e : env).

(** X13.  Backup and restore are a round trip: after [create_backup]
    on a file that has no backup yet, whatever is written over the
    file, [restore_from_backup] answers [True] and leaves the file
    system exactly as it was before the backup, without the backup
    file. *)
Theorem backup_restore_round_trip (fs : gmap string file) (p : string) (f f' : file) :
  fs !! p = Some f → fs !! backup_path p = None →
  ∃ fs1, create_backup fs p = Ok (fs1, backup_path p) ∧
         restore_from_backup (<[p := f']> fs1) p = (fs, true).
Proof.
  intros Hf Hb. unfold create_backup. rewrite Hf. eexists. split; [done|].
  pose proof (backup_path_ne p) as Hne.
  unfold restore_from_backup.
  rewrite lookup_insert_ne, lookup_insert_eq by done. f_equal.
  apply map_eq. intros q.
  destruct (decide (q = backup_path p)) as [->|Hq].
  { by rewrite lookup_delete_eq, Hb. }
  rewrite lookup_delete_ne by done.
  destruct (decide (q = p)) as [->|Hq'].
  { by rewrite lookup_insert_eq, Hf. }
  by rewrite !lookup_insert_ne by done.
Qed.

Lemma random_name_None (fs : gmap string file) (dir stem ext : string)
    (attempts : list nat) (i : nat) :
  random_name e fs dir stem ext attempts = None → i ∈ attempts →
  is_Some (fs !! Py.join dir (stem +:+ "_" +:+ token_hex e i +:+ ext)).
Proof.
  induction attempts as [|a attempts IH]; simpl; [by intros _ ?%elem_of_nil|].
  destruct (fs !! Py.join dir (stem +:+ "_" +:+ token_hex e a +:+ ext)) eqn:E; [|done].
  intros Hn [->|Hin]%elem_of_cons; [by eexists|by apply IH].
Qed.

(** X14.  When the plain destination name, or one of the hundred
    random names, is free, [move_photo_to_processed] uses a name that
    did not exist: the photo arrives there with its bytes, it is gone
    from its old path, and every other file is left as it was. *)
Theorem move_photo_to_processed_keeps_others (fs : gmap string file) (d : date)
    (filepath date : string) (f : file) :
  let processed_dir := Py.join (Py.join (PROCESSED_DIR e) (year d)) (month d) in
  let base := base_filename (date_prefix d) (Py.basename filepath) in
  strptime e date = Ok d → makedirs_error e = None → fs !! filepath = Some f →
  (fs !! Py.join processed_dir base = None ∨
   ∃ attempt, attempt < 100 ∧
     fs !! Py.join processed_dir
             ((Py.splitext base).1 +:+ "_" +:+ token_hex e attempt
              +:+ (Py.splitext base).2) = None) →
  let fs' := (move_photo_to_processed e fs filepath date).1 in
  let new_filepath := (move_photo_to_processed e fs filepath date).2 in
  fs !! new_filepath = None ∧ fs' !! new_filepath = Some f ∧ fs' !! filepath = None ∧
  ∀ q, q ≠ filepath → q ≠ new_filepath → fs' !! q = fs !! q.
Proof.
  intros processed_dir base Hd Hmk Hf Hfree.
  assert (Hdest : fs !! destination e fs d filepath = None).
  { subst processed_dir base. destruct Hfree as [Hfree|(i & Hi & Hfree)].
    - unfold destination. by rewrite Hfree.
    - destruct (destination_fresh e fs d filepath) as [?|(stem & ext & Hs & Hr & _)];
        [done|exfalso].
      rewrite Hs in Hfree. simpl in Hfree.
      destruct (random_name_None fs _ stem ext (seq 0 100) i Hr) as [? Hx].
      { apply elem_of_seq. lia. }
      congruence. }
  unfold move_photo_to_processed. rewrite Hd, Hmk, Hf. simpl.
  assert (destination e fs d filepath ≠ filepath) as Hne by congruence.
  split_and!; [done|apply lookup_insert_eq| |].
  - rewrite lookup_insert_ne by done. apply lookup_delete_eq.
  - intros q Hq Hq'. by rewrite lookup_insert_ne, lookup_delete_ne.
Qed.

Lemma mutated_lookup (fs : gmap string file) (filepath new_date : string)
    (f0 : file) (timestamp : Z) :
  fs !! filepath = Some f0 →
  let fs3 := alter (exif_rewrite e new_date) filepath
               (alter (λ f, File (content f) timestamp) filepath
                  (<[backup_path filepath := f0]> fs)) in
  fs3 !! filepath = Some (exif_rewrite e new_date (File (content f0) timestamp)) ∧
  fs3 !! backup_path filepath = Some f0 ∧
  ∀ q, q ≠ filepath → q ≠ backup_path filepath → fs3 !! q = fs !! q.
Proof.
  intros Hf fs3. pose proof (backup_path_ne filepath) as Hne. subst fs3. split_and!.
  - rewrite !lookup_alter_eq, lookup_insert_ne by done. by rewrite Hf.
  - rewrite !lookup_alter_ne by done. apply lookup_insert_eq.
  - intros q Hq Hq'. rewrite !lookup_alter_ne by done. by rewrite lookup_insert_ne.
Qed.

(** X15.  When [update_photo_date] reports success, the message is
    the fixed one, no backup file is left, the photo with its new
    timestamp and rewritten metadata is at the path handed to the
    catalog, the catalog update for that path went through, and the
    old path is vacated when the two differ. *)
Theorem update_photo_date_success (now : Z) (fs fs' : gmap string file)
    (d d' : db real) (filepath new_date msg : string) :
  update_photo_date e now fs d filepath new_date = (fs', d', (true, msg)) →
  msg = "Photo date updated successfully" ∧
  fs' !! backup_path filepath = None ∧
  ∃ f0 timestamp new_filepath b,
    fs !! filepath = Some f0 ∧ parse_timestamp e new_date = Ok timestamp ∧
    mark_photo_processed now filepath (Some new_filepath) d = Ok (d', b) ∧
    fs' !! new_filepath = Some (exif_rewrite e new_date (File (content f0) timestamp)) ∧
    (new_filepath ≠ filepath → fs' !! filepath = None).
Proof.
  unfold update_photo_date, calculate_file_hash, create_backup.
  destruct (fs !! filepath) as [f0|] eqn:Ef; simpl; [|done].
  destruct (String.eqb _ _); simpl; [done|].
  destruct (parse_timestamp e new_date) as [timestamp|m] eqn:Et; [|done].
  destruct (utime_error e filepath) as [m|] eqn:Eu; [done|].
  destruct (mutated_lookup fs filepath new_date f0 timestamp Ef) as (H3 & Hb & _).
  set (fs3 := alter (exif_rewrite e new_date) filepath (alter _ filepath _)) in *.
  rewrite H3.
  destruct (if verify_file_integrity _ _ _ _ then _ else _) as [m|] eqn:Ev; [done|].
  destruct (move_photo_to_processed e fs3 filepath new_date) as [fs4 new_filepath] eqn:Em.
  destruct (commit_error e) as [err|] eqn:Ec; [done|].
  destruct (mark_photo_processed _ _ _ _) as [[d1 b]|m] eqn:Ek; [|done].
  intros [= <- <- <-]. split; [done|]. split; [apply lookup_delete_eq|].
  exists f0, timestamp, new_filepath, b. split_and!; [done..| |].
  - unfold move_photo_to_processed in Em.
    assert (Hstay : (fs3, filepath) = (fs4, new_filepath) →
              delete (backup_path filepath) fs4 !! new_filepath =
              Some (exif_rewrite e new_date (File (content f0) timestamp))).
    { intros [= <- <-]. rewrite lookup_delete_ne by apply backup_path_ne. done. }
    destruct (strptime e new_date) as [dt|]; [|by apply Hstay].
    destruct (makedirs_error e); [by apply Hstay|].
    rewrite H3 in Em. injection Em as <- <-.
    rewrite lookup_delete_ne, lookup_insert_eq; [done|].
    intros Heq. symmetry in Heq. revert Heq. apply destination_ne_backup. by eexists.
  - intros Hne. unfold move_photo_to_processed in Em.
    destruct (strptime e new_date) as [dt|]; [|by simplify_eq].
    destruct (makedirs_error e); [by simplify_eq|].
    rewrite H3 in Em. injection Em as <- <-.
    destruct (decide (filepath = backup_path filepath)) as [Heq|Hnb].
    { by destruct (backup_path_ne filepath). }
    rewrite lookup_delete_ne by done. rewrite lookup_insert_ne by done.
    apply lookup_delete_eq.
Qed.

Lemma mark_photo_processed_in_place (now : Z) (fp : string) (d : db real) :
  ∃ d' b, mark_photo_processed now fp (Some fp) d = Ok (d', b).
Proof.
  unfold mark_photo_processed. rewrite bool_decide_eq_false_2; [by eexists _, _|].
  intros (_ & Hne & _). apply Hne. by destruct (Py.truthy _).
Qed.

(** X16.  A relocation that fails is not reported.  When the target
    directory cannot be created and every other step goes through,
    [update_photo_date] answers success: the photo keeps its path, with
    the new timestamp and metadata, the backup is removed, the catalog
    marks the photo processed at its old path, and no other file
    changes. *)
Theorem update_photo_date_hides_failed_move (now : Z) (fs : gmap string file)
    (d : db real) (filepath new_date : string) (f0 : file) (timestamp : Z) (m : string) :
  fs !! filepath = Some f0 → sha256_hexdigest e (content f0) ≠ "" →
  parse_timestamp e new_date = Ok timestamp → utime_error e filepath = None →
  image_verify_error e
    (content (exif_rewrite e new_date (File (content f0) timestamp))) = None →
  makedirs_error e = Some m → commit_error e = None →
  ∃ fs' d' b,
    update_photo_date e now fs d filepath new_date
    = (fs', d', (true, "Photo date updated successfully")) ∧
    mark_photo_processed now filepath (Some filepath) d = Ok (d', b) ∧
    fs' !! filepath = Some (exif_rewrite e new_date (File (content f0) timestamp)) ∧
    fs' !! backup_path filepath = None ∧
    ∀ q, q ≠ filepath → q ≠ backup_path filepath → fs' !! q = fs !! q.
Proof.
  intros Ef Hh Et Eu Ev Emk Ec.
  destruct (mark_photo_processed_in_place now filepath d) as (d' & b & Ek).
  unfold update_photo_date, calculate_file_hash, create_backup.
  rewrite Ef. simpl.
  assert (String.eqb (sha256_hexdigest e (content f0)) "" = false) as ->
    by by apply String.eqb_neq.
  simpl. rewrite Et, Eu.
  destruct (mutated_lookup fs filepath new_date f0 timestamp Ef) as (H3 & Hb & Hq).
  set (fs3 := alter (exif_rewrite e new_date) filepath (alter _ filepath _)) in *.
  rewrite H3, Ev.
  assert ((if verify_file_integrity e fs3 filepath (sha256_hexdigest e (content f0))
           then None else None) = (None : option string)) as -> by by case_match.
  assert (move_photo_to_processed e fs3 filepath new_date = (fs3, filepath)) as ->.
  { unfold move_photo_to_processed. rewrite Emk. by destruct (strptime e new_date). }
  rewrite Ec, Ek. eexists _, d', b. split; [done|]. split; [done|].
  pose proof (backup_path_ne filepath) as Hne. split_and!.
  - by rewrite lookup_delete_ne.
  - apply lookup_delete_eq.
  - intros q N1 N2. rewrite lookup_delete_ne by done. by apply Hq.
Qed.

End CorrectorOutcomes.

(** X17.  The name a photo is filed under always starts with the
    date prefix and an underscore, and filing a filed name again under
    the same date changes nothing. *)
Theorem base_filename_prefixed (date_prefix original_filename : string) :
  Py.startswith (base_filename date_prefix original_filename) (date_prefix +:+ "_")
  = true ∧
  base_filename date_prefix (base_filename date_prefix original_filename)
  = base_filename date_prefix original_filename.
Proof.
  assert (H : Py.startswith (base_filename date_prefix original_filename)
                            (date_prefix +:+ "_") = true).
  { unfold base_filename.
    destruct (Py.startswith original_filename _) eqn:E; [done|].
    assert (∀ rest, Py.startswith (date_prefix +:+ "_" +:+ rest) (date_prefix +:+ "_")
                    = true) as Hp.
    { intros rest. unfold Py.startswith. apply bool_decide_eq_true.
      rewrite !chars_app, app_assoc. by apply prefix_app_r. }
    destruct (_ && _); apply Hp. }
  split; [done|]. unfold base_filename at 1. by rewrite H.
Qed.

Lemma backup_restore_round_trip_witness :
  ∃ fs1, create_backup Sample.disk "/u/x_a.jpg" = Ok (fs1, "/u/x_a.jpg.backup") ∧
         restore_from_backup (<["/u/x_a.jpg" := File "half written" 9]> fs1) "/u/x_a.jpg"
         = (Sample.disk, true).
Proof.
  apply (backup_restore_round_trip Sample.disk "/u/x_a.jpg"
           (File "scan of the front" 0) (File "half written" 9)); reflexivity.
Defined.

Lemma move_photo_to_processed_keeps_others_witness :
  let fs : gmap string file :=
    {[ "/u/x_a.jpg" := File "scan of the front" 0;
       "/p/2024/01/2024-01-05_x_a.jpg" := File "first" 1 ]} in
  let r := move_photo_to_processed Sample.world fs "/u/x_a.jpg" "2024-01-05" in
  r.2 = "/p/2024/01/2024-01-05_x_a_000000.jpg" ∧
  r.1 !! "/p/2024/01/2024-01-05_x_a.jpg" = Some (File "first" 1) ∧
  r.1 !! r.2 = Some (File "scan of the front" 0).
Proof.
  intros fs r. split; [vm_compute; reflexivity|]. split; [vm_compute; reflexivity|].
  refine (proj1 (proj2 (move_photo_to_processed_keeps_others Sample.world fs
            (Date "2024" "01" "2024-01-05") "/u/x_a.jpg" "2024-01-05"
            (File "scan of the front" 0) _ _ _ _))); [reflexivity..|].
  right. exists 0. split; [lia|vm_compute; reflexivity].
Defined.

Lemma update_photo_date_success_witness :
  let fs : gmap string file := {[ "/u/x.jpg" := File "scan" 0 ]} in
  let r := update_photo_date (real := Z) Sample.lenient_world 9 fs Sample.catalog
                             "/u/x.jpg" "2024-01-05" in
  r.2 = (true, "Photo date updated successfully") ∧
  r.1.1 !! "/u/x.jpg.backup" = None.
Proof.
  intros fs r. split; [vm_compute; reflexivity|].
  refine (proj1 (proj2 (update_photo_date_success (real := Z) Sample.lenient_world 9 fs
            r.1.1 Sample.catalog r.1.2 "/u/x.jpg" "2024-01-05" r.2.2 _))).
  vm_compute. reflexivity.
Defined.

Lemma update_photo_date_hides_failed_move_witness :
  let e := Env "/p" (sha256_hexdigest Sample.world) (strptime Sample.world)
               (parse_timestamp Sample.world) (λ _, None) (exif_rewrite Sample.world)
               (λ _, None) (λ _, "000000") 1700000000000
               (Some "[Errno 13] Permission denied: '/p/2024'") None in
  let fs : gmap string file := {[ "/u/x.jpg" := File "scan" 0 ]} in
  ∃ fs' d' b,
    update_photo_date (real := Z) e 9 fs Sample.catalog "/u/x.jpg" "2024-01-05"
    = (fs', d', (true, "Photo date updated successfully")) ∧
    mark_photo_processed 9 "/u/x.jpg" (Some "/u/x.jpg") Sample.catalog = Ok (d', b) ∧
    fs' !! "/u/x.jpg" = Some (File "exif 2024-01-05;scan" 1704412800).
Proof.
  intros e fs.
  destruct (update_photo_date_hides_failed_move (real := Z) e 9 fs Sample.catalog
              "/u/x.jpg" "2024-01-05" (File "scan" 0) 1704412800
              "[Errno 13] Permission denied: '/p/2024'")
    as (fs' & d' & b & H1 & H2 & H3 & _); [reflexivity|discriminate|reflexivity..|].
  by exists fs', d', b.
Defined.

(** ** The scan, its slot rule and the caches *)

Section ScanAndCache.
Context {real : Type}.
Context (IGNORE_FILE_PATTERNS : list string).
Context (extract_original_date : string → option string).
Implicit Types d : db real.

(** X18.  The scan cache is not invalidated by changes: within 60
    seconds of a scan that walked the tree, [scan_photos] answers with
    that scan's result whatever the tree and the catalog hold by then,
    and writes nothing. *)
Theorem scan_photos_served_from_cache (c : cache) (time1 time2 now1 now2 : Z)
    (walk walk' : list (string * list string)) d d' :
  get_cached (cached_scan_photos c) time1 = None →
  (time2 - time1 < 60)%Z →
  let first := scan_photos IGNORE_FILE_PATTERNS extract_original_date
                           c time1 now1 walk d in
  scan_photos IGNORE_FILE_PATTERNS extract_original_date first.1.1 time2 now2 walk' d'
  = (first.1.1, d', first.2).
Proof.
  intros Hmiss Hfresh first.
  assert (∃ res, first = (Cache (Some (time1, res)) (cached_unprocessed_pairs c),
                          first.1.2, res)) as [res Hres].
  { subst first. unfold scan_photos. rewrite Hmiss. by eexists. }
  rewrite Hres. simpl. unfold scan_photos. simpl. unfold cache_timeout.
  by rewrite bool_decide_eq_true_2.
Qed.

(** X19.  The listing cache is not invalidated by writes: within 60
    seconds of a listing computed from the catalog,
    [get_unprocessed_photo_pairs] answers with that listing, whatever
    the catalog holds by then (a set ignored in between is still
    listed) and whether or not the database can be read. *)
Theorem unprocessed_listing_served_from_cache (c c1 : cache) (time1 time2 : Z)
    (fault fault' : nat → option operational_error) d d'
    (listing : gmap string pair) :
  get_cached (cached_unprocessed_pairs c) time1 = None →
  get_unprocessed_photo_pairs c time1 fault d = Ok (c1, listing) →
  (time2 - time1 < 60)%Z →
  get_unprocessed_photo_pairs c1 time2 fault' d' = Ok (c1, listing).
Proof.
  intros Hmiss Hfirst Hfresh. unfold get_unprocessed_photo_pairs in Hfirst.
  rewrite Hmiss in Hfirst. destruct (get_unprocessed_photos fault d); [|done].
  injection Hfirst as <- <-. unfold get_unprocessed_photo_pairs. simpl.
  unfold cache_timeout. by rewrite bool_decide_eq_true_2.
Qed.

Lemma slot_paths_Some (fp : string) : fp ≠ "" → slot_paths (Some fp) = [fp].
Proof. intros H%truthy_Some. unfold slot_paths. by rewrite H. Qed.

Lemma slot_paths_falsy (slot : option string) :
  Py.truthy slot = false → slot_paths slot = [].
Proof. intros H. unfold slot_paths. by rewrite H. Qed.

Lemma slot_paths_truthy (slot : option string) :
  Py.truthy slot = true → ∃ fp, slot = Some fp ∧ slot_paths slot = [fp].
Proof.
  intros H. unfold slot_paths. rewrite H. destruct slot as [fp|]; [|done]. by exists fp.
Qed.

Lemma place_file_spec (file filepath : string) (e : pair) :
  filepath ≠ "" →
  pair_paths (place_file file filepath e) ≡ₚ filepath :: pair_paths e ∧
  has_front_or_back (place_file file filepath e) = true.
Proof.
  intros Hne. pose proof (slot_paths_Some _ Hne) as Hs.
  pose proof (proj2 (truthy_Some filepath) Hne) as Ht.
  assert (Hd : ∀ slot : option string,
            match slot with
            | Some old => if Py.truthy slot then variants e ++ [old] else variants e
            | None => variants e
            end ≡ₚ slot_paths slot ++ variants e).
  { intros [old|]; unfold slot_paths; [|done].
    destruct (Py.truthy (Some old)); [|done]. apply Permutation_app_comm. }
  unfold place_file, pair_paths, has_front_or_back.
  destruct (Py.endswith file "_a.jpg" || Py.endswith file "_a.jpeg").
  { cbn [front back variants]. rewrite Hs, Ht, Hd. split; [|done].
    cbn [app]. apply Permutation_skip.
    by rewrite !app_assoc, (Permutation_app_comm (slot_paths (back e))). }
  destruct (Py.endswith file "_b.jpg" || Py.endswith file "_b.jpeg").
  { cbn [front back variants]. rewrite Hs, Ht, Hd, orb_true_r. split; [|done].
    cbn [app]. by rewrite <- Permutation_middle. }
  destruct (Py.truthy (front e)) eqn:Ef; cbn [negb].
  2:{ cbn [front back variants]. rewrite Hs, Ht. split; [|done].
      by rewrite (slot_paths_falsy _ Ef). }
  destruct (Py.truthy (back e)) eqn:Eb; cbn [negb].
  2:{ cbn [front back variants]. rewrite Hs, Ht, Ef. split; [|done].
      rewrite (slot_paths_falsy _ Eb). cbn [app]. by rewrite <- Permutation_middle. }
  cbn [front back variants]. rewrite Ef. split; [|done].
  rewrite !app_assoc. by rewrite <- Permutation_cons_append.
Qed.

Lemma place_file_paths (file filepath : string) (e : pair) :
  filepath ≠ "" → pair_paths (place_file file filepath e) ≡ₚ filepath :: pair_paths e.
Proof. intros H. by apply place_file_spec. Qed.

Lemma place_file_front_or_back (file filepath : string) (e : pair) :
  filepath ≠ "" → has_front_or_back (place_file file filepath e) = true.
Proof. intros H. by apply place_file_spec. Qed.

Lemma has_image_extension_nonempty (file : string) :
  has_image_extension file = true → file ≠ "".
Proof. intros H ->. by vm_compute in H. Qed.

Lemma join_nonempty (root file : string) : file ≠ "" → Py.join root file ≠ "".
Proof.
  intros Hne Heq. destruct (join_suffix root file) as [k Hk]. rewrite Heq in Hk.
  apply Hne, chars_inj. change (Py.chars "") with (@nil ascii) in *.
  symmetry in Hk. by apply app_eq_nil in Hk as [_ ?].
Qed.

(** The files of a walk that the scan files into a set. *)
Lemma scan_file_pairs (P I E : list string) (root file : string) (st : scan_state) :
  photo_pairs (scan_file IGNORE_FILE_PATTERNS extract_original_date P I E root file st)
  = if has_image_extension file && negb (should_ignore_file IGNORE_FILE_PATTERNS file)
       && bool_decide (Py.join root file ∉ P) && bool_decide (Py.join root file ∉ I)
    then <[extract_base_name file :=
             place_file file (Py.join root file)
               (default empty_pair (photo_pairs st !! extract_base_name file))]>
           (photo_pairs st)
    else photo_pairs st.
Proof.
  unfold scan_file. destruct (has_image_extension file); [|done]. simpl.
  destruct (should_ignore_file _ file); [done|]. simpl.
  destruct (decide (Py.join root file ∈ P)) as [Hp|Hp].
  { rewrite (bool_decide_eq_true_2 _ Hp), (bool_decide_eq_false_2 (_ ∉ P)) by tauto.
    done. }
  rewrite (bool_decide_eq_false_2 _ Hp), (bool_decide_eq_true_2 (_ ∉ P)) by done. simpl.
  destruct (decide (Py.join root file ∈ I)) as [Hi|Hi].
  { rewrite (bool_decide_eq_true_2 _ Hi), (bool_decide_eq_false_2 (_ ∉ I)) by tauto.
    done. }
  by rewrite (bool_decide_eq_false_2 _ Hi), (bool_decide_eq_true_2 (_ ∉ I)) by done.
Qed.

(** X20.  The slot rule of the scan loses no photo: when the loop body
    accepts a file, the set of its base name afterwards holds the
    file's path and exactly the paths it held before (a displaced
    front or back has become a variant), its front or back slot is
    filled, and the other sets are untouched. *)
Theorem scan_file_keeps_all (P I E : list string) (root file : string)
    (st : scan_state) :
  has_image_extension file = true →
  should_ignore_file IGNORE_FILE_PATTERNS file = false →
  (Py.join root file ∉ P) → (Py.join root file ∉ I) →
  let st' := scan_file IGNORE_FILE_PATTERNS extract_original_date P I E root file st in
  let bn := extract_base_name file in
  (∃ v', photo_pairs st' !! bn = Some v' ∧
         pair_paths v' ≡ₚ Py.join root file
                          :: pair_paths (default empty_pair (photo_pairs st !! bn)) ∧
         has_front_or_back v' = true) ∧
  ∀ bn', bn' ≠ bn → photo_pairs st' !! bn' = photo_pairs st !! bn'.
Proof.
  intros Hx Hg Hp Hi st' bn. subst st' bn. rewrite scan_file_pairs, Hx, Hg. simpl.
  rewrite !bool_decide_eq_true_2 by done. simpl.
  assert (Py.join root file ≠ "") as Hne
    by by apply join_nonempty, has_image_extension_nonempty.
  split.
  - eexists. split; [apply lookup_insert_eq|]. by apply place_file_spec.
  - intros bn' Hbn. by rewrite lookup_insert_ne.
Qed.

Lemma scan_file_front_or_back (P I E : list string) (root file : string)
    (st : scan_state) :
  (∀ bn v, photo_pairs st !! bn = Some v → has_front_or_back v = true) →
  ∀ bn v,
    photo_pairs (scan_file IGNORE_FILE_PATTERNS extract_original_date P I E root file st)
      !! bn = Some v →
    has_front_or_back v = true.
Proof.
  intros Hst bn v. rewrite scan_file_pairs.
  destruct (has_image_extension file) eqn:Hx; [|by apply Hst]. simpl.
  destruct (_ && _); [|by apply Hst].
  destruct (decide (extract_base_name file = bn)) as [<-|Hbn].
  - rewrite lookup_insert_eq. intros [= <-].
    by apply place_file_front_or_back, join_nonempty, has_image_extension_nonempty.
  - rewrite lookup_insert_ne by done. apply Hst.
Qed.

Lemma scan_file_stays (P I E : list string) (root file : string)
    (st : scan_state) (bn : option string) (v : pair) (fp : string) :
  photo_pairs st !! bn = Some v → fp ∈ pair_paths v →
  ∃ v', photo_pairs (scan_file IGNORE_FILE_PATTERNS extract_original_date
                               P I E root file st) !! bn = Some v' ∧
        fp ∈ pair_paths v'.
Proof.
  intros Hv Hin. rewrite scan_file_pairs.
  destruct (has_image_extension file) eqn:Hx; [|by eauto]. simpl.
  destruct (_ && _); [|by eauto].
  destruct (decide (extract_base_name file = bn)) as [<-|Hbn].
  - rewrite lookup_insert_eq, Hv. simpl. eexists. split; [done|].
    rewrite place_file_paths
      by by apply join_nonempty, has_image_extension_nonempty.
    by apply elem_of_cons; right.
  - rewrite lookup_insert_ne by done. eauto.
Qed.

Lemma scan_file_files (P I E : list string) (root file : string) (st : scan_state) :
  has_image_extension file = true →
  should_ignore_file IGNORE_FILE_PATTERNS file = false →
  (Py.join root file ∉ P) → (Py.join root file ∉ I) →
  ∃ v, photo_pairs (scan_file IGNORE_FILE_PATTERNS extract_original_date
                              P I E root file st) !! extract_base_name file = Some v ∧
       Py.join root file ∈ pair_paths v.
Proof.
  intros Hx Hg Hp Hi. rewrite scan_file_pairs, Hx, Hg. simpl.
  rewrite !bool_decide_eq_true_2 by done. simpl.
  rewrite lookup_insert_eq. eexists. split; [done|].
  rewrite place_file_paths by by apply join_nonempty, has_image_extension_nonempty.
  by apply elem_of_cons; left.
Qed.

(** The walk as one loop over its files. *)
Lemma scan_walk_flat (P I E : list string) (walk : list (string * list string)) :
  scan_walk IGNORE_FILE_PATTERNS extract_original_date P I E walk
  = foldl (λ st '(root, file),
             scan_file IGNORE_FILE_PATTERNS extract_original_date P I E root file st)
          (ScanState ∅ [])
          (walk ≫= λ '(root, files), (root,.) <$> files).
Proof.
  unfold scan_walk. generalize (ScanState ∅ []).
  induction walk as [|[root files] walk IH]; intros st; simpl; [done|].
  rewrite foldl_app, IH. f_equal.
  generalize st. induction files as [|file files IHf]; intros st'; simpl; [done|].
  apply IHf.
Qed.

Lemma scan_files_front_or_back (P I E : list string) (l : list (string * string))
    (st : scan_state) :
  (∀ bn v, photo_pairs st !! bn = Some v → has_front_or_back v = true) →
  ∀ bn v,
    photo_pairs (foldl (λ st '(root, file),
                          scan_file IGNORE_FILE_PATTERNS extract_original_date
                                    P I E root file st) st l) !! bn = Some v →
    has_front_or_back v = true.
Proof.
  revert st. induction l as [|[root file] l IH]; intros st Hst; simpl; [done|].
  by apply IH, scan_file_front_or_back.
Qed.

Lemma scan_files_stay (P I E : list string) (l : list (string * string))
    (st : scan_state) (bn : option string) (v : pair) (fp : string) :
  photo_pairs st !! bn = Some v → fp ∈ pair_paths v →
  ∃ v', photo_pairs (foldl (λ st '(root, file),
                              scan_file IGNORE_FILE_PATTERNS extract_original_date
                                        P I E root file st) st l) !! bn = Some v' ∧
        fp ∈ pair_paths v'.
Proof.
  revert st v. induction l as [|[root file] l IH]; intros st v Hv Hin; simpl; [by eauto|].
  destruct (scan_file_stays P I E root file st bn v fp Hv Hin) as (v' & Hv' & Hin').
  by eapply IH.
Qed.

(** X21.  The closing filter of [scan_photos] removes nothing: every
    set the walk builds has a front or a back, so a scan that walks the
    tree returns all of them. *)
Theorem scan_photos_returns_every_set (c : cache) (time now : Z)
    (walk : list (string * list string)) d :
  get_cached (cached_scan_photos c) time = None →
  (scan_photos IGNORE_FILE_PATTERNS extract_original_date c time now walk d).2
  = photo_pairs (scan_walk IGNORE_FILE_PATTERNS extract_original_date
                           (get_processed_photos d) (get_ignored_photos d)
                           (get_all_photo_paths d) walk).
Proof.
  intros Hmiss. unfold scan_photos. rewrite Hmiss. simpl.
  apply map_filter_id. intros bn v Hv. simpl.
  rewrite scan_walk_flat in Hv. revert Hv. by apply scan_files_front_or_back.
Qed.

(** X22.  A scan that walks the tree returns every photo it accepts:
    a file of the walk with an image extension, not matching an ignore
    pattern, whose path is neither processed nor ignored, is among the
    front, back and variants of the set of its base name. *)
Theorem scan_photos_keeps_every_photo (c : cache) (time now : Z)
    (walk : list (string * list string)) d (root file : string) (files : list string) :
  get_cached (cached_scan_photos c) time = None →
  (root, files) ∈ walk → file ∈ files →
  has_image_extension file = true →
  should_ignore_file IGNORE_FILE_PATTERNS file = false →
  (Py.join root file ∉ get_processed_photos d) →
  (Py.join root file ∉ get_ignored_photos d) →
  ∃ v, (scan_photos IGNORE_FILE_PATTERNS extract_original_date c time now walk d).2
         !! extract_base_name file = Some v ∧
       Py.join root file ∈ pair_paths v.
Proof.
  intros Hmiss Hw Hf Hx Hg Hp Hi.
  assert ((scan_photos IGNORE_FILE_PATTERNS extract_original_date c time now walk d).2
    = photo_pairs (scan_walk IGNORE_FILE_PATTERNS extract_original_date
                           (get_processed_photos d) (get_ignored_photos d)
                           (get_all_photo_paths d) walk)) as ->.
  { unfold scan_photos. rewrite Hmiss. simpl.
    apply map_filter_id. intros bn v Hv. simpl.
    rewrite scan_walk_flat in Hv. revert Hv. by apply scan_files_front_or_back. }
  rewrite scan_walk_flat.
  assert ((root, file) ∈ walk ≫= λ '(root, files), (root,.) <$> files) as Hin.
  { apply list_elem_of_bind. exists (root, files). split; [|done].
    apply list_elem_of_fmap. by exists file. }
  apply list_elem_of_split in Hin as (l1 & l2 & ->).
  rewrite foldl_app. simpl.
  destruct (scan_file_files (get_processed_photos d) (get_ignored_photos d)
              (get_all_photo_paths d) root file
              (foldl (λ st '(root, file),
                        scan_file IGNORE_FILE_PATTERNS extract_original_date
                          (get_processed_photos d) (get_ignored_photos d)
                          (get_all_photo_paths d) root file st) (ScanState ∅ []) l1)
              Hx Hg Hp Hi) as (v & Hv & Hin).
  by eapply scan_files_stay.
Qed.

End ScanAndCache.

Lemma scan_photos_served_from_cache_witness :
  let scan c time walk d :=
    scan_photos (real := Z) ["SYNOFILE_"; ".DS_Store"; "Thumbs.db"] (λ _, None)
                c time time walk d in
  let first := scan empty_cache 100%Z [("/u", ["p_a.jpg"])] Sample.mixed_catalog in
  scan first.1.1 159%Z [("/u", ["p_a.jpg"; "new_b.jpg"])] first.1.2
  = (first.1.1, first.1.2, first.2).
Proof.
  intros scan first.
  apply (scan_photos_served_from_cache (real := Z) ["SYNOFILE_"; ".DS_Store"; "Thumbs.db"]
           (λ _, None) empty_cache 100 159 100 159 [("/u", ["p_a.jpg"])]
           [("/u", ["p_a.jpg"; "new_b.jpg"])] Sample.mixed_catalog first.1.2);
    [reflexivity|lia].
Defined.

Lemma unprocessed_listing_served_from_cache_witness :
  ∃ c1, get_unprocessed_photo_pairs empty_cache 100 (λ _, None) Sample.mixed_catalog
        = Ok (c1, Sample.p_listing) ∧
        get_unprocessed_photo_pairs c1 159 (λ _, None)
          (ignore_photo_set (λ _, None) 120 "p" Sample.p_listing Sample.mixed_catalog).1
        = Ok (c1, Sample.p_listing).
Proof.
  eexists. split; [vm_compute; reflexivity|].
  eapply (unprocessed_listing_served_from_cache (real := Z) empty_cache _ 100 159
            (λ _, None) (λ _, None) Sample.mixed_catalog);
    [reflexivity|vm_compute; reflexivity|lia].
Defined.

Lemma scan_file_keeps_all_witness :
  let st := ScanState {[ Some "x" := Pair (Some "/u/x.jpg") None [] None ]} [] in
  let st' := scan_file ["SYNOFILE_"] (λ _, None) [] [] [] "/u" "x_a.jpg" st in
  photo_pairs st' !! Some "x" = Some (Pair (Some "/u/x_a.jpg") None ["/u/x.jpg"] None) ∧
  ∀ bn', bn' ≠ Some "x" → photo_pairs st' !! bn' = photo_pairs st !! bn'.
Proof.
  intros st st'. split; [vm_compute; reflexivity|].
  refine (proj2 (scan_file_keeps_all ["SYNOFILE_"] (λ _, None) [] [] [] "/u" "x_a.jpg" st
                   _ _ _ _)); [reflexivity|reflexivity|..];
    apply (bool_decide_unpack _); vm_compute; exact I.
Defined.

Lemma scan_photos_returns_every_set_witness :
  dom (scan_photos (real := Z) ["SYNOFILE_"] (λ _, None) empty_cache 100 100
                   [("/u", ["q.jpg"; "notes.txt"])] Sample.mixed_catalog).2
  = {[ Some "q" ]}.
Proof.
  rewrite (scan_photos_returns_every_set (real := Z) ["SYNOFILE_"] (λ _, None)
             empty_cache 100 100 [("/u", ["q.jpg"; "notes.txt"])] Sample.mixed_catalog)
    by reflexivity.
  apply (bool_decide_unpack _). vm_compute. exact I.
Defined.

Lemma scan_photos_keeps_every_photo_witness :
  ∃ v, (scan_photos (real := Z) ["SYNOFILE_"] (λ _, None) empty_cache 100 100
                    [("/u", ["x.jpg"; "x_a.jpg"; "x_b.jpg"])] Sample.mixed_catalog).2
         !! Some "x" = Some v ∧
       "/u/x.jpg" ∈ pair_paths v.
Proof.
  apply (scan_photos_keeps_every_photo (real := Z) ["SYNOFILE_"] (λ _, None)
           empty_cache 100 100 [("/u", ["x.jpg"; "x_a.jpg"; "x_b.jpg"])]
           Sample.mixed_catalog "/u" "x.jpg" ["x.jpg"; "x_a.jpg"; "x_b.jpg"]);
    [reflexivity| | |reflexivity|reflexivity| |];
    apply (bool_decide_unpack _); vm_compute; exact I.
Defined.

(** ** Groups of a clustering *)

Section ClusterGroups.
Context {real embedding eps_t : Type}.
Context (pickle_loads : string → option embedding).
Context (fit_predict : eps_t → Z → list embedding → outcome (list Z)).

Lemma cluster_append_concat (label : Z) (fp : string) (clusters : list (Z * list string)) :
  concat (cluster_append label fp clusters).*2 ≡ₚ fp :: concat clusters.*2.
Proof.
  induction clusters as [|[l g] rest IH]; simpl; [done|].
  destruct (decide (l = label)); simpl.
  - rewrite <- app_assoc. simpl. by rewrite <- Permutation_middle.
  - rewrite IH. by rewrite <- Permutation_middle.
Qed.

Lemma group_by_label_concat (labels : list Z) (i : nat) (filepaths : list string)
    (clusters cs : list (Z * list string)) :
  group_by_label labels i filepaths clusters = Ok cs →
  ∃ sel, sel `sublist_of` drop i filepaths ∧
         concat cs.*2 ≡ₚ concat clusters.*2 ++ sel.
Proof.
  revert i clusters. induction labels as [|label labels IH]; intros i clusters; simpl.
  { intros [= <-]. exists []. split; [apply sublist_nil_l|by rewrite app_nil_r]. }
  assert (Hdrop : drop (S i) filepaths `sublist_of` drop i filepaths).
  { replace (drop (S i) filepaths) with (drop 1 (drop i filepaths))
      by (rewrite drop_drop; f_equal; lia).
    apply sublist_drop. }
  destruct (decide (label ≠ (-1)%Z)).
  - destruct (filepaths !! i) as [fp|] eqn:E; [|done].
    intros (sel & Hsel & Hc)%IH. exists (fp :: sel). split.
    + rewrite (drop_S _ _ _ E). by apply sublist_skip.
    + rewrite Hc, cluster_append_concat. simpl. by rewrite <- Permutation_middle.
  - intros (sel & Hsel & Hc)%IH. exists sel. split; [by etrans|done].
Qed.

Lemma concat_filter_sublist {A} (P : list A → Prop) `{!∀ x, Decision (P x)}
    (ls : list (list A)) :
  concat (filter P ls) `sublist_of` concat ls.
Proof.
  induction ls as [|l ls IH]; simpl; [done|].
  rewrite filter_cons. destruct (decide (P l)); simpl.
  - by apply sublist_app.
  - by apply sublist_inserts_l.
Qed.

Lemma omap_fst_sublist (l : list (string * string)) :
  (omap (λ '(fp, blob), e ← pickle_loads blob; Some (fp, e)) l).*1 `sublist_of` l.*1.
Proof.
  induction l as [|[fp blob] l IH]; simpl; [done|].
  destruct (pickle_loads blob); simpl; [by apply sublist_skip|by apply sublist_cons].
Qed.

(** X23.  The groups [find_similar_groups] returns are drawn from the
    photos with a [combined] embedding, each embedding row being used
    at most once: listed one after the other, the groups' paths are,
    up to order, a selection from the paths of the embedding rows.  So
    no photo is put into two groups, or twice into one. *)
Theorem find_similar_groups_disjoint (eps : eps_t) (min_samples : Z) (d : db real)
    (groups : list (list string)) :
  find_similar_groups pickle_loads fit_predict eps min_samples d = Ok groups →
  concat groups ⊆+ (get_photo_embeddings (Some "combined") d).*1.
Proof.
  unfold find_similar_groups.
  case_bool_decide; [intros [= <-]; apply submseteq_nil_l|].
  case_bool_decide; [intros [= <-]; apply submseteq_nil_l|].
  destruct (fit_predict _ _ _) as [labels|]; [|done].
  destruct (group_by_label _ _ _ _) as [cs|] eqn:E; [|done].
  intros [= <-]. apply group_by_label_concat in E as (sel & Hsel & Hc).
  simpl in Hc. rewrite drop_0 in Hsel.
  trans (concat cs.*2).
  { apply sublist_submseteq, concat_filter_sublist. }
  rewrite Hc. apply sublist_submseteq. etrans; [done|]. apply omap_fst_sublist.
Qed.

End ClusterGroups.

Lemma find_similar_groups_disjoint_witness :
  ∃ groups,
    find_similar_groups (real := Z) Some (λ (_ : unit) _ _, Ok [0%Z; 0%Z]) () 2
                        Sample.catalog = Ok groups ∧
    length (concat groups) = 2 ∧
    concat groups ⊆+ (get_photo_embeddings (Some "combined") Sample.catalog).*1.
Proof.
  eexists. split; [vm_compute; reflexivity|]. split; [reflexivity|].
  apply (find_similar_groups_disjoint (real := Z) Some
           (λ (_ : unit) _ _, Ok [0%Z; 0%Z]) () 2 Sample.catalog).
  vm_compute. reflexivity.
Defined.

(** ** Storing and reading embeddings *)

Section EmbeddingStore.
Context {real : Type}.
Implicit Types d : db real.

Lemma get_photo_embeddings_elem (ty fp blob : string) d :
  ty ≠ "" →
  (fp, blob) ∈ get_photo_embeddings (Some ty) d ↔
  ∃ pid p k pe, photos d !! pid = Some p ∧ photo_embeddings d !! k = Some pe ∧
                pe_photo_id pe = pid ∧ embedding_type pe = ty ∧
                filepath p = fp ∧ embedding_data pe = blob.
Proof.
  intros Hty%truthy_Some. unfold get_photo_embeddings. rewrite list_elem_of_bind.
  split.
  - intros ([pid p] & Hin & Hp%elem_of_map_to_list).
    apply list_elem_of_bind in Hin as ([k pe] & Hin & Hpe%elem_of_map_to_list).
    rewrite Hty in Hin. simpl in Hin.
    case_bool_decide as H1; [|by apply elem_of_nil in Hin].
    case_bool_decide as H2; [|by apply elem_of_nil in Hin].
    simpl in Hin. apply list_elem_of_singleton in Hin as [= -> ->].
    exists pid, p, k, pe. split_and!; [done..|congruence|done|done].
  - intros (pid & p & k & pe & Hp & Hpe & H1 & H2 & <- & <-).
    exists (pid, p). split; [|by apply elem_of_map_to_list].
    apply list_elem_of_bind. exists (k, pe). split; [|by apply elem_of_map_to_list].
    rewrite Hty. simpl. rewrite !bool_decide_eq_true_2 by congruence.
    simpl. by apply list_elem_of_singleton.
Qed.

(** X24.  Storing and reading an embedding is a round trip: after
    [store_photo_embedding] for a catalogued photo, the call answers
    [True] and [get_photo_embeddings] of that type gives the photo's
    path with the stored bytes and with no other bytes (an earlier
    embedding of that type is replaced); what it gives for any other
    path or type is unchanged. *)
Theorem store_photo_embedding_round_trip (now : Z) (ty data : string) d
    (pid : Z) (r : photo) :
  unique_paths d → photos d !! pid = Some r → ty ≠ "" →
  let d' := (store_photo_embedding now (filepath r) ty data d).1 in
  (store_photo_embedding now (filepath r) ty data d).2 = true ∧
  (∀ blob, (filepath r, blob) ∈ get_photo_embeddings (Some ty) d' ↔ blob = data) ∧
  (∀ ty' fp blob, ty' ≠ "" → ¬ (fp = filepath r ∧ ty' = ty) →
     (fp, blob) ∈ get_photo_embeddings (Some ty') d'
     ↔ (fp, blob) ∈ get_photo_embeddings (Some ty') d).
Proof.
  intros Hu' Hr Hty. pose proof (proj1 (unique_paths_spec d) Hu') as Hu.
  unfold store_photo_embedding.
  destruct (photos_with_path (filepath r) d) as [|[pid' r'] l] eqn:E.
  { exfalso. assert ((pid, r) ∈ photos_with_path (filepath r) d) as Hin
      by by apply photos_with_path_elem.
    rewrite E in Hin. by apply elem_of_nil in Hin. }
  assert ((pid', r') ∈ photos_with_path (filepath r) d) as [Hr' Hfp]%photos_with_path_elem
    by (rewrite E; set_solver).
  assert (pid' = pid) as -> by by eapply Hu.
  simpl. set (id := next_rowid (photo_embeddings_seq d) (photo_embeddings d)).
  assert (Hfresh : photo_embeddings d !! id = None) by apply next_rowid_fresh.
  assert (Hl : ∀ k pe,
    (<[id := PhotoEmbedding pid ty data now]>
       (filter (λ kv : Z * photo_embedding,
                  ¬ (pe_photo_id kv.2 = pid ∧ embedding_type kv.2 = ty))
               (photo_embeddings d))) !! k = Some pe
    ↔ (k = id ∧ pe = PhotoEmbedding pid ty data now)
      ∨ (k ≠ id ∧ photo_embeddings d !! k = Some pe
         ∧ ¬ (pe_photo_id pe = pid ∧ embedding_type pe = ty))).
  { intros k pe. destruct (decide (k = id)) as [->|Hk].
    - rewrite lookup_insert_eq. naive_solver.
    - rewrite lookup_insert_ne by done. rewrite map_lookup_filter_Some. simpl.
      naive_solver. }
  split; [done|]. split.
  - intros blob. rewrite get_photo_embeddings_elem by done. simpl. split.
    + intros (pid0 & p & k & pe & Hp & [[-> ->]|(Hk & Hpe & Hn)]%Hl & H1 & H2 & H3 & H4);
        [by simplify_eq/=|].
      exfalso. apply Hn. split; [|done]. rewrite H1. by apply (Hu pid0 pid p r).
    + intros ->. exists pid, r, id, (PhotoEmbedding pid ty data now).
      split_and!; [done| |done..]. apply Hl. by left.
  - intros ty' fp blob Hty' Hne. rewrite !get_photo_embeddings_elem by done. simpl.
    split.
    + intros (pid0 & p & k & pe & Hp & [[-> ->]|(Hk & Hpe & Hn)]%Hl & H1 & H2 & H3 & H4).
      * simpl in *. subst. exfalso. apply Hne. split; [|done]. congruence.
      * by exists pid0, p, k, pe.
    + intros (pid0 & p & k & pe & Hp & Hpe & H1 & H2 & H3 & H4).
      exists pid0, p, k, pe. split_and!; [done| |done..]. apply Hl. right.
      split_and!; [congruence|done|]. intros [Hx Hy]. apply Hne. subst.
      split; [|done]. congruence.
Qed.

End EmbeddingStore.

(** ** Reset, then store *)

Section ResetAndStore.
Context {real embedding eps_t : Type}.
Context (pickle_loads : string → option embedding).
Context (fit_predict : eps_t → Z → list embedding → outcome (list Z)).
Context (calculate_group_similarity : db real → list string → real).
Context (format_3f : real → string).
Implicit Types d : db real.

Lemma add_photo_to_group_members (now : Z) (fp : string) (gid : Z)
    (score : option real) d (G : Z → Prop) :
  G gid → (∀ k m, photo_group_members d !! k = Some m → G (gm_group_id m)) →
  ∀ k m, photo_group_members (add_photo_to_group now fp gid score d).1 !! k = Some m →
         G (gm_group_id m).
Proof.
  intros Hg Hd k m. unfold add_photo_to_group.
  destruct (photos_with_path fp d) as [|[photo_id ?] ?]; simpl; [apply Hd|].
  destruct (decide (k = next_rowid (photo_group_members_seq d) (photo_group_members d)))
    as [->|Hk].
  - rewrite lookup_insert_eq. by intros [= <-].
  - rewrite lookup_insert_ne by done. intros [Hm _]%map_lookup_filter_Some.
    by eapply Hd.
Qed.

Lemma store_group_members_in_groups (now : Z) d (i : nat) (group : list string) :
  members_in_groups d →
  members_in_groups (store_group calculate_group_similarity format_3f now d i group).
Proof.
  intros Hd. unfold store_group, create_photo_group. simpl.
  set (gid := next_rowid (photo_groups_seq d) (photo_groups d)).
  set (d1 := set_photo_groups d _ gid).
  set (score := Some (calculate_group_similarity d group)).
  assert (Hgroups : ∀ l d0, photo_groups
            (foldl (λ d fp, (add_photo_to_group now fp gid score d).1) d0 l)
            = photo_groups d0).
  { induction l as [|fp l IH]; intros d0; simpl; [done|]. rewrite IH.
    unfold add_photo_to_group. by destruct (photos_with_path fp d0) as [|[??] ?]. }
  assert (Hmem : ∀ l d0,
            (∀ k m, photo_group_members d0 !! k = Some m →
                    is_Some (photo_groups d1 !! gm_group_id m)) →
            ∀ k m, photo_group_members
                     (foldl (λ d fp, (add_photo_to_group now fp gid score d).1) d0 l)
                     !! k = Some m →
                   is_Some (photo_groups d1 !! gm_group_id m)).
  { induction l as [|fp l IH]; intros d0 H0; simpl; [done|]. apply IH.
    apply (add_photo_to_group_members now fp gid score d0
             (λ g, is_Some (photo_groups d1 !! g))); [|done].
    subst d1. simpl. rewrite lookup_insert_eq. by eexists. }
  intros k m Hm. rewrite Hgroups. revert k m Hm. apply Hmem.
  intros k m Hm. subst d1. simpl in *.
  destruct (Hd k m Hm) as [g Hg]. exists g. rewrite lookup_insert_ne; [done|].
  intros Heq. rewrite <- Heq in Hg. subst gid. by rewrite next_rowid_fresh in Hg.
Qed.

Lemma store_groups_from_members_in_groups (now : Z) (groups : list (list string))
    (i : nat) d :
  members_in_groups d →
  members_in_groups
    (store_groups_from calculate_group_similarity format_3f now i groups d).
Proof.
  revert i d. induction groups as [|group groups IH]; intros i d Hd; simpl; [done|].
  by apply IH, store_group_members_in_groups.
Qed.

(** X25.  The reset script followed by a store is a replacement.
    After [reset_similarity_analysis] no [combined] embedding is left,
    the other embeddings are kept, and clustering finds nothing; when
    [create_photo_groups_in_database] then stores some groups, the
    group table holds exactly one row per stored group, every member
    row names one of them, and the photos are untouched. *)
Theorem reset_then_store_replaces (now : Z) (eps : eps_t) (min_samples : Z)
    (groups : list (list string)) d :
  let d1 := reset_similarity_analysis d in
  let d2 := create_photo_groups_in_database
              calculate_group_similarity format_3f now groups d1 in
  find_similar_groups pickle_loads fit_predict eps min_samples d1 = Ok [] ∧
  photos d2 = photos d ∧
  size (photo_groups d2) = length groups ∧
  members_in_groups d2 ∧
  (∀ k pe, photo_embeddings d1 !! k = Some pe ↔
           photo_embeddings d !! k = Some pe ∧ embedding_type pe ≠ "combined").
Proof.
  intros d1 d2. split_and!.
  - unfold find_similar_groups.
    assert (get_photo_embeddings (Some "combined") d1 = []) as ->; [|done].
    apply elem_of_nil_inv. intros [fp blob] Hin.
    apply get_photo_embeddings_elem in Hin as (? & ? & k & pe & _ & Hpe & _ & Hty & _);
      [|done].
    subst d1. simpl in Hpe. by apply map_lookup_filter_Some in Hpe as [_ ?].
  - subst d2. unfold create_photo_groups_in_database.
    by destruct (store_groups_from_frame calculate_group_similarity format_3f
                   now groups 0 d1) as (-> & _).
  - subst d2. unfold create_photo_groups_in_database.
    destruct (store_groups_from_frame calculate_group_similarity format_3f
                now groups 0 d1) as (_ & _ & -> & _).
    subst d1. simpl. by rewrite map_size_empty.
  - subst d2. unfold create_photo_groups_in_database.
    apply store_groups_from_members_in_groups. intros k m Hm.
    subst d1. simpl in Hm. by rewrite lookup_empty in Hm.
  - intros k pe. subst d1. simpl. by rewrite map_lookup_filter_Some.
Qed.

End ResetAndStore.

Lemma store_photo_embedding_round_trip_witness :
  let r := store_photo_embedding 9 "/u/x.jpg" "combined" "e1'" Sample.catalog in
  r.2 = true ∧
  ("/u/x.jpg", "e1") ∈ get_photo_embeddings (Some "combined") Sample.catalog ∧
  ∀ blob, ("/u/x.jpg", blob) ∈ get_photo_embeddings (Some "combined") r.1 ↔ blob = "e1'".
Proof.
  intros r.
  destruct (store_photo_embedding_round_trip (real := Z) 9 "combined" "e1'"
              Sample.catalog 1 (Sample.unprocessed "/u/x.jpg" "x" "variant"))
    as (H1 & H2 & _).
  - apply (bool_decide_unpack _). vm_compute. exact I.
  - reflexivity.
  - discriminate.
  - split; [exact H1|]. split; [|exact H2].
    apply (bool_decide_unpack _). vm_compute. exact I.
Defined.

(** ** Pagination *)

Lemma page_items_chunk {A} (l : list A) (page per_page : Z) :
  (0 < per_page)%Z → (1 ≤ page)%Z →
  page_items l page per_page
  = take (Z.to_nat per_page) (drop (Z.to_nat (page - 1) * Z.to_nat per_page) l).
Proof.
  intros Hk Hp. unfold page_items, slice.
  set (n := Z.of_nat (length l)). set (s := ((page - 1) * per_page)%Z).
  assert (0 ≤ s)%Z as Hs by (subst s; nia).
  assert (Z.to_nat (page - 1) * Z.to_nat per_page = Z.to_nat s) as -> by (subst s; nia).
  rewrite (proj2 (Z.ltb_ge s 0)) by done.
  rewrite (proj2 (Z.ltb_ge (s + per_page) 0)) by lia.
  destruct (decide (n ≤ s)%Z) as [Hge|Hlt].
  - rewrite (drop_ge l (Z.to_nat (s `min` n))) by (subst n; lia).
    rewrite (drop_ge l (Z.to_nat s)) by (subst n; lia). by rewrite !take_nil.
  - rewrite (Z.min_l s n) by lia.
    destruct (decide (s + per_page ≤ n)%Z).
    + rewrite Z.min_l by lia. f_equal. lia.
    + rewrite Z.min_r by lia.
      rewrite !take_ge; [done|rewrite length_drop; subst n; lia..].
Qed.

Lemma concat_chunks {A} (l : list A) (k m : nat) :
  concat ((λ i, take k (drop (i * k) l)) <$> seq 0 m) = take (m * k) l.
Proof.
  induction m as [|m IH]; [done|].
  rewrite seq_S, fmap_app, concat_app, IH. simpl. rewrite app_nil_r.
  rewrite take_take_drop. f_equal. lia.
Qed.

(** X26.  The pagination of [index] shows every item once: with a
    positive page size, the pages from 1 to the number of pages, one
    after the other, are exactly the list of items; each of these
    pages holds at least one item and at most a page size of them, and
    every later page is empty. *)
Theorem pagination_covers {A} (all_items : list A) (per_page : Z) :
  (0 < per_page)%Z →
  let pages := total_pages (Z.of_nat (length all_items)) per_page in
  concat ((λ p, page_items all_items (Z.of_nat p) per_page)
            <$> seq 1 (Z.to_nat pages)) = all_items ∧
  (∀ page, (1 ≤ page ≤ pages)%Z →
     page_items all_items page per_page ≠ [] ∧
     (Z.of_nat (length (page_items all_items page per_page)) ≤ per_page)%Z) ∧
  (∀ page, (pages < page)%Z → page_items all_items page per_page = []).
Proof.
  intros Hk pages. set (n := Z.of_nat (length all_items)) in *.
  assert (Hpages : (0 ≤ pages ∧ n ≤ pages * per_page < n + per_page)%Z).
  { subst pages. unfold total_pages.
    pose proof (Z.div_mod (n + per_page - 1) per_page ltac:(lia)) as Hdm.
    pose proof (Z.mod_pos_bound (n + per_page - 1) per_page Hk) as Hmod.
    assert (0 ≤ (n + per_page - 1) `div` per_page)%Z
      by (apply Z.div_pos; subst n; lia).
    nia. }
  split_and!.
  - rewrite <- (fmap_S_seq 0), <- list_fmap_compose.
    erewrite (list_fmap_ext _ (λ i, take (Z.to_nat per_page)
                                     (drop (i * Z.to_nat per_page) all_items))).
    + rewrite concat_chunks. apply take_ge. subst n. nia.
    + intros i p _. simpl. rewrite page_items_chunk by lia. do 3 f_equal. lia.
  - intros page Hp. rewrite page_items_chunk by lia. split.
    + intros Hnil. apply (f_equal length) in Hnil.
      rewrite length_take, length_drop in Hnil. simpl in Hnil. subst n. nia.
    + rewrite length_take. lia.
  - intros page Hp. rewrite page_items_chunk by lia.
    rewrite drop_ge; [by rewrite take_nil|]. subst n. nia.
Qed.

Lemma pagination_covers_witness :
  total_pages 5 2 = 3%Z ∧
  page_items ["a"; "b"; "c"; "d"; "e"] 3 2 = ["e"] ∧
  concat ((λ p, page_items ["a"; "b"; "c"; "d"; "e"] (Z.of_nat p) 2) <$> seq 1 3)
  = ["a"; "b"; "c"; "d"; "e"].
Proof.
  split; [reflexivity|]. split; [reflexivity|].
  apply (proj1 (pagination_covers ["a"; "b"; "c"; "d"; "e"] 2 ltac:(lia))).
Defined.

(** ** The [update_date] route *)

Section UpdateDateRoute.
Context {real : Type} (e : env).

(** X27.  [update_date] on a set none of whose files is on disk
    updates nothing and still answers success: no file is handed to
    [update_photo_date], the list of results is empty, [all] of an
    empty list is true, and disk and catalog are as before. *)
Theorem update_date_nothing_on_disk (c c' : cache) (time now : Z)
    (fault : nat → option operational_error) (fs : gmap string file) (d : db real)
    (base_name new_date : string) (dt : date)
    (photo_pairs : gmap string pair) (v : pair) :
  base_name ≠ "" → new_date ≠ "" → strptime e new_date = Ok dt →
  get_unprocessed_photo_pairs c time fault d = Ok (c', photo_pairs) →
  photo_pairs !! base_name = Some v →
  (∀ fp, fp ∈ pair_paths v → fs !! fp = None) →
  update_date e c time now fault fs d (Some base_name) (Some new_date)
  = Ok (c', fs, d, UpdateResponse true "All photos updated successfully" []).
Proof.
  intros Hb Hn Hdt Hl Hv Hgone. unfold update_date.
  rewrite (proj2 (truthy_Some base_name) Hb), (proj2 (truthy_Some new_date) Hn).
  cbn [negb orb]. rewrite Hdt, Hl, Hv.
  assert (Hstep : ∀ o, (∀ fp, o = Some fp → Py.truthy o = true → fs !! fp = None) →
            update_file e now new_date (fs, d, []) o = (fs, d, [])).
  { intros [fp|] Ho; simpl; [|done].
    destruct (negb (String.eqb fp "")) eqn:Et; simpl; [|done].
    rewrite bool_decide_eq_false_2; [done|].
    rewrite (Ho fp eq_refl); [by intros [??]|done]. }
  assert (Hfold : ∀ l, (∀ o fp, o ∈ l → o = Some fp → Py.truthy o = true →
                                fs !! fp = None) →
            foldl (update_file e now new_date) (fs, d, []) l = (fs, d, [])).
  { induction l as [|o l IH]; intros Hl'; [done|]. cbn [foldl]. rewrite Hstep.
    - apply IH. intros o' fp Hin. apply Hl'. by apply elem_of_cons; right.
    - intros fp. apply Hl'. by apply elem_of_cons; left. }
  rewrite Hfold; [done|].
  intros o fp Hin -> Ht. apply Hgone. unfold pair_paths, slot_paths.
  apply elem_of_cons in Hin as [Hf|Hin].
  { rewrite <- Hf, Ht. set_solver. }
  apply elem_of_cons in Hin as [Hf|Hin].
  { rewrite <- Hf, Ht. set_solver. }
  apply list_elem_of_fmap in Hin as (fp' & [= ->] & Hin). set_solver.
Qed.

End UpdateDateRoute.

Lemma update_date_nothing_on_disk_witness :
  update_date (real := Z) Sample.world empty_cache 100 100 (λ _, None) ∅
              Sample.mixed_catalog (Some "p") (Some "2024-01-05")
  = Ok (Cache None (Some (100%Z, Sample.p_listing)), ∅, Sample.mixed_catalog,
        UpdateResponse true "All photos updated successfully" []).
Proof.
  apply (update_date_nothing_on_disk (real := Z) Sample.world empty_cache _ 100 100
           (λ _, None) ∅ Sample.mixed_catalog "p" "2024-01-05"
           (Date "2024" "01" "2024-01-05") Sample.p_listing
           (Pair (Some "/u/p_a.jpg") None [] None));
    [discriminate|discriminate|reflexivity|vm_compute; reflexivity|reflexivity|].
  intros fp _. apply lookup_empty.
Defined.

(** ** The [photo_filename] filter *)

Lemma startswith_first_char (s p : string) (a b : ascii) (r q : list ascii) :
  Py.chars s = a :: r → Py.chars p = b :: q → a ≠ b → Py.startswith s p = false.
Proof.
  intros Hs Hp Hne. unfold Py.startswith. apply bool_decide_eq_false.
  rewrite Hs, Hp. intros [k Hk]. simplify_eq/=.
Qed.

Lemma basename_no_sep (p : string) : "/"%char ∉ Py.chars (Py.basename p).
Proof.
  unfold Py.basename. rewrite chars_str.
  destruct (rfind_spec "/" (Py.chars p)) as [[Hn ->]|(l1 & l2 & -> & Hn & ->)].
  - by rewrite drop_0.
  - replace (Z.to_nat (Z.of_nat (length l1) + 1)) with (length l1 + 1) by lia.
    rewrite <- drop_drop, drop_app_length. done.
Qed.

(** X28.  For an absolute path the [photo_filename] filter keeps only
    the last component: none of its prefixes applies, so the result is
    the base name of the path with its backslashes turned into
    slashes, and holds no slash.  The directories of a photo below the
    unprocessed folder are dropped from the name under which it is
    served. *)
Theorem photo_filename_filter_absolute (filepath : string) :
  Py.startswith filepath "/" = true →
  photo_filename_filter (Some filepath)
  = Py.basename (replace_char backslash "/" filepath) ∧
  ("/"%char ∉ Py.chars (photo_filename_filter (Some filepath))).
Proof.
  intros Hs.
  assert (photo_filename_filter (Some filepath)
          = Py.basename (replace_char backslash "/" filepath)) as ->;
    [|split; [done|apply basename_no_sep]].
  unfold Py.startswith in Hs. apply bool_decide_eq_true in Hs as [r Hr].
  change (Py.chars "/") with ["/"%char] in Hr. simpl in Hr.
  assert (filepath ≠ "") as Hne by (intros ->; done).
  unfold photo_filename_filter. rewrite (proj2 (truthy_Some filepath) Hne).
  cbn [negb].
  assert (Hn : Py.chars (replace_char backslash "/" filepath)
               = "/"%char :: ((λ c, if decide (c = backslash) then "/"%char else c) <$> r)).
  { unfold replace_char. by rewrite chars_str, Hr. }
  assert (Ho : strip_first_prefix original_prefixes filepath = None).
  { unfold original_prefixes. cbn [strip_first_prefix].
    repeat match goal with
    | |- context [Py.startswith filepath ?p] =>
        rewrite (startswith_first_char filepath p _ _ _ _ Hr eq_refl) by done
    end. done. }
  assert (Hp : strip_first_prefix normalized_prefixes
                 (replace_char backslash "/" filepath) = None).
  { unfold normalized_prefixes. cbn [strip_first_prefix].
    repeat match goal with
    | |- context [Py.startswith ?s ?p] =>
        rewrite (startswith_first_char s p _ _ _ _ Hn eq_refl) by done
    end. done. }
  by rewrite Ho, Hp.
Qed.

Lemma photo_filename_filter_absolute_witness :
  photo_filename_filter (Some "/app/data/photos/unprocessed/1999/x_a.jpg") = "x_a.jpg" ∧
  photo_filename_filter (Some "./data/photos/unprocessed/1999/x_a.jpg") = "1999/x_a.jpg".
Proof.
  split; [|vm_compute; reflexivity].
  rewrite (proj1 (photo_filename_filter_absolute
                    "/app/data/photos/unprocessed/1999/x_a.jpg" eq_refl)).
  vm_compute. reflexivity.
Defined.

(** ** The embedding pass *)

Section EmbeddingPass.
Context {real : Type}.
Implicit Types d : db real.
Context (exists_on_disk : string → bool).
Context (extract_features : string → option string).

Lemma photos_to_process_elem d (id : Z) (fp : string) :
  (id, fp) ∈ photos_to_process d ↔
  ∃ r, photos d !! id = Some r ∧ filepath r = fp ∧
       (∀ k pe, photo_embeddings d !! k = Some pe →
                ¬ (pe_photo_id pe = id ∧ embedding_type pe = "combined")) ∧
       processed_date r = None ∧ ignored_date r = None ∧ file_type r = "variant".
Proof.
  unfold photos_to_process. rewrite list_elem_of_fmap.
  assert (Hall : ∀ i, Forall (λ pe, ¬ (pe_photo_id pe = i ∧ embedding_type pe = "combined"))
                   (map_to_list (photo_embeddings d)).*2
            ↔ ∀ k pe, photo_embeddings d !! k = Some pe →
                      ¬ (pe_photo_id pe = i ∧ embedding_type pe = "combined")).
  { intros i. rewrite Forall_forall. split.
    - intros H k pe Hpe. apply H. apply list_elem_of_fmap. exists (k, pe).
      split; [done|]. by apply elem_of_map_to_list.
    - intros H pe ([k pe'] & -> & Hin%elem_of_map_to_list)%list_elem_of_fmap.
      by eapply H. }
  split.
  - intros ([i r] & [= -> ->] & [(Hf & ? & ? & ?) Hin%elem_of_map_to_list]%list_elem_of_filter).
    simpl in *. exists r. split_and!; [done..| |done|done|done]. by apply Hall.
  - intros (r & Hr & <- & Hf & ? & ? & ?). exists (id, r). split; [done|].
    apply list_elem_of_filter. split; [|by apply elem_of_map_to_list].
    simpl. split_and!; [|done..]. by apply Hall.
Qed.

Lemma photos_to_process_NoDup d : NoDup (photos_to_process d).*1.
Proof.
  unfold photos_to_process. rewrite <- list_fmap_compose.
  change (fst ∘ (λ kv : Z * photo, (kv.1, filepath kv.2))) with (@fst Z photo).
  eapply sublist_NoDup; [apply (NoDup_fst_map_to_list (photos d))|].
  apply fmap_sublist, sublist_filter.
Qed.

Lemma insert_embedding_lookup (now : Z) (id : Z) (ty data : string) d
    (k : Z) (pe : photo_embedding) :
  photo_embeddings (insert_embedding now id ty data d) !! k = Some pe ↔
  (k = next_rowid (photo_embeddings_seq d) (photo_embeddings d)
   ∧ pe = PhotoEmbedding id ty data now)
  ∨ (photo_embeddings d !! k = Some pe
     ∧ ¬ (pe_photo_id pe = id ∧ embedding_type pe = ty)).
Proof.
  unfold insert_embedding. simpl.
  set (new := next_rowid (photo_embeddings_seq d) (photo_embeddings d)).
  assert (photo_embeddings d !! new = None) as Hfresh by apply next_rowid_fresh.
  destruct (decide (k = new)) as [->|Hk].
  - rewrite lookup_insert_eq. rewrite Hfresh. naive_solver.
  - rewrite lookup_insert_ne by done. rewrite map_lookup_filter_Some. simpl.
    naive_solver.
Qed.

(** What the loop does to the embeddings, for any list of photos with
    distinct ids. *)
Lemma compute_embeddings_loop (now : Z) (l : list (Z * string)) :
  NoDup l.*1 → ∀ d,
  let d' := foldl (compute_embedding exists_on_disk extract_features now) d l in
  photos d' = photos d ∧
  (∀ k pe, photo_embeddings d !! k = Some pe →
     (∀ fp, (pe_photo_id pe, fp) ∈ l → embedding_type pe ≠ "combined") →
     photo_embeddings d' !! k = Some pe) ∧
  (∀ k pe, photo_embeddings d' !! k = Some pe →
     photo_embeddings d !! k = Some pe ∨
     (embedding_type pe = "combined" ∧
      ∃ fp, (pe_photo_id pe, fp) ∈ l ∧ exists_on_disk fp = true ∧
            extract_features fp = Some (embedding_data pe))) ∧
  (∀ id fp data, (id, fp) ∈ l → exists_on_disk fp = true →
     extract_features fp = Some data →
     ∃ k pe, photo_embeddings d' !! k = Some pe ∧ pe_photo_id pe = id ∧
             embedding_type pe = "combined" ∧ embedding_data pe = data).
Proof.
  induction l as [|[id fp] l IH]; intros Hnd d; cbn [foldl].
  { split_and!; [done|done|by left|by intros ??? ?%elem_of_nil]. }
  simpl in Hnd. apply NoDup_cons in Hnd as [Hid Hnd].
  set (d1 := compute_embedding exists_on_disk extract_features now d (id, fp)).
  destruct (IH Hnd d1) as (I1 & I2 & I3 & I4). clear IH.
  assert (Hd1 : photos d1 = photos d ∧
    (∀ k pe, photo_embeddings d1 !! k = Some pe ↔
       (exists_on_disk fp = true ∧
        ∃ data, extract_features fp = Some data ∧
          ((k = next_rowid (photo_embeddings_seq d) (photo_embeddings d)
            ∧ pe = PhotoEmbedding id "combined" data now)
           ∨ (photo_embeddings d !! k = Some pe
              ∧ ¬ (pe_photo_id pe = id ∧ embedding_type pe = "combined"))))
       ∨ ((exists_on_disk fp = false ∨ extract_features fp = None)
          ∧ photo_embeddings d !! k = Some pe))).
  { subst d1. unfold compute_embedding.
    destruct (exists_on_disk fp) eqn:Ex; simpl; [|naive_solver].
    destruct (extract_features fp) as [data|] eqn:Ef; [|naive_solver].
    split; [done|]. intros k pe. rewrite insert_embedding_lookup. naive_solver. }
  destruct Hd1 as [P1 L1].
  assert (Hnot : ∀ fp', (id, fp') ∉ l).
  { intros fp' Hin. apply Hid. apply list_elem_of_fmap. by exists (id, fp'). }
  split_and!.
  - congruence.
  - intros k pe Hpe Hty. apply I2.
    + apply L1. destruct (exists_on_disk fp) eqn:Ex; [|by right; split; [left|]].
      destruct (extract_features fp) as [data|] eqn:Ef; [|by right; split; [right|]].
      left. split; [done|]. exists data. split; [done|]. right. split; [done|].
      intros [<- Hc]. by apply (Hty fp); [apply elem_of_cons; left|].
    + intros fp' Hin. apply (Hty fp'). by apply elem_of_cons; right.
  - intros k pe [Hpe|(Hc & fp' & Hin & Hx & Hf)]%I3.
    + apply L1 in Hpe as [(Hx & data & Hf & [[-> ->]|[Hpe _]])|[_ Hpe]]; [|by left..].
      right. split; [done|]. exists fp. simpl. split_and!; [|done..].
      by apply elem_of_cons; left.
    + right. split; [done|]. exists fp'. split_and!; [|done..].
      by apply elem_of_cons; right.
  - intros id0 fp0 data [[= -> ->]|Hin]%elem_of_cons Hx Hf; [|by eapply I4].
    eexists _, (PhotoEmbedding id "combined" data now). split; [|done].
    apply I2.
    + apply L1. left. split; [done|]. exists data. split; [done|]. by left.
    + intros fp' Hin. by destruct (Hnot fp').
Qed.

(** A photo the pass is meant for has a [combined] embedding after
    it, when its file is there and gives features. *)
Lemma compute_embeddings_covers (now : Z) d (id : Z) (r : photo) (data : string) :
  photos d !! id = Some r → file_type r = "variant" →
  processed_date r = None → ignored_date r = None →
  exists_on_disk (filepath r) = true → extract_features (filepath r) = Some data →
  ∃ k pe,
    photo_embeddings
      (compute_embeddings_for_all_photos exists_on_disk extract_features now d) !! k
    = Some pe ∧ pe_photo_id pe = id ∧ embedding_type pe = "combined".
Proof.
  unfold compute_embeddings_for_all_photos.
  destruct (compute_embeddings_loop now (photos_to_process d)
              (photos_to_process_NoDup d) d) as (L1 & L2 & L3 & L4).
  intros Hr Hv Hp Hi Hx Hf.
  destruct (decide (∃ k pe, photo_embeddings d !! k = Some pe ∧ pe_photo_id pe = id
                            ∧ embedding_type pe = "combined")) as [(k & pe & Hpe & ? & ?)|Hno].
  - exists k, pe. split_and!; [|done..]. apply L2; [done|].
    intros fp (r' & _ & _ & Hno & _)%photos_to_process_elem Hc. by apply (Hno k pe).
  - destruct (L4 id (filepath r) data) as (k & pe & ? & ? & ? & ?); [|done..|by eauto].
    apply photos_to_process_elem. exists r. split_and!; [done..| |done|done|done].
    intros k pe Hpe [??]. apply Hno. eauto.
Qed.

(** X29.  [compute_embeddings_for_all_photos] only adds what is
    missing.  The photos and every embedding row that was there are
    left as they were; every row it adds is a [combined] embedding of a
    scanner original that is neither processed nor ignored, whose file
    is on disk, holding the features extracted from that file; and
    every such photo whose features can be extracted has a [combined]
    embedding afterwards. *)
Theorem compute_embeddings_adds_only_missing (now : Z) d :
  let d' := compute_embeddings_for_all_photos exists_on_disk extract_features now d in
  photos d' = photos d ∧
  (∀ k pe, photo_embeddings d !! k = Some pe → photo_embeddings d' !! k = Some pe) ∧
  (∀ k pe, photo_embeddings d' !! k = Some pe →
     photo_embeddings d !! k = Some pe ∨
     (embedding_type pe = "combined" ∧
      ∃ r, photos d !! pe_photo_id pe = Some r ∧ file_type r = "variant" ∧
           processed_date r = None ∧ ignored_date r = None ∧
           exists_on_disk (filepath r) = true ∧
           extract_features (filepath r) = Some (embedding_data pe))) ∧
  (∀ id r data, photos d !! id = Some r → file_type r = "variant" →
     processed_date r = None → ignored_date r = None →
     exists_on_disk (filepath r) = true → extract_features (filepath r) = Some data →
     ∃ k pe, photo_embeddings d' !! k = Some pe ∧ pe_photo_id pe = id ∧
             embedding_type pe = "combined").
Proof.
  intros d'. subst d'. unfold compute_embeddings_for_all_photos.
  destruct (compute_embeddings_loop now (photos_to_process d)
              (photos_to_process_NoDup d) d) as (L1 & L2 & L3 & L4).
  split_and!.
  - done.
  - intros k pe Hpe. apply L2; [done|].
    intros fp (r & _ & _ & Hno & _)%photos_to_process_elem Hc. by apply (Hno k pe).
  - intros k pe [?|(Hc & fp & (r & Hr & <- & _ & ? & ? & ?)%photos_to_process_elem
                    & Hx & Hf)]%L3; [by left|].
    right. split; [done|]. by exists r.
  - intros id r data. apply compute_embeddings_covers.
Qed.

Lemma foldl_noop {A B} (f : A → B → A) (a : A) (l : list B) :
  (∀ x, x ∈ l → f a x = a) → foldl f a l = a.
Proof.
  induction l as [|x l IH]; intros H; [done|]. cbn [foldl].
  rewrite H by (by apply elem_of_cons; left). apply IH.
  intros y Hy. apply H. by apply elem_of_cons; right.
Qed.

(** X30.  [compute_embeddings_for_all_photos] is idempotent: with the
    same files on disk and the same feature extraction, a second pass
    writes nothing (what it selects again has no file or gives no
    features). *)
Theorem compute_embeddings_idempotent (now now' : Z) d :
  let d' := compute_embeddings_for_all_photos exists_on_disk extract_features now d in
  compute_embeddings_for_all_photos exists_on_disk extract_features now' d' = d'.
Proof.
  intros d'. unfold compute_embeddings_for_all_photos at 1. apply foldl_noop.
  intros [id fp] (r & Hr & <- & Hno & Hp & Hi & Hv)%photos_to_process_elem.
  unfold compute_embedding.
  destruct (exists_on_disk (filepath r)) eqn:Hx; [|done]. simpl.
  destruct (extract_features (filepath r)) as [data|] eqn:Hf; [exfalso|done].
  assert (photos d !! id = Some r) as Hr0.
  { subst d'. unfold compute_embeddings_for_all_photos in Hr.
    destruct (compute_embeddings_loop now (photos_to_process d)
                (photos_to_process_NoDup d) d) as (<- & _). done. }
  destruct (compute_embeddings_covers now d id r data Hr0 Hv Hp Hi Hx Hf)
    as (k & pe & Hpe & H1 & H2).
  by apply (Hno k pe).
Qed.

End EmbeddingPass.
